(** * SSO-Simplifier: the scan, strip, extract and stub pipeline

    A shallow embedding of the scanner ([package utils]: [ScanForSSOs],
    [extractParameters], [areParametersValid], [removePrivateClasses], in
    the revision that strips private classes and reads public fields), of
    [utils/server_side_object.go], [utils/sso_super.go] and the stub writer
    [WriteSimplifiedSSO], followed by the properties of the pipeline.

    Modelling conventions.
    - A Go [string] is a sequence of bytes: Rocq's [string] of [ascii].
    - A Go [int] used as an index or a counter is a [nat]; the sentinel [-1]
      of [strings.Index] and [strings.LastIndex] is [None].
    - White space is Go's ASCII table (tab, line feed, vertical tab, form
      feed, carriage return, space); the model covers ASCII source text, for
      which [strings.Fields] and [strings.TrimSpace] use exactly that table.
    - [regexp] is modelled by a backtracking matcher: Go documents its
      leftmost-first semantics as the match a backtracking search finds
      first. *)

From Stdlib Require Import Strings.String Strings.Ascii.
From Stdlib Require Import List Arith Bool Lia.
From Stdlib Require Import Sorting.Permutation Sorting.Sorted Sorting.Mergesort.
From Stdlib Require Import Structures.OrderedTypeEx.
Import ListNotations.

Open Scope list_scope.
Open Scope string_scope.

(** ** Go's [strings] package, the part the program calls *)

Module Strings.

(** [s[n:]] *)
Fixpoint drop (n : nat) (s : string) : string :=
  match n, s with
  | O, _ => s
  | S _, EmptyString => EmptyString
  | S k, String _ t => drop k t
  end.

(** [s[:n]] *)
Fixpoint take (n : nat) (s : string) : string :=
  match n, s with
  | O, _ => EmptyString
  | S _, EmptyString => EmptyString
  | S k, String c t => String c (take k t)
  end.

(** [s[a:b]] *)
Definition slice (s : string) (a b : nat) : string := take (b - a) (drop a s).

(** [strings.HasPrefix] *)
Fixpoint HasPrefix (s p : string) {struct p} : bool :=
  match p, s with
  | EmptyString, _ => true
  | String _ _, EmptyString => false
  | String a p', String b s' => Ascii.eqb a b && HasPrefix s' p'
  end.

(** [strings.HasSuffix] *)
Definition HasSuffix (s p : string) : bool :=
  Nat.leb (String.length p) (String.length s)
  && String.eqb (drop (String.length s - String.length p) s) p.

(** [strings.Index]: the offset of the first occurrence of [sub]. *)
Fixpoint Index (s sub : string) : option nat :=
  if HasPrefix s sub then Some 0
  else match s with
       | EmptyString => None
       | String _ t => option_map S (Index t sub)
       end.

(** [strings.LastIndex]: the offset of the last occurrence of [sub]. *)
Fixpoint LastIndex (s sub : string) : option nat :=
  match s with
  | EmptyString => if HasPrefix s sub then Some 0 else None
  | String _ t =>
      match LastIndex t sub with
      | Some i => Some (S i)
      | None => if HasPrefix s sub then Some 0 else None
      end
  end.

(** Go's [asciiSpace] table. [strings.Fields] and [strings.TrimSpace] split
    and trim at these bytes when every byte of the text is below
    [utf8.RuneSelf]; a text with a larger byte is read rune by rune with
    [unicode.IsSpace], which the model does not follow. *)
Definition isSpace (c : ascii) : bool :=
  match nat_of_ascii c with
  | 9 | 10 | 11 | 12 | 13 | 32 => true
  | _ => false
  end.

Definition snoc (s : string) (c : ascii) : string := s ++ String c EmptyString.

Definition flush (cur : string) : list string :=
  match cur with EmptyString => [] | _ => [cur] end.

(** [strings.Fields]: the maximal runs of non-space bytes; [cur] is the
    field being read. *)
Fixpoint fields_from (s cur : string) : list string :=
  match s with
  | EmptyString => flush cur
  | String c t =>
      if isSpace c then flush cur ++ fields_from t EmptyString
      else fields_from t (snoc cur c)
  end.

Definition Fields (s : string) : list string := fields_from s EmptyString.

(** [strings.Join] *)
Definition Join (elems : list string) (sep : string) : string :=
  String.concat sep elems.

Fixpoint trimLeft (s : string) : string :=
  match s with
  | String c t => if isSpace c then trimLeft t else s
  | EmptyString => EmptyString
  end.

Fixpoint reverse (s : string) : string :=
  match s with
  | EmptyString => EmptyString
  | String c t => snoc (reverse t) c
  end.

(** [strings.TrimSpace] *)
Definition TrimSpace (s : string) : string :=
  reverse (trimLeft (reverse (trimLeft s))).

(** [strings.Split] for a separator that is not empty: [skip] counts the
    bytes of a separator found at an earlier offset that are still to be
    passed over, [cur] is the piece being read. *)
Fixpoint split_from (s sep : string) (skip : nat) (cur : string) : list string :=
  match s with
  | EmptyString => [cur]
  | String c t =>
      match skip with
      | S k => split_from t sep k cur
      | O =>
          if HasPrefix s sep
          then cur :: split_from t sep (String.length sep - 1) EmptyString
          else split_from t sep 0 (snoc cur c)
      end
  end.

Definition Split (s sep : string) : list string := split_from s sep 0 EmptyString.

End Strings.

(** [filepath.Ext]: the suffix of [path] that starts at the last dot of its
    last element, empty when that element has no dot. *)
Module Filepath.

Fixpoint ext_from (s : string) : option string :=
  match s with
  | EmptyString => None
  | String c t =>
      match ext_from t with
      | Some e => Some e
      | None =>
          if Ascii.eqb c "."%char then Some s else None
      end
  end.

Fixpoint last_element (s : string) : string :=
  match s with
  | EmptyString => EmptyString
  | String c t =>
      match Strings.Index t "/" with
      | Some _ => last_element t
      | None => if Ascii.eqb c "/"%char then t else s
      end
  end.

Definition Ext (path : string) : string :=
  match ext_from (last_element path) with
  | Some e => e
  | None => EmptyString
  end.

(** The loop of [filepath.Clean] over the elements of a path, the pieces
    between slashes; [out] holds the elements kept so far, the last one
    first. An empty element and [.] are passed over. [..] takes back the
    last element kept when there is one and it is not itself a [..]; with
    nothing to take back it is dropped in a rooted path and kept
    otherwise. *)
Fixpoint clean_elements (rooted : bool) (elems out : list string) : list string :=
  match elems with
  | [] => out
  | e :: rest =>
      if String.eqb e EmptyString || String.eqb e "." then
        clean_elements rooted rest out
      else if String.eqb e ".." then
        match out with
        | top :: below =>
            if String.eqb top ".." then clean_elements rooted rest (e :: out)
            else clean_elements rooted rest below
        | [] =>
            if rooted then clean_elements rooted rest []
            else clean_elements rooted rest [e]
        end
      else clean_elements rooted rest (e :: out)
  end.

(** [filepath.Clean], with the slash as the separator: [.] for the empty
    path and for a relative path that cleans to nothing. *)
Definition Clean (path : string) : string :=
  if String.eqb path EmptyString then "."
  else
    let rooted := Strings.HasPrefix path "/" in
    let kept := Strings.Join (rev (clean_elements rooted (Strings.Split path "/") [])) "/" in
    if rooted then "/" ++ kept
    else if String.eqb kept EmptyString then "." else kept.

(** [filepath.Join(a, b)]: the elements from the first one that is not
    empty on, joined with a slash and cleaned. *)
Definition Join (a b : string) : string :=
  if negb (String.eqb a EmptyString) then Clean (a ++ "/" ++ b)
  else if negb (String.eqb b EmptyString) then Clean b
  else EmptyString.

End Filepath.

(** ** Go's [regexp] package: syntax and leftmost-first matching *)

Module Regexp.

Inductive regex : Type :=
| Eps                                  (* the empty pattern *)
| Class (f : ascii -> bool)            (* a character class *)
| Lit (s : string)                     (* literal text *)
| Cat (r1 r2 : regex)                  (* r1r2 *)
| Alt (r1 r2 : regex)                  (* r1|r2, r1 preferred *)
| Star (r : regex)                     (* r*, greedy *)
| Group (n : nat) (r : regex).         (* the n-th capturing group *)

(** [r+] and [r?], greedy. *)
Definition Plus (r : regex) : regex := Cat r (Star r).
Definition Opt (r : regex) : regex := Alt r Eps.

(** Captured texts, most recent first. *)
Definition captures := list (nat * string).

Fixpoint capture (c : captures) (n : nat) : string :=
  match c with
  | [] => EmptyString
  | (m, s) :: c' => if Nat.eqb m n then s else capture c' n
  end.

Section Matcher.
Context {A : Type}.

(** A continuation receives the number of bytes consumed so far, the
    rest of the input and the captures. *)
Definition cont := nat -> string -> captures -> option A.

Definition orelse (x : option A) (y : unit -> option A) : option A :=
  match x with Some _ => x | None => y tt end.

(** The loop of a greedy star over a matcher [body]: one more turn of
    [body] that consumes at least one byte is preferred to leaving the loop.
    A turn consumes a byte, so [len(s)] turns are enough (lemma
    [RegexpFacts.Star_fuel]). *)
Fixpoint star_loop (body : nat -> string -> captures -> cont -> option A)
  (k : cont) (fuel : nat) (pos : nat) (s : string) (c : captures) : option A :=
  match fuel with
  | O => k pos s c
  | S fuel' =>
      orelse
        (body pos s c
           (fun pos' s' c' =>
              if Nat.ltb pos pos' then star_loop body k fuel' pos' s' c' else None))
        (fun _ => k pos s c)
  end.

(** [run r pos s c k]: match [r] at the head of [s] (offset [pos] of the
    text), then continue with [k]; the alternatives are tried in the
    order of preference and the first success is returned. *)
Fixpoint run (r : regex) (pos : nat) (s : string) (c : captures) (k : cont)
  : option A :=
  match r with
  | Eps => k pos s c
  | Class f =>
      match s with
      | String a t => if f a then k (S pos) t c else None
      | EmptyString => None
      end
  | Lit l =>
      if Strings.HasPrefix s l
      then k (pos + String.length l) (Strings.drop (String.length l) s) c
      else None
  | Cat r1 r2 => run r1 pos s c (fun pos' s' c' => run r2 pos' s' c' k)
  | Alt r1 r2 => orelse (run r1 pos s c k) (fun _ => run r2 pos s c k)
  | Star r1 => star_loop (run r1) k (String.length s) pos s c
  | Group n r1 =>
      run r1 pos s c
        (fun pos' s' c' => k pos' s' ((n, Strings.take (pos' - pos) s) :: c'))
  end.
End Matcher.

(** A match: the offsets of its start and end and its captures. *)
Definition found := (nat * nat * captures)%type.

(** The leftmost match of [r] in [s], whose first byte is at offset [pos]
    of the text. *)
Fixpoint search (r : regex) (pos : nat) (s : string) : option found :=
  match run r pos s [] (fun e _ c => Some (pos, e, c)) with
  | Some m => Some m
  | None =>
      match s with
      | EmptyString => None
      | String _ t => search r (S pos) t
      end
  end.

(** What [FindStringSubmatch] returns for a match: the matched text, then
    the text of the groups [1..ngroups]. *)
Definition submatches (text : string) (ngroups : nat) (m : found) : list string :=
  let '(b, e, c) := m in
  Strings.slice text b e :: map (capture c) (seq 1 ngroups).

Definition FindStringSubmatch (r : regex) (ngroups : nat) (text : string)
  : option (list string) :=
  option_map (submatches text ngroups) (search r 0 text).

Definition MatchString (r : regex) (text : string) : bool :=
  match search r 0 text with Some _ => true | None => false end.

(** The loop of [allMatches]: successive matches that do not overlap; an
    empty match next to the previous match is not delivered, and the
    search then moves on by one byte. *)
Fixpoint all_from (fuel : nat) (r : regex) (ngroups : nat) (text : string)
  (pos : nat) (prevEnd : option nat) : list (list string) :=
  match fuel with
  | O => []
  | S fuel' =>
      if Nat.ltb (String.length text) pos then []
      else
        match search r pos (Strings.drop pos text) with
        | None => []
        | Some (b, e, c) =>
            if Nat.eqb e pos then
              let rest := all_from fuel' r ngroups text (S pos) (Some e) in
              match prevEnd with
              | Some p => if Nat.eqb b p then rest
                          else submatches text ngroups (b, e, c) :: rest
              | None => submatches text ngroups (b, e, c) :: rest
              end
            else
              submatches text ngroups (b, e, c)
                :: all_from fuel' r ngroups text e (Some e)
        end
  end.

(** [FindAllStringSubmatch(text, -1)] *)
Definition FindAllStringSubmatch (r : regex) (ngroups : nat) (text : string)
  : list (list string) :=
  all_from (S (S (String.length text))) r ngroups text 0 None.

End Regexp.

(** ** The signature model ([utils/server_side_object.go]) *)

(** [Parameter]: a parameter of a Java method signature, its type and its
    name ([Parameter], [Parameters] and [Type] are reserved words here, hence
    the underscores). *)
Record Parameter_ : Type := {
  Type_ : string;
  Name : string
}.

Record PublicMethod : Type := {
  AccessModifier : string;
  ReturnType : string;
  MethodName : string;
  Parameters_ : list Parameter_
}.

(** Modelled from the spec: the declaration of [PublicField] is not among
    the sources; a field signature is a type token and a field name. *)
Record PublicField : Type := {
  FieldType : string;
  FieldName : string
}.

(** [DeclaredFields] is set by the scanner; the record follows the scanner's
    composite literal. *)
Record ServerSideObject : Type := {
  FilePath : string;
  ClassName : string;
  PackageLine : string;
  DeclaredMethods : list PublicMethod;
  DeclaredFields : list PublicField
}.

Definition ServerSideObjectList := list ServerSideObject.

(** The table of allowed types and their default literals. *)
Definition allowedTypes_entries : list (string * string) :=
  [ ("boolean", "false");
    ("byte",    "0");
    ("char",    "'\0'");
    ("short",   "0");
    ("int",     "0");
    ("long",    "0L");
    ("float",   "0.0f");
    ("double",  "0.0");
    ("String",  "null") ].

Fixpoint lookup (m : list (string * string)) (k : string) : option string :=
  match m with
  | [] => None
  | (k', v) :: m' => if String.eqb k' k then Some v else lookup m' k
  end.

(** [allowedTypes[k]], with the presence flag as the option. *)
Definition allowedTypes (k : string) : option string := lookup allowedTypes_entries k.

(** [ServerSideObjectList.Less], on the two elements compared. *)
Definition Less (a b : ServerSideObject) : bool :=
  String.ltb (ClassName a) (ClassName b).

(** [SuperclassMethods] ([utils/sso_super.go]) *)
Definition SuperclassMethods : list PublicMethod :=
  [ {| AccessModifier := "public";
       ReturnType := "String";
       MethodName := "getLastError";
       Parameters_ := [] |} ].

(** ** The patterns of the scanner *)

Module Patterns.
Import Regexp.

Definition between (lo hi : nat) (c : ascii) : bool :=
  let n := nat_of_ascii c in Nat.leb lo n && Nat.leb n hi.

Definition one_of (l : string) (c : ascii) : bool :=
  existsb (Ascii.eqb c) (list_ascii_of_string l).

(** [a-zA-Z0-9] *)
Definition alnum (c : ascii) : bool :=
  between 97 122 c || between 65 90 c || between 48 57 c.

(** [\s], which is [\t\n\f\r ] in Go's syntax *)
Definition space : regex :=
  Class (fun c => match nat_of_ascii c with
                  | 9 | 10 | 12 | 13 | 32 => true
                  | _ => false
                  end).

Fixpoint cat (l : list regex) : regex :=
  match l with
  | [] => Eps
  | [r] => r
  | r :: l' => Cat r (cat l')
  end.

(** The texts handed to [regexp.MustCompile], then each pattern as a
    syntax tree. *)
Definition packagePattern_text : string :=
  "package ([a-zA-Z0-9_.]+);".
Definition classPattern_text : string :=
  "public class [a-zA-Z0-9_$]+ extends ServerSideObject".
Definition methodPattern_text : string :=
  "public\s+([a-zA-Z0-9_$<>\[\]]+)\s+([a-zA-Z0-9_$]+)\s*\(([^)]*)\)".
Definition publicFieldPattern_text : string :=
  "public(?:\s+(?:static|final|transient|volatile))*\s+([a-zA-Z0-9_$\[\]]+)\s+([a-zA-Z0-9_$]+)(?:\s*=\s*[^;]+)?;".

Definition packagePattern : regex :=
  cat [ Lit "package ";
        Group 1 (Plus (Class (fun c => alnum c || one_of "_." c)));
        Lit ";" ].

Definition classPattern : regex :=
  cat [ Lit "public class ";
        Plus (Class (fun c => alnum c || one_of "_$" c));
        Lit " extends ServerSideObject" ].

Definition methodPattern : regex :=
  cat [ Lit "public"; Plus space;
        Group 1 (Plus (Class (fun c => alnum c || one_of "_$<>[]" c)));
        Plus space;
        Group 2 (Plus (Class (fun c => alnum c || one_of "_$" c)));
        Star space; Lit "(";
        Group 3 (Star (Class (fun c => negb (Ascii.eqb c ")"%char))));
        Lit ")" ].

Definition publicFieldPattern : regex :=
  cat [ Lit "public";
        Star (Cat (Plus space)
                (Alt (Lit "static")
                   (Alt (Lit "final") (Alt (Lit "transient") (Lit "volatile")))));
        Plus space;
        Group 1 (Plus (Class (fun c => alnum c || one_of "_$[]" c)));
        Plus space;
        Group 2 (Plus (Class (fun c => alnum c || one_of "_$" c)));
        Opt (cat [ Star space; Lit "="; Star space;
                   Plus (Class (fun c => negb (Ascii.eqb c ";"%char))) ]);
        Lit ";" ].

End Patterns.

(** ** The scanner *)

(** The test of the modifier loop: [parts[j] == "final" ||
    strings.HasPrefix(parts[j], "@")]. *)
Definition is_modifier (tok : string) : bool :=
  String.eqb tok "final" || Strings.HasPrefix tok "@".

(** The loop [for j < len(parts)-2 { ... j++ / break }]; it runs at most
    [len(parts)] times, which is the fuel. *)
Fixpoint skip_modifiers (fuel : nat) (parts : list string) (j : nat) : nat :=
  match fuel with
  | O => j
  | S fuel' =>
      if Nat.ltb j (List.length parts - 2) then
        if is_modifier (nth j parts EmptyString)
        then skip_modifiers fuel' parts (S j)
        else j
      else j
  end.

(** The body of the loop over [paramPairs]. *)
Definition extractParameters_pair (parameters : list Parameter_) (pair : string)
  : list Parameter_ :=
  let parts := Strings.Fields (Strings.TrimSpace pair) in
  if Nat.leb 2 (List.length parts) then
    let j := skip_modifiers (List.length parts) parts 0 in
    parameters ++ [ {| Type_ := nth j parts EmptyString;
                       Name := nth (j + 1) parts EmptyString |} ]
  else parameters.

Definition extractParameters (paramString : string) : list Parameter_ :=
  if String.eqb paramString EmptyString then []
  else fold_left extractParameters_pair (Strings.Split paramString ",") [].

(** The earlier revision of [extractParameters] ([utils/parsers.go] before
    the modifiers were handled): a piece gives a parameter when it has
    exactly two tokens. *)
Module Earlier.

Definition extractParameters_pair (parameters : list Parameter_) (pair : string)
  : list Parameter_ :=
  let parts := Strings.Fields (Strings.TrimSpace pair) in
  if Nat.eqb (List.length parts) 2 then
    parameters ++ [ {| Type_ := nth 0 parts EmptyString;
                       Name := nth 1 parts EmptyString |} ]
  else parameters.

Definition extractParameters (paramString : string) : list Parameter_ :=
  if String.eqb paramString EmptyString then []
  else fold_left extractParameters_pair (Strings.Split paramString ",") [].

End Earlier.

Fixpoint areParametersValid (parameters : list Parameter_) : bool :=
  match parameters with
  | [] => true
  | param :: rest =>
      match allowedTypes (Type_ param) with
      | None => false
      | Some _ => areParametersValid rest
      end
  end.

(** The brace counter of [removePrivateClasses]:
    [for endIdx < len(input) && count > 0]; [rest] is [input[endIdx:]].
    Returns the final [endIdx] and [count]. *)
Fixpoint match_brace (rest : string) (endIdx count : nat) : nat * nat :=
  match count, rest with
  | O, _ => (endIdx, count)
  | _, EmptyString => (endIdx, count)
  | S below, String ch t =>
      if Ascii.eqb ch "{"%char then match_brace t (S endIdx) (S count)
      else if Ascii.eqb ch "}"%char then match_brace t (S endIdx) below
      else match_brace t (S endIdx) count
  end.

(** One turn of the loop of [removePrivateClasses]: either the loop is left
    by one of its [break]s, or it goes on with a shorter input. *)
Inductive turn : Type :=
| Break
| Continue (input' : string).

Definition removePrivateClasses_turn (input : string) : turn :=
  match Strings.Index input "private class " with
  | None => Break
  | Some startIdx =>
      match Strings.Index (Strings.drop startIdx input) "{" with
      | None => Break
      | Some braceIdx0 =>
          let braceIdx := braceIdx0 + startIdx in
          let '(endIdx, count) :=
            match_brace (Strings.drop (braceIdx + 1) input) (braceIdx + 1) 1 in
          if Nat.eqb count 0
          then Continue (Strings.take startIdx input ++ Strings.drop endIdx input)
          else Break
      end
  end.

(** The loop, with the number of turns it may take. *)
Fixpoint removePrivateClasses_loop (fuel : nat) (input : string) : option string :=
  match fuel with
  | O => None
  | S fuel' =>
      match removePrivateClasses_turn input with
      | Break => Some input
      | Continue input' => removePrivateClasses_loop fuel' input'
      end
  end.

(** [removePrivateClasses]: every turn that goes on shortens the input, so
    [len(input)+1] turns are enough (lemma [removePrivateClasses_loop_total]). *)
Definition removePrivateClasses (input : string) : string :=
  match removePrivateClasses_loop (S (String.length input)) input with
  | Some out => out
  | None => input
  end.

(** The body of the loop over [methodMatches]: the return type gate, the
    parameters, the parameter gate, then the record is appended. *)
Definition ScanForSSOs_method (declaredMethods : list PublicMethod)
  (match_ : list string) : list PublicMethod :=
  if Nat.leb 4 (List.length match_) then
    match allowedTypes (nth 1 match_ EmptyString) with
    | None => declaredMethods
    | Some _ =>
        let parameters := extractParameters (nth 3 match_ EmptyString) in
        if negb (areParametersValid parameters) then declaredMethods
        else declaredMethods ++
               [ {| AccessModifier := "public";
                    ReturnType := nth 1 match_ EmptyString;
                    MethodName := nth 2 match_ EmptyString;
                    Parameters_ := parameters |} ]
    end
  else declaredMethods.

(** The body of the loop over [fieldMatches]. *)
Definition ScanForSSOs_field (declaredFields : list PublicField)
  (match_ : list string) : list PublicField :=
  if Nat.leb 3 (List.length match_) then
    declaredFields ++ [ {| FieldType := nth 1 match_ EmptyString;
                           FieldName := nth 2 match_ EmptyString |} ]
  else declaredFields.

(** The methods and the fields read from the text of a class, from the
    private-class stripper on. *)
Definition declaredMethods_of (classContent : string) : list PublicMethod :=
  fold_left ScanForSSOs_method
    (Regexp.FindAllStringSubmatch Patterns.methodPattern 3
       (removePrivateClasses classContent)) [].

Definition declaredFields_of (classContent : string) : list PublicField :=
  fold_left ScanForSSOs_field
    (Regexp.FindAllStringSubmatch Patterns.publicFieldPattern 2
       (removePrivateClasses classContent)) [].

(** [strings.Join(strings.Fields(string(content)), " ")] *)
Definition normalize (content : string) : string :=
  Strings.Join (Strings.Fields content) " ".

(** What the walk function does with a readable [.java] file: [None] when no
    unit is appended to [matchingFiles]. The progress line printed with
    [fmt.Printf] is left out. *)
Definition ScanForSSOs_file (path name content : string) : option ServerSideObject :=
  let normalizedContent := normalize content in
  if Regexp.MatchString Patterns.classPattern normalizedContent then
    let className :=
      Strings.take (String.length name - String.length (Filepath.Ext name)) name in
    let packageLine :=
      match Regexp.FindStringSubmatch Patterns.packagePattern 1 normalizedContent with
      | Some packageMatch =>
          if Nat.ltb 1 (List.length packageMatch)
          then nth 1 packageMatch EmptyString else EmptyString
      | None => EmptyString
      end in
    match Strings.Index normalizedContent
            ("class " ++ className ++ " extends ServerSideObject"),
          Strings.LastIndex normalizedContent "}" with
    | Some classStart, Some classEnd =>
        if Nat.leb classEnd classStart then None
        else
          let classContent := Strings.slice normalizedContent classStart (classEnd + 1) in
          Some {| FilePath := path;
                  ClassName := className;
                  PackageLine := packageLine;
                  DeclaredMethods := declaredMethods_of classContent ++ SuperclassMethods;
                  DeclaredFields := declaredFields_of classContent |}
    | _, _ => None
    end
  else None.

(** What [filepath.Walk] hands to the walk function, in the order of the
    traversal: an error, a directory, or a file with its content ([None]
    when [os.Open] or [io.ReadAll] fails). *)
Inductive visit : Type :=
| VisitError (path : string)
| VisitDir (path name : string)
| VisitFile (path name : string) (content : option string).

(** A Go [error]: the path at which the traversal failed. *)
Inductive error : Type :=
| PathError (path : string).

(** The walk function: the units so far, then the units after the visit, or
    the error that stops the walk. *)
Definition ScanForSSOs_visit (matchingFiles : ServerSideObjectList) (v : visit)
  : ServerSideObjectList * option error :=
  match v with
  | VisitError path => (matchingFiles, Some (PathError path))
  | VisitDir _ _ => (matchingFiles, None)
  | VisitFile path name content =>
      if Strings.HasSuffix name ".java" then
        match content with
        | None => (matchingFiles, Some (PathError path))
        | Some text =>
            match ScanForSSOs_file path name text with
            | Some sso => ((matchingFiles ++ [sso])%list, None)
            | None => (matchingFiles, None)
            end
        end
      else (matchingFiles, None)
  end.

(** [filepath.Walk]: the visits in order, stopped by the first error. *)
Fixpoint Walk (visits : list visit) (matchingFiles : ServerSideObjectList)
  : ServerSideObjectList * option error :=
  match visits with
  | [] => (matchingFiles, None)
  | v :: rest =>
      match ScanForSSOs_visit matchingFiles v with
      | (matchingFiles', None) => Walk rest matchingFiles'
      | stopped => stopped
      end
  end.

(** The contract of [sort.Sort] for [ServerSideObjectList]: the result holds
    the same elements and no element is [Less] than one before it. The
    algorithm is the library's and is not stable. *)
Definition ascending (a b : ServerSideObject) : Prop := Less b a = false.

Definition sort_contract (sort_Sort : ServerSideObjectList -> ServerSideObjectList)
  : Prop :=
  forall l, Permutation l (sort_Sort l) /\ Sorted ascending (sort_Sort l).

(** [ScanForSSOs], for a traversal of the directory. *)
Definition ScanForSSOs (sort_Sort : ServerSideObjectList -> ServerSideObjectList)
  (visits : list visit) : ServerSideObjectList * option error :=
  let '(matchingFiles, err) := Walk visits [] in
  (sort_Sort matchingFiles, err).

(** ** The stub writer ([WriteSimplifiedSSO]) *)

(** The line feed of the Go literals. *)
Definition nl : string := String "010"%char EmptyString.

Module Writer.

(** The file being written: the number of system calls made so far and
    the bytes in the file. *)
Record file : Type := {
  calls : nat;
  bytes : string
}.

(** A step that may fail: the value or the error, and the file after it. *)
Definition io (A : Type) : Type := file -> (A + error) * file.

Definition ret {A : Type} (a : A) : io A := fun f => (inl a, f).

Definition bind {A B : Type} (m : io A) (k : A -> io B) : io B :=
  fun f =>
    match m f with
    | (inl a, f') => k a f'
    | (inr e, f') => (inr e, f')
    end.

Notation "m ;; k" := (bind m (fun _ => k)) (at level 61, right associativity).

(** What the system does at the n-th call of a run: [None] when the call
    succeeds, otherwise the error it returns together with the number of
    bytes that a write had put into the file when it failed ([os.File.Write]
    returns the count of the bytes written along with the error; the count
    is not read for the other calls). *)
Definition oracle : Type := nat -> option (error * nat).

Section Calls.
Variable fails : oracle.

(** A system call: [effect] is what it does to the bytes of the file when
    it succeeds, [failed n] what it has done to them when it fails. The
    error is the one the system returns; the writer hands it on as it is. *)
Definition syscall (effect : string -> string) (failed : nat -> string -> string)
  : io unit :=
  fun f =>
    match fails (calls f) with
    | Some (err, n) =>
        (inr err, {| calls := S (calls f); bytes := failed n (bytes f) |})
    | None => (inl tt, {| calls := S (calls f); bytes := effect (bytes f) |})
    end.

(** [os.MkdirAll(dir, os.ModePerm)] does not touch the file. *)
Definition MkdirAll (dir : string) : io unit :=
  syscall (fun b => b) (fun _ b => b).

(** [os.Create(path)] truncates the file when it opens it and leaves it as
    it was when it cannot open it. *)
Definition Create (path : string) : io unit :=
  syscall (fun _ => EmptyString) (fun _ b => b).

(** [file.WriteString(s)] on the file opened at [path]: [s] is appended; a
    write that fails has appended the first [n] bytes of [s]. *)
Definition WriteString (path s : string) : io unit :=
  syscall (fun b => b ++ s) (fun n b => b ++ Strings.take n s).

(** The loop over [method.Parameters], [i] being the index. *)
Fixpoint signature_parameters (i : nat) (parameters : list Parameter_)
  (methodSignature : string) : string :=
  match parameters with
  | [] => methodSignature
  | param :: rest =>
      let methodSignature :=
        if Nat.ltb 0 i then methodSignature ++ ", " else methodSignature in
      signature_parameters (S i) rest
        (methodSignature ++ Type_ param ++ " " ++ Name param)
  end.

(** The text written for one method. *)
Definition methodStub (method : PublicMethod) : string :=
  let methodSignature :=
    "    public " ++ ReturnType method ++ " " ++ MethodName method ++ "(" in
  let methodSignature := signature_parameters 0 (Parameters_ method) methodSignature in
  let methodSignature := methodSignature ++ ") {" ++ nl in
  let methodSignature :=
    if negb (String.eqb (ReturnType method) "void") then
      let methodBody := "        return " in
      let methodBody :=
        match allowedTypes (ReturnType method) with
        | Some defaultValue => methodBody ++ defaultValue ++ ";"
        | None => methodBody ++ "null;"
        end in
      methodSignature ++ methodBody ++ nl
    else methodSignature in
  methodSignature ++ "    }" ++ nl ++ nl.

Fixpoint write_methods (path : string) (methods : list PublicMethod) : io unit :=
  match methods with
  | [] => ret tt
  | method :: rest => WriteString path (methodStub method) ;; write_methods path rest
  end.

(** [WriteSimplifiedSSO]: every error is returned as the call gave it, and
    the calls after it are not made. The deferred [file.Close] is not a call
    of the model: it writes no byte and its error is dropped. *)
Definition WriteSimplifiedSSO (outputDir : string) (sso : ServerSideObject)
  : io unit :=
  MkdirAll outputDir ;;
  let outputFilePath := Filepath.Join outputDir (ClassName sso ++ ".java") in
  Create outputFilePath ;;
  WriteString outputFilePath ("package " ++ PackageLine sso ++ ";" ++ nl ++ nl) ;;
  WriteString outputFilePath ("public class " ++ ClassName sso ++ " {" ++ nl ++ nl) ;;
  WriteString outputFilePath ("    public " ++ ClassName sso ++ "() {}" ++ nl ++ nl) ;;
  write_methods outputFilePath (DeclaredMethods sso) ;;
  WriteString outputFilePath ("}" ++ nl) ;;
  ret tt.
End Calls.

(** A run in which no system call fails, from a file not yet created. *)
Definition never : oracle := fun _ => None.
Definition fresh : file := {| calls := 0; bytes := EmptyString |}.

(** The content of the stub file after such a run. *)
Definition stub (sso : ServerSideObject) : string :=
  bytes (snd (WriteSimplifiedSSO never "out" sso fresh)).

End Writer.

(** ** A sample source file *)

Definition java_Foo : string :=
  "package com.example;

   public class Foo extends ServerSideObject {
       public int count;
       public int getX() { return x; }
       public boolean isY() { return y; }
       public void reset() { x = 0; }
       public String describe(final int depth, @NotNull String prefix) { return prefix; }
       public int lookup(Foo other) { return 1; }
       private class Helper {
           public int secret() { if (x > 0) { return 1; } return 2; }
       }
   }".

(** ** The library models on small inputs *)

Example Fields_collapses_white_space :
  Strings.Fields ("  public   int" ++ nl ++ "getX ( ) ") = ["public"; "int"; "getX"; "("; ")"].
Proof. reflexivity. Qed.

Example Split_keeps_empty_pieces :
  Strings.Split "int a,,String b," "," = ["int a"; ""; "String b"; ""].
Proof. reflexivity. Qed.

Example TrimSpace_both_ends : Strings.TrimSpace "  final int  a " = "final int  a".
Proof. reflexivity. Qed.

Example LastIndex_of_brace : Strings.LastIndex "a { b } c } d" "}" = Some 10.
Proof. reflexivity. Qed.

Example Ext_of_file_name : Filepath.Ext "My.Class.java" = ".java".
Proof. reflexivity. Qed.

Example Join_cleans_the_path :
  Filepath.Join "out" "Foo.java" = "out/Foo.java"
  /\ Filepath.Join "out/" "Foo.java" = "out/Foo.java"
  /\ Filepath.Join "./gen//stubs/." "Foo.java" = "gen/stubs/Foo.java"
  /\ Filepath.Join "gen/tmp/.." "Foo.java" = "gen/Foo.java"
  /\ Filepath.Join "../.." "Foo.java" = "../../Foo.java"
  /\ Filepath.Join "/../srv" "Foo.java" = "/srv/Foo.java"
  /\ Filepath.Join "" "Foo.java" = "Foo.java"
  /\ Filepath.Join "." "Foo.java" = "Foo.java"
  /\ Filepath.Join "/" "Foo.java" = "/Foo.java".
Proof. repeat split; vm_compute; reflexivity. Qed.

Example method_match_with_spaces :
  Regexp.FindAllStringSubmatch Patterns.methodPattern 3
    "public int[] sum (int a, int b) { } public static void main(String[] args)"
  = [ ["public int[] sum (int a, int b)"; "int[]"; "sum"; "int a, int b"] ].
Proof. vm_compute. reflexivity. Qed.

Example field_match_with_modifiers :
  Regexp.FindAllStringSubmatch Patterns.publicFieldPattern 2
    "public static final int MAX = 10; public String name; public int f() { return 1; }"
  = [ ["public static final int MAX = 10;"; "int"; "MAX"];
      ["public String name;"; "String"; "name"] ].
Proof. vm_compute. reflexivity. Qed.

Example package_match :
  Regexp.FindStringSubmatch Patterns.packagePattern 1 "/* x */ package com.example.sso; class A"
  = Some ["package com.example.sso;"; "com.example.sso"].
Proof. vm_compute. reflexivity. Qed.

Example extractParameters_modifiers :
  extractParameters "int a, final @A String b , x, @B final y z w"
  = [ {| Type_ := "int"; Name := "a" |};
      {| Type_ := "String"; Name := "b" |};
      {| Type_ := "y"; Name := "z" |} ].
Proof. vm_compute. reflexivity. Qed.

Example removePrivateClasses_unmatched :
  removePrivateClasses "class A { private class B { int x; } private class C { { }"
  = "class A {  private class C { { }".
Proof. vm_compute. reflexivity. Qed.

(** ** Facts about strings *)

Module StringFacts.
Import Strings.

Lemma append_assoc (a b c : string) : (a ++ b) ++ c = a ++ (b ++ c).
Proof. induction a as [|x a IH]; simpl; [reflexivity | now rewrite IH]. Qed.

Lemma append_empty_r (a : string) : a ++ "" = a.
Proof. induction a as [|x a IH]; simpl; [reflexivity | now rewrite IH]. Qed.

Lemma length_append (a b : string) :
  String.length (a ++ b) = String.length a + String.length b.
Proof. induction a as [|x a IH]; simpl; [reflexivity | now rewrite IH]. Qed.

Lemma take_append (a b : string) : take (String.length a) (a ++ b) = a.
Proof. induction a as [|x a IH]; simpl; [now destruct b | now rewrite IH]. Qed.

Lemma drop_append (a b : string) : drop (String.length a) (a ++ b) = b.
Proof. induction a as [|x a IH]; simpl; [reflexivity | exact IH]. Qed.

Lemma drop_plus (n m : nat) (s : string) : drop (n + m) s = drop m (drop n s).
Proof.
  revert s; induction n as [|n IH]; intros s; simpl; [reflexivity|].
  destruct s; [now destruct m | apply IH].
Qed.

Lemma length_take (n : nat) (s : string) :
  String.length (take n s) = Nat.min n (String.length s).
Proof.
  revert s; induction n as [|n IH]; intros [|c s]; simpl; auto.
Qed.

Lemma length_drop (n : nat) (s : string) :
  String.length (drop n s) = String.length s - n.
Proof.
  revert s; induction n as [|n IH]; intros [|c s]; simpl; auto.
Qed.

Lemma take_drop (n : nat) (s : string) : take n s ++ drop n s = s.
Proof.
  revert s; induction n as [|n IH]; intros [|c s]; simpl; auto.
  now rewrite IH.
Qed.

Lemma HasPrefix_append (p s : string) : HasPrefix (p ++ s) p = true.
Proof.
  induction p as [|x p IH]; simpl; [reflexivity|].
  now rewrite Ascii.eqb_refl, IH.
Qed.

Lemma HasPrefix_inv (s p : string) :
  HasPrefix s p = true -> s = p ++ drop (String.length p) s.
Proof.
  revert s; induction p as [|x p IH]; intros s H; simpl in *; [reflexivity|].
  destruct s as [|y s]; [discriminate|].
  apply andb_true_iff in H as [Hc Hp].
  apply Ascii.eqb_eq in Hc; subst y.
  simpl. f_equal. now apply IH.
Qed.

Lemma HasPrefix_length (s p : string) :
  HasPrefix s p = true -> String.length p <= String.length s.
Proof.
  intros H. rewrite (HasPrefix_inv s p H), length_append. lia.
Qed.

(** An occurrence found by [Index] lies inside the string and is the text
    searched for. *)
Lemma Index_Some (s sub : string) (i : nat) :
  Index s sub = Some i ->
  HasPrefix (drop i s) sub = true /\ i + String.length sub <= String.length s.
Proof.
  revert i; induction s as [|c s IH]; intros i; simpl.
  - destruct sub; simpl; [|discriminate].
    intros [= <-]. split; [reflexivity | simpl; lia].
  - destruct (HasPrefix (String c s) sub) eqn:Hp.
    + intros [= <-]. simpl. split; [exact Hp|].
      apply HasPrefix_length in Hp. simpl in Hp. lia.
    + destruct (Index s sub) as [j|] eqn:Hj; simpl; [|discriminate].
      intros [= <-]. destruct (IH j eq_refl) as [H1 H2].
      simpl. split; [exact H1 | lia].
Qed.

(** [Index] returns the first occurrence: no earlier offset starts one. *)
Lemma Index_first (s sub : string) (i j : nat) :
  Index s sub = Some i -> j < i -> HasPrefix (drop j s) sub = false.
Proof.
  revert i j; induction s as [|c s IH]; intros i j; simpl.
  - destruct (HasPrefix "" sub); [intros [= <-]; lia | discriminate].
  - destruct (HasPrefix (String c s) sub) eqn:Hp; [intros [= <-]; lia|].
    destruct (Index s sub) as [k|] eqn:Hk; simpl; [|discriminate].
    intros [= <-] Hlt. destruct j as [|j]; simpl; [exact Hp|].
    apply (IH k); [reflexivity | lia].
Qed.

(** Without an occurrence, no offset starts one. *)
Lemma Index_None (s sub : string) (j : nat) :
  Index s sub = None -> j <= String.length s -> HasPrefix (drop j s) sub = false.
Proof.
  revert j; induction s as [|c s IH]; intros j; simpl.
  - destruct (HasPrefix "" sub) eqn:Hp; [discriminate|].
    intros _ Hj. now destruct j.
  - destruct (HasPrefix (String c s) sub) eqn:Hp; [discriminate|].
    destruct (Index s sub) eqn:Hk; simpl; [discriminate|].
    intros _ Hj. destruct j as [|j]; simpl; [exact Hp|].
    apply IH; [reflexivity | lia].
Qed.

Lemma HasPrefix_char (c d : ascii) (s : string) :
  HasPrefix (String c s) (String d "") = Ascii.eqb d c.
Proof. simpl. apply andb_true_r. Qed.

Lemma Index_cons (c : ascii) (s sub : string) :
  Index (String c s) sub =
  if HasPrefix (String c s) sub then Some 0 else option_map S (Index s sub).
Proof. reflexivity. Qed.

(** The first opening brace after a text that has none. *)
Lemma Index_brace (a rest : string) :
  Index a "{" = None ->
  Index (a ++ String "{"%char rest) "{" = Some (String.length a).
Proof.
  induction a as [|c a IH].
  - intros _. cbn [append]. rewrite Index_cons, HasPrefix_char.
    now rewrite Ascii.eqb_refl.
  - cbn [append String.length]. rewrite !Index_cons, !HasPrefix_char.
    destruct (Ascii.eqb "{" c); [discriminate|].
    destruct (Index a "{") eqn:Ha; [discriminate|].
    intros _. now rewrite IH.
Qed.

End StringFacts.

(** ** Facts about the matcher *)

Module RegexpFacts.
Import Regexp StringFacts.

(** A successful match hands the continuation a suffix of the input,
    together with the offset of that suffix. *)
Lemma run_consumes {A : Type} (r : regex) :
  forall pos s c (k : @cont A) res,
    run r pos s c k = Some res ->
    exists n c', n <= String.length s
                 /\ k (pos + n) (Strings.drop n s) c' = Some res.
Proof.
  induction r as [|f|l|r1 IH1 r2 IH2|r1 IH1 r2 IH2|r1 IH1|g r1 IH1];
    intros pos s c k res H; cbn [run] in H.
  - exists 0, c. rewrite Nat.add_0_r. split; [lia | exact H].
  - destruct s as [|a t]; [discriminate|].
    destruct (f a); [|discriminate].
    exists 1, c. rewrite Nat.add_1_r. split; [simpl; lia | exact H].
  - destruct (Strings.HasPrefix s l) eqn:Hp; [|discriminate].
    exists (String.length l), c. split; [now apply HasPrefix_length | exact H].
  - apply IH1 in H as (n1 & c1 & Hn1 & H).
    apply IH2 in H as (n2 & c2 & Hn2 & H).
    rewrite length_drop in Hn2.
    exists (n1 + n2), c2. rewrite drop_plus, Nat.add_assoc.
    split; [lia | exact H].
  - unfold orelse in H. destruct (run r1 pos s c k) eqn:H1.
    + injection H as <-. now apply IH1 in H1.
    + now apply IH2 in H.
  - revert H. generalize (String.length s) at 1. intros fuel.
    revert pos s c. induction fuel as [|fuel IHf]; intros pos s c H;
      cbn [star_loop] in H.
    + exists 0, c. rewrite Nat.add_0_r. split; [lia | exact H].
    + unfold orelse in H.
      match type of H with
      | match ?x with _ => _ end = _ => destruct x eqn:Hx
      end.
      * injection H as <-.
        apply IH1 in Hx as (n1 & c1 & Hn1 & Hx).
        destruct (Nat.ltb pos (pos + n1)); [|discriminate].
        apply IHf in Hx as (n2 & c2 & Hn2 & Hx).
        rewrite length_drop in Hn2.
        exists (n1 + n2), c2. rewrite drop_plus, Nat.add_assoc.
        split; [lia | exact Hx].
      * exists 0, c. rewrite Nat.add_0_r. split; [lia | exact H].
  - apply IH1 in H as (n & c' & Hn & H).
    eexists n, _. split; [exact Hn | exact H].
Qed.

(** The result of a match depends on the continuation only through what it
    does on the suffixes of the input. *)
Lemma run_ext {A : Type} (r : regex) :
  forall pos s c (k1 k2 : @cont A),
    (forall n c', n <= String.length s ->
                  k1 (pos + n) (Strings.drop n s) c' = k2 (pos + n) (Strings.drop n s) c') ->
    run r pos s c k1 = run r pos s c k2.
Proof.
  induction r as [|f|l|r1 IH1 r2 IH2|r1 IH1 r2 IH2|r1 IH1|g r1 IH1];
    intros pos s c k1 k2 H; cbn [run].
  - specialize (H 0 c (Nat.le_0_l _)). now rewrite Nat.add_0_r in H.
  - destruct s as [|a t]; [reflexivity|].
    destruct (f a); [|reflexivity].
    specialize (H 1 c). rewrite Nat.add_1_r in H. apply H. simpl. lia.
  - destruct (Strings.HasPrefix s l) eqn:Hp; [|reflexivity].
    apply H. now apply HasPrefix_length.
  - apply IH1. intros n1 c1 Hn1. apply IH2. intros n2 c2 Hn2.
    rewrite length_drop in Hn2.
    rewrite <- drop_plus, <- Nat.add_assoc. apply H. lia.
  - unfold orelse. rewrite (IH1 pos s c k1 k2 H), (IH2 pos s c k1 k2 H). reflexivity.
  - generalize (String.length s). intros fuel.
    revert pos s c H. induction fuel as [|fuel IHf]; intros pos s c H;
      cbn [star_loop].
    + specialize (H 0 c (Nat.le_0_l _)). now rewrite Nat.add_0_r in H.
    + unfold orelse.
      rewrite (IH1 pos s c
                 (fun pos' s' c' =>
                    if Nat.ltb pos pos' then star_loop (run r1) k1 fuel pos' s' c' else None)
                 (fun pos' s' c' =>
                    if Nat.ltb pos pos' then star_loop (run r1) k2 fuel pos' s' c' else None)).
      * pose proof (H 0 c (Nat.le_0_l _)) as H0. rewrite Nat.add_0_r in H0.
        cbn [Strings.drop] in H0. rewrite H0. reflexivity.
      * intros n1 c1 Hn1. destruct (Nat.ltb pos (pos + n1)); [|reflexivity].
        apply IHf. intros n2 c2 Hn2. rewrite length_drop in Hn2.
        rewrite <- drop_plus, <- Nat.add_assoc. apply H. lia.
  - apply IH1. intros n c' Hn. now rewrite H.
Qed.

(** The fuel of the star loop: any fuel that is at least the length of the
    input gives the same result. *)
Lemma star_loop_fuel {A : Type} (r : regex) (k : @cont A) (fuel : nat) :
  forall fuel' pos s c,
    String.length s <= fuel -> String.length s <= fuel' ->
    star_loop (run r) k fuel pos s c = star_loop (run r) k fuel' pos s c.
Proof.
  assert (Hempty : forall fuel pos c,
             star_loop (run r) k fuel pos "" c = k pos "" c).
  { intros [|n] pos c; cbn [star_loop]; [reflexivity|].
    unfold orelse.
    match goal with
    | |- match ?x with _ => _ end = _ => destruct x eqn:Hx
    end; [|reflexivity].
    apply run_consumes in Hx as (j & c' & Hj & Hx). simpl in Hj.
    assert (j = 0) by lia. subst j.
    rewrite Nat.add_0_r, Nat.ltb_irrefl in Hx. discriminate. }
  induction fuel as [|fuel IH]; intros fuel' pos s c Hf Hf'.
  - destruct s; [|simpl in Hf; lia]. now rewrite !Hempty.
  - destruct fuel' as [|fuel'].
    + destruct s; [|simpl in Hf'; lia]. now rewrite !Hempty.
    + cbn [star_loop]. unfold orelse.
      rewrite (run_ext r pos s c
                 (fun pos' s' c' =>
                    if Nat.ltb pos pos' then star_loop (run r) k fuel pos' s' c' else None)
                 (fun pos' s' c' =>
                    if Nat.ltb pos pos' then star_loop (run r) k fuel' pos' s' c' else None));
        [reflexivity|].
      intros j c' Hj. destruct (Nat.ltb_spec pos (pos + j)); [|reflexivity].
      apply IH; rewrite length_drop; lia.
Qed.

Lemma Star_fuel {A : Type} (r : regex) (pos : nat) (s : string) (c : captures)
  (k : @cont A) (fuel : nat) :
  String.length s <= fuel ->
  run (Star r) pos s c k = star_loop (run r) k fuel pos s c.
Proof. intros H. cbn [run]. apply star_loop_fuel; [lia | exact H]. Qed.

(** A match found from offset [pos] starts and ends at or after it, and
    inside the text. *)
Lemma search_bounds (r : regex) (s : string) :
  forall pos b e c,
    search r pos s = Some (b, e, c) ->
    pos <= b /\ b <= e /\ e <= pos + String.length s.
Proof.
  induction s as [|a t IH]; intros pos b e c H; cbn [search] in H.
  - destruct (run r pos "" [] _) as [m|] eqn:Hr; [|discriminate].
    injection H as ->.
    apply run_consumes in Hr as (n & c' & Hn & Hr).
    injection Hr as <- <- _. simpl in *. lia.
  - destruct (run r pos (String a t) [] _) as [m|] eqn:Hr.
    + injection H as ->.
      apply run_consumes in Hr as (n & c' & Hn & Hr).
      injection Hr as <- <- _. simpl in *. lia.
    + apply IH in H. simpl. lia.
Qed.

(** The loop over the matches ends by itself: once the fuel exceeds the
    number of offsets left, more fuel changes nothing. *)
Lemma all_from_fuel (r : regex) (ngroups : nat) (text : string) (fuel : nat) :
  forall fuel' pos prevEnd,
    String.length text + 1 - pos < fuel ->
    String.length text + 1 - pos < fuel' ->
    all_from fuel r ngroups text pos prevEnd
    = all_from fuel' r ngroups text pos prevEnd.
Proof.
  induction fuel as [|fuel IH]; intros fuel' pos prevEnd Hf Hf'; [lia|].
  destruct fuel' as [|fuel']; [lia|].
  cbn [all_from].
  destruct (Nat.ltb_spec (String.length text) pos) as [|Hpos]; [reflexivity|].
  destruct (search r pos (Strings.drop pos text)) as [[[b e] c]|] eqn:Hs;
    [|reflexivity].
  apply search_bounds in Hs as (Hb & Hbe & He).
  rewrite length_drop in He.
  destruct (Nat.eqb_spec e pos) as [->|Hne].
  - rewrite (IH fuel' (S pos) (Some pos)) by lia. reflexivity.
  - rewrite (IH fuel' e (Some e)) by lia. reflexivity.
Qed.

(** [FindAllStringSubmatch] is the loop with any fuel that large. *)
Lemma FindAllStringSubmatch_fuel (r : regex) (ngroups : nat) (text : string)
  (fuel : nat) :
  String.length text + 1 < fuel ->
  all_from fuel r ngroups text 0 None = FindAllStringSubmatch r ngroups text.
Proof.
  intros H. unfold FindAllStringSubmatch. apply all_from_fuel; lia.
Qed.

(** Every list of submatches has the whole match and one text per group. *)
Lemma all_from_length (r : regex) (ngroups : nat) (text : string) (fuel : nat) :
  forall pos prevEnd m,
    In m (all_from fuel r ngroups text pos prevEnd) ->
    List.length m = S ngroups.
Proof.
  induction fuel as [|fuel IH]; intros pos prevEnd m; cbn [all_from]; [contradiction|].
  destruct (Nat.ltb (String.length text) pos); [contradiction|].
  destruct (search r pos (Strings.drop pos text)) as [[[b e] c]|]; [|contradiction].
  assert (Hsub : List.length (submatches text ngroups (b, e, c)) = S ngroups)
    by (simpl; now rewrite length_map, length_seq).
  destruct (Nat.eqb e pos).
  - destruct prevEnd as [p|]; [destruct (Nat.eqb b p)|]; simpl;
      intros H; try (destruct H as [<- | H]; [exact Hsub|]); eapply IH, H.
  - simpl. intros [<- | H]; [exact Hsub | eapply IH, H].
Qed.

End RegexpFacts.

(** ** The private-class stripper *)

Module Stripper.
Import Strings StringFacts.

(** The run of the loop as a relation: [removes input out] when the loop,
    started on [input], reaches [out] by turns that each take one private
    class out. *)
Inductive removes : string -> string -> Prop :=
| removes_none (input : string) : removes input input
| removes_turn (input input' out : string) :
    removePrivateClasses_turn input = Continue input' ->
    removes input' out ->
    removes input out.

(** The body of a class, read from the nesting depth [count]: the depth
    after it, or [None] when a closing brace inside it returns to depth
    zero. *)
Fixpoint depth_after (body : string) (count : nat) : option nat :=
  match body with
  | EmptyString => Some count
  | String ch t =>
      if Ascii.eqb ch "{"%char then depth_after t (S count)
      else if Ascii.eqb ch "}"%char then
        match count with
        | S (S below) => depth_after t (S below)
        | _ => None
        end
      else depth_after t count
  end.

Lemma match_brace_zero (rest : string) (e : nat) : match_brace rest e 0 = (e, 0).
Proof. now destruct rest. Qed.

(** The counter stops inside the string, and stops with a count that is
    not zero at the end of the string only. *)
Lemma match_brace_bounds (rest : string) :
  forall e c e' c',
    match_brace rest e c = (e', c') ->
    e <= e' <= e + String.length rest
    /\ (c' <> 0 -> e' = e + String.length rest)
    /\ (c <> 0 -> c' = 0 -> e < e').
Proof.
  induction rest as [|ch t IH]; intros e c e' c' H.
  - destruct c; simpl in H; injection H as <- <-; simpl; lia.
  - destruct c as [|below]; [simpl in H; injection H as <- <-; simpl; lia|].
    cbn [match_brace] in H. cbn [String.length].
    destruct (Ascii.eqb ch "{"); [|destruct (Ascii.eqb ch "}")];
      apply IH in H; lia.
Qed.

Lemma match_brace_body (body rest : string) :
  forall e c c',
    depth_after body c = Some c' -> c <> 0 ->
    match_brace (body ++ rest) e c = match_brace rest (e + String.length body) c'.
Proof.
  induction body as [|ch t IH]; intros e c c' H Hc.
  - simpl in H. injection H as <-. simpl. now rewrite Nat.add_0_r.
  - destruct c as [|below]; [contradiction|].
    cbn [append match_brace depth_after String.length] in *.
    replace (e + S (String.length t)) with (S e + String.length t) by lia.
    destruct (Ascii.eqb ch "{"); [now apply IH|].
    destruct (Ascii.eqb ch "}"); [|now apply IH].
    destruct below as [|below]; [discriminate|]. now apply IH.
Qed.

(** A turn that goes on returns a shorter text. *)
Lemma turn_shorter (input input' : string) :
  removePrivateClasses_turn input = Continue input' ->
  String.length input' < String.length input.
Proof.
  unfold removePrivateClasses_turn.
  destruct (Index input "private class ") as [startIdx|] eqn:Hs; [|discriminate].
  destruct (Index (drop startIdx input) "{") as [b|] eqn:Hb; [|discriminate].
  destruct (match_brace _ _ _) as [endIdx count] eqn:Hm.
  destruct (Nat.eqb_spec count 0) as [->|]; [|discriminate].
  intros [= <-].
  apply Index_Some in Hs as [_ Hs]. apply Index_Some in Hb as [_ Hb].
  apply match_brace_bounds in Hm as (He & _ & Hlt).
  rewrite length_drop in He, Hb. simpl in Hs, Hb.
  rewrite length_append, length_take, length_drop.
  specialize (Hlt ltac:(lia) eq_refl). lia.
Qed.

Lemma loop_total (fuel : nat) :
  forall input, String.length input < fuel ->
    exists out, removePrivateClasses_loop fuel input = Some out.
Proof.
  induction fuel as [|fuel IH]; intros input Hlen; [lia|].
  simpl. destruct (removePrivateClasses_turn input) as [|input'] eqn:Ht.
  - now exists input.
  - apply IH. apply turn_shorter in Ht. lia.
Qed.

Lemma loop_more_fuel (fuel : nat) :
  forall fuel' input out,
    removePrivateClasses_loop fuel input = Some out -> fuel <= fuel' ->
    removePrivateClasses_loop fuel' input = Some out.
Proof.
  induction fuel as [|fuel IH]; intros fuel' input out H Hle; [discriminate|].
  destruct fuel' as [|fuel']; [lia|].
  simpl in *. destruct (removePrivateClasses_turn input); [exact H|].
  apply (IH fuel'); [exact H | lia].
Qed.

Lemma loop_sound (fuel : nat) :
  forall input out,
    removePrivateClasses_loop fuel input = Some out ->
    removes input out /\ removePrivateClasses_turn out = Break.
Proof.
  induction fuel as [|fuel IH]; intros input out H; [discriminate|].
  simpl in H. destruct (removePrivateClasses_turn input) as [|input'] eqn:Ht.
  - injection H as <-. split; [constructor | exact Ht].
  - destruct (IH _ _ H) as [Hr Hb]. split; [|exact Hb].
    econstructor; eassumption.
Qed.

Lemma removePrivateClasses_loop_total (input : string) :
  removePrivateClasses_loop (S (String.length input)) input
  = Some (removePrivateClasses input).
Proof.
  unfold removePrivateClasses.
  destruct (loop_total (S (String.length input)) input) as [out ->]; [lia|].
  reflexivity.
Qed.

(** The loop, turn by turn. *)
Lemma removePrivateClasses_unfold (input : string) :
  removePrivateClasses input =
  match removePrivateClasses_turn input with
  | Break => input
  | Continue input' => removePrivateClasses input'
  end.
Proof.
  pose proof (removePrivateClasses_loop_total input) as H.
  cbn [removePrivateClasses_loop] in H.
  destruct (removePrivateClasses_turn input) as [|input'] eqn:Ht.
  - now injection H.
  - pose proof (removePrivateClasses_loop_total input') as H'.
    apply turn_shorter in Ht.
    apply (loop_more_fuel _ (String.length input)) in H'; [|lia].
    congruence.
Qed.

Lemma Index_brace_header (hdr : string) :
  Index hdr "{" = None -> Index ("private class " ++ hdr) "{" = None.
Proof. intros H. cbn. now rewrite H. Qed.

(** The turn on a text whose first [private class ] heads a declaration
    with a header free of braces and a body with matched braces: the
    declaration is taken out, from its header through its closing brace. *)
Lemma turn_removes_declaration (pre hdr body post : string) :
  let decl := "private class " ++ hdr ++ "{" ++ body ++ "}" in
  Index (pre ++ decl ++ post) "private class " = Some (String.length pre) ->
  Index hdr "{" = None ->
  depth_after body 1 = Some 1 ->
  removePrivateClasses_turn (pre ++ decl ++ post) = Continue (pre ++ post).
Proof.
  intros decl Hfirst Hhdr Hbody.
  set (head := "private class " ++ hdr).
  assert (Hin : pre ++ decl ++ post
                = (pre ++ head ++ "{") ++ body ++ String "}"%char post).
  { unfold decl, head. rewrite !append_assoc. reflexivity. }
  unfold removePrivateClasses_turn. rewrite Hfirst.
  rewrite drop_append.
  replace (decl ++ post) with (head ++ String "{"%char (body ++ String "}"%char post))
    by (unfold decl, head; rewrite !append_assoc; reflexivity).
  rewrite (Index_brace head) by (apply Index_brace_header, Hhdr).
  assert (Hlen : String.length head + String.length pre + 1
                 = String.length (pre ++ head ++ "{")).
  { rewrite !length_append. simpl. lia. }
  replace (pre ++ head ++ String "{"%char (body ++ String "}"%char post))
    with ((pre ++ head ++ "{") ++ body ++ String "}"%char post)
    by (rewrite !append_assoc; reflexivity).
  rewrite Hlen, drop_append.
  rewrite (match_brace_body body _ _ 1 1 Hbody) by lia.
  cbn [match_brace].
  change (Ascii.eqb "}" "{") with false. change (Ascii.eqb "}" "}") with true.
  cbn iota. rewrite match_brace_zero. cbn [Nat.eqb].
  f_equal. f_equal.
  - rewrite !append_assoc. apply take_append.
  - replace (S (String.length (pre ++ head ++ "{") + String.length body))
      with (String.length (((pre ++ head ++ "{") ++ body) ++ "}"))
      by (rewrite !length_append; simpl; lia).
    replace ((pre ++ head ++ "{") ++ body ++ String "}"%char post)
      with ((((pre ++ head ++ "{") ++ body) ++ "}") ++ post)
      by (rewrite !append_assoc; reflexivity).
    apply drop_append.
Qed.

(** A text in which every [private class ] met by the loop heads such a
    declaration: [nested text out] when taking the declarations out one
    after the other, each the first one left, ends with [out], which has
    none. *)
Inductive nested : string -> string -> Prop :=
| nested_none (text : string) :
    Index text "private class " = None -> nested text text
| nested_declaration (pre hdr body post out : string) :
    Index (pre ++ ("private class " ++ hdr ++ "{" ++ body ++ "}") ++ post)
      "private class " = Some (String.length pre) ->
    Index hdr "{" = None ->
    depth_after body 1 = Some 1 ->
    nested (pre ++ post) out ->
    nested (pre ++ ("private class " ++ hdr ++ "{" ++ body ++ "}") ++ post) out.

(** On such a text the stripper takes out every declaration. *)
Lemma removePrivateClasses_nested (text out : string) :
  nested text out ->
  removePrivateClasses text = out /\ Index out "private class " = None.
Proof.
  induction 1 as [text Hnone | pre hdr body post out Hfirst Hhdr Hbody _ IH].
  - rewrite removePrivateClasses_unfold. unfold removePrivateClasses_turn.
    now rewrite Hnone.
  - rewrite removePrivateClasses_unfold.
    now rewrite (turn_removes_declaration pre hdr body post Hfirst Hhdr Hbody).
Qed.

End Stripper.

(** ** Facts about the scanner *)

Module ScannerFacts.

Definition allowed (type : string) : Prop := allowedTypes type <> None.

Lemma areParametersValid_Forall (parameters : list Parameter_) :
  areParametersValid parameters = true <->
  Forall (fun p => allowed (Type_ p)) parameters.
Proof.
  unfold allowed. induction parameters as [|p ps IH]; simpl.
  - split; auto.
  - destruct (allowedTypes (Type_ p)) eqn:Hp.
    + rewrite IH. split; intros H.
      * constructor; [congruence | exact H].
      * now inversion H.
    + split; [discriminate|]. intros H. inversion H. contradiction.
Qed.

(** The record the loop body builds from a match. *)
Definition method_record (match_ : list string) : PublicMethod :=
  {| AccessModifier := "public";
     ReturnType := nth 1 match_ EmptyString;
     MethodName := nth 2 match_ EmptyString;
     Parameters_ := extractParameters (nth 3 match_ EmptyString) |}.

(** The two gates of the loop body. *)
Definition passes (match_ : list string) : bool :=
  Nat.leb 4 (List.length match_)
  && match allowedTypes (nth 1 match_ EmptyString) with
     | Some _ => true
     | None => false
     end
  && areParametersValid (extractParameters (nth 3 match_ EmptyString)).

Lemma ScanForSSOs_method_cases (acc : list PublicMethod) (match_ : list string) :
  ScanForSSOs_method acc match_ =
  if passes match_ then (acc ++ [method_record match_])%list else acc.
Proof.
  unfold ScanForSSOs_method, passes, method_record.
  destruct (Nat.leb 4 (List.length match_)); simpl; [|reflexivity].
  destruct (allowedTypes (nth 1 match_ "")); simpl; [|reflexivity].
  now destruct (areParametersValid _).
Qed.

(** Each match adds to the list on its own: the loop is a filter. *)
Lemma fold_methods (matches : list (list string)) :
  forall acc,
    fold_left ScanForSSOs_method matches acc
    = (acc ++ map method_record (filter passes matches))%list.
Proof.
  induction matches as [|m ms IH]; intros acc; simpl.
  - now rewrite app_nil_r.
  - rewrite IH, ScanForSSOs_method_cases.
    destruct (passes m); simpl; [|reflexivity].
    now rewrite <- app_assoc.
Qed.

Lemma passes_return_type (match_ : list string) :
  passes match_ = true -> allowed (nth 1 match_ EmptyString).
Proof.
  unfold passes, allowed. intros H.
  apply andb_true_iff in H as [H _]. apply andb_true_iff in H as [_ H].
  destruct (allowedTypes _); [discriminate | discriminate].
Qed.

Lemma passes_parameters (match_ : list string) :
  passes match_ = true ->
  Forall (fun p => allowed (Type_ p)) (extractParameters (nth 3 match_ EmptyString)).
Proof.
  unfold passes. intros H. apply andb_true_iff in H as [_ H].
  now apply areParametersValid_Forall.
Qed.

(** Every method read from a class text passed both gates. *)
Lemma declaredMethods_of_valid (classContent : string) (m : PublicMethod) :
  In m (declaredMethods_of classContent) ->
  allowed (ReturnType m) /\ Forall (fun p => allowed (Type_ p)) (Parameters_ m).
Proof.
  unfold declaredMethods_of. rewrite fold_methods. simpl.
  rewrite in_map_iff. intros (match_ & <- & Hin).
  apply filter_In in Hin as [_ Hp]. simpl.
  split; [now apply passes_return_type | now apply passes_parameters].
Qed.

Lemma SuperclassMethods_valid (m : PublicMethod) :
  In m SuperclassMethods ->
  allowed (ReturnType m) /\ Forall (fun p => allowed (Type_ p)) (Parameters_ m).
Proof.
  intros [<- | []]. split; [discriminate | constructor].
Qed.

(** The method list of a unit: the methods of the class text, then the
    superclass methods. *)
Lemma ScanForSSOs_file_methods (path name content : string) (sso : ServerSideObject) :
  ScanForSSOs_file path name content = Some sso ->
  exists classContent,
    DeclaredMethods sso = (declaredMethods_of classContent ++ SuperclassMethods)%list
    /\ DeclaredFields sso = declaredFields_of classContent.
Proof.
  unfold ScanForSSOs_file.
  destruct (Regexp.MatchString _ _); [|discriminate].
  destruct (Strings.Index _ _) as [classStart|]; [|discriminate].
  destruct (Strings.LastIndex _ _) as [classEnd|]; [|discriminate].
  destruct (Nat.leb classEnd classStart); [discriminate|].
  intros [= <-]. simpl. eexists. split; reflexivity.
Qed.

(** What one visit adds, whatever was collected before. *)
Definition visit_units (v : visit) : ServerSideObjectList := fst (ScanForSSOs_visit [] v).
Definition visit_error (v : visit) : option error := snd (ScanForSSOs_visit [] v).

Lemma ScanForSSOs_visit_app (acc : ServerSideObjectList) (v : visit) :
  ScanForSSOs_visit acc v = ((acc ++ visit_units v)%list, visit_error v).
Proof.
  unfold visit_units, visit_error.
  destruct v as [p|p n|p n [text|]]; simpl; rewrite ?app_nil_r; try reflexivity.
  - destruct (Strings.HasSuffix n ".java"); simpl; rewrite ?app_nil_r; [|reflexivity].
    destruct (ScanForSSOs_file p n text); simpl; rewrite ?app_nil_r; reflexivity.
  - destruct (Strings.HasSuffix n ".java"); simpl; rewrite ?app_nil_r; reflexivity.
Qed.

Lemma visit_units_origin (v : visit) (sso : ServerSideObject) :
  In sso (visit_units v) ->
  exists path name text, ScanForSSOs_file path name text = Some sso.
Proof.
  unfold visit_units.
  destruct v as [p|p n|p n [text|]]; simpl; try contradiction.
  - destruct (Strings.HasSuffix n ".java"); simpl; [|contradiction].
    destruct (ScanForSSOs_file p n text) eqn:Hf; simpl; [|contradiction].
    intros [<- | []]. now exists p, n, text.
  - destruct (Strings.HasSuffix n ".java"); simpl; contradiction.
Qed.

(** Every unit the walk collects was built from a file by
    [ScanForSSOs_file]. *)
Lemma Walk_origin (visits : list visit) :
  forall acc sso,
    In sso (fst (Walk visits acc)) ->
    In sso acc \/ exists path name text, ScanForSSOs_file path name text = Some sso.
Proof.
  induction visits as [|v rest IH]; intros acc sso; simpl; [now left|].
  rewrite ScanForSSOs_visit_app.
  destruct (visit_error v); simpl.
  - rewrite in_app_iff. intros [H | H]; [now left|].
    right. eapply visit_units_origin, H.
  - intros H. apply IH in H as [H | H]; [|now right].
    apply in_app_iff in H as [H | H]; [now left|].
    right. eapply visit_units_origin, H.
Qed.

(** A walk that meets no error collects the units of all its visits. *)
Lemma Walk_complete (visits : list visit) :
  forall acc,
    Forall (fun v => visit_error v = None) visits ->
    Walk visits acc = ((acc ++ flat_map visit_units visits)%list, None).
Proof.
  induction visits as [|v rest IH]; intros acc H; simpl.
  - now rewrite app_nil_r.
  - inversion H as [|? ? Hv Hrest]; subst.
    rewrite ScanForSSOs_visit_app, Hv, (IH _ Hrest).
    now rewrite <- app_assoc.
Qed.

Lemma Walk_no_error (visits : list visit) :
  forall acc,
    snd (Walk visits acc) = None ->
    Forall (fun v => visit_error v = None) visits.
Proof.
  induction visits as [|v rest IH]; intros acc H; [constructor|].
  simpl in H. rewrite ScanForSSOs_visit_app in H.
  destruct (visit_error v) eqn:Hv; [discriminate|].
  constructor; [exact Hv | eapply IH, H].
Qed.

End ScannerFacts.

(** ** Parameter extraction: the loop against two descriptions of it *)

Module ParameterFacts.

(** The tokens of one piece of the parameter list. *)
Definition tokens (pair : string) : list string :=
  Strings.Fields (Strings.TrimSpace pair).

Definition parameter_of (parts : list string) : list Parameter_ :=
  match parts with
  | type :: name :: _ => [ {| Type_ := type; Name := name |} ]
  | _ => []
  end.

(** Skipping as the specification words it: every leading token that is
    [final] or starts with [@] is skipped. *)
Fixpoint skip_all (parts : list string) : list string :=
  match parts with
  | tok :: rest => if is_modifier tok then skip_all rest else parts
  | [] => []
  end.

(** The extraction as the specification words it: a piece is dropped when
    fewer than two tokens are left after the skipping. *)
Definition spec_extractParameters (paramString : string) : list Parameter_ :=
  flat_map (fun pair => parameter_of (skip_all (tokens pair)))
    (Strings.Split paramString ",").

(** Skipping as the loop does it: a leading modifier is skipped only while
    more than two tokens are left. *)
Fixpoint skip_leading (parts : list string) : list string :=
  match parts with
  | tok :: ((_ :: _ :: _) as rest) =>
      if is_modifier tok then skip_leading rest else parts
  | _ => parts
  end.

Lemma skip_modifiers_stop (fuel : nat) (parts : list string) (j : nat) :
  List.length parts - 2 <= j -> skip_modifiers fuel parts j = j.
Proof.
  intros H. destruct fuel; simpl; [reflexivity|].
  destruct (Nat.ltb_spec j (List.length parts - 2)); [lia | reflexivity].
Qed.

(** The index loop and the list recursion skip the same tokens. *)
Lemma skip_modifiers_skip_leading (todo : list string) :
  forall done fuel,
    List.length todo <= fuel + 2 ->
    skipn (skip_modifiers fuel (done ++ todo) (List.length done)) (done ++ todo)
    = skip_leading todo.
Proof.
  induction todo as [|tok rest IH]; intros done fuel Hfuel.
  - rewrite skip_modifiers_stop by (rewrite length_app; simpl; lia).
    rewrite app_nil_r. apply skipn_all.
  - destruct rest as [|a [|b rest]].
    + rewrite skip_modifiers_stop by (rewrite length_app; simpl; lia).
      rewrite skipn_app, skipn_all, Nat.sub_diag. reflexivity.
    + rewrite skip_modifiers_stop by (rewrite length_app; simpl; lia).
      rewrite skipn_app, skipn_all, Nat.sub_diag. reflexivity.
    + destruct fuel as [|fuel]; [simpl in Hfuel; lia|].
      cbn [skip_modifiers skip_leading].
      destruct (Nat.ltb_spec (List.length done)
                  (List.length (done ++ tok :: a :: b :: rest) - 2)) as [_|Hge];
        [|rewrite length_app in Hge; simpl in Hge; lia].
      rewrite nth_middle.
      destruct (is_modifier tok).
      * specialize (IH (done ++ [tok])%list fuel).
        rewrite <- app_assoc, length_app, Nat.add_1_r in IH. simpl in IH.
        apply IH. simpl in Hfuel. lia.
      * rewrite skipn_app, skipn_all, Nat.sub_diag. reflexivity.
Qed.

Lemma skip_leading_length (parts : list string) :
  2 <= List.length parts -> 2 <= List.length (skip_leading parts).
Proof.
  induction parts as [|tok rest IH]; simpl; [lia|].
  destruct rest as [|a [|b rest]]; simpl; try lia.
  intros _. destruct (is_modifier tok); [apply IH; simpl; lia | simpl; lia].
Qed.

Lemma skip_leading_short (parts : list string) :
  List.length parts < 2 -> skip_leading parts = parts.
Proof. destruct parts as [|a [|b rest]]; simpl; [reflexivity | reflexivity | lia]. Qed.

(** The body of the loop over the pieces, in closed form. *)
Lemma extractParameters_pair_eq (acc : list Parameter_) (pair : string) :
  extractParameters_pair acc pair
  = (acc ++ parameter_of (skip_leading (tokens pair)))%list.
Proof.
  unfold extractParameters_pair. fold (tokens pair).
  set (parts := tokens pair).
  destruct (Nat.leb_spec 2 (List.length parts)) as [Hlen|Hlen].
  - pose proof (skip_modifiers_skip_leading parts [] (List.length parts)) as H.
    simpl in H. specialize (H ltac:(lia)).
    set (j := skip_modifiers (List.length parts) parts 0) in *.
    rewrite <- (Nat.add_0_r j) at 1.
    rewrite <- !nth_skipn, H.
    pose proof (skip_leading_length parts Hlen) as Hl.
    destruct (skip_leading parts) as [|type [|name more]]; simpl in Hl; try lia.
    reflexivity.
  - rewrite skip_leading_short by exact Hlen.
    destruct parts as [|a [|b rest]]; simpl in *; try lia;
      now rewrite app_nil_r.
Qed.

Lemma fold_pairs (pairs : list string) :
  forall acc,
    fold_left extractParameters_pair pairs acc
    = (acc ++ flat_map (fun pair => parameter_of (skip_leading (tokens pair))) pairs)%list.
Proof.
  induction pairs as [|pair rest IH]; intros acc; simpl.
  - now rewrite app_nil_r.
  - rewrite IH, extractParameters_pair_eq. now rewrite <- app_assoc.
Qed.

Lemma skip_leading_skip_all (parts : list string) :
  2 <= List.length (skip_all parts) -> skip_leading parts = skip_all parts.
Proof.
  induction parts as [|tok rest IH]; simpl; [reflexivity|].
  destruct (is_modifier tok) eqn:Hm.
  - intros H. destruct rest as [|a [|b rest]].
    + simpl in H. lia.
    + simpl in H. destruct (is_modifier a); simpl in H; lia.
    + apply IH, H.
  - intros _. now destruct rest as [|a [|b rest]].
Qed.

End ParameterFacts.

(** ** Facts about the order of class names and about sorted lists *)

Module SortFacts.

(** [a] may stand before [b]: [b < a] is false. *)
Definition name_le (a b : string) : Prop := String.ltb b a = false.

Lemma name_le_leb (a b : string) : name_le a b <-> String.leb a b = true.
Proof.
  unfold name_le, String.ltb, String.leb.
  rewrite (String.compare_antisym a b).
  destruct (String.compare b a); simpl; split; congruence.
Qed.

Lemma name_le_refl (a : string) : name_le a a.
Proof.
  unfold name_le, String.ltb.
  pose proof (proj2 (String_as_OT.cmp_eq a a) eq_refl) as H.
  unfold String_as_OT.cmp in H. now rewrite H.
Qed.

Lemma name_le_antisym (a b : string) : name_le a b -> name_le b a -> a = b.
Proof. rewrite !name_le_leb. apply String.leb_antisym. Qed.

Lemma name_le_trans (a b c : string) : name_le a b -> name_le b c -> name_le a c.
Proof.
  unfold name_le, String.ltb. intros Hab Hbc.
  destruct (String.compare c a) eqn:Hca; try reflexivity.
  exfalso. apply String_as_OT.cmp_lt in Hca.
  destruct (String.compare c b) eqn:Hcb; try discriminate.
  - apply String_as_OT.cmp_eq in Hcb. subst c.
    apply String_as_OT.cmp_lt in Hca. unfold String_as_OT.cmp in Hca.
    now rewrite Hca in Hab.
  - assert (Hbc' : String_as_OT.lt b c).
    { apply String_as_OT.cmp_lt. unfold String_as_OT.cmp.
      rewrite String.compare_antisym, Hcb. reflexivity. }
    pose proof (String_as_OT.lt_trans _ _ _ Hbc' Hca) as Hba.
    apply String_as_OT.cmp_lt in Hba. unfold String_as_OT.cmp in Hba.
    now rewrite Hba in Hab.
Qed.

(** Two sorted lists of names with the same elements are the same list. *)
Lemma sorted_names_unique (k1 : list string) :
  forall k2,
    StronglySorted name_le k1 -> StronglySorted name_le k2 ->
    Permutation k1 k2 -> k1 = k2.
Proof.
  induction k1 as [|a t1 IH]; intros k2 S1 S2 P.
  - symmetry. now apply Permutation_nil.
  - destruct k2 as [|b t2]; [symmetry in P; now apply Permutation_nil in P|].
    apply StronglySorted_inv in S1 as [S1 F1].
    apply StronglySorted_inv in S2 as [S2 F2].
    assert (Hab : name_le a b).
    { assert (Hin : In b (a :: t1))
        by (apply (Permutation_in b (Permutation_sym P)); now left).
      destruct Hin as [-> | Hin]; [apply name_le_refl|].
      rewrite Forall_forall in F1. now apply F1. }
    assert (Hba : name_le b a).
    { assert (Hin : In a (b :: t2)) by (apply (Permutation_in a P); now left).
      destruct Hin as [-> | Hin]; [exact Hab|].
      rewrite Forall_forall in F2. now apply F2. }
    assert (a = b) by now apply name_le_antisym. subst b.
    f_equal. apply IH; try assumption.
    now apply Permutation_cons_inv in P.
Qed.

Section Keyed.
Context {A : Type} (key : A -> string).

Definition key_le (x y : A) : Prop := name_le (key x) (key y).

Lemma key_le_trans : Relations_1.Transitive key_le.
Proof. intros x y z. apply name_le_trans. Qed.

Lemma sorted_map_key (l : list A) :
  Sorted key_le l -> StronglySorted name_le (map key l).
Proof.
  intros H. apply (Sorted_StronglySorted key_le_trans) in H.
  induction H as [|x l Hl IH Hx]; simpl; constructor; [exact IH|].
  rewrite Forall_forall in *. intros k Hk.
  apply in_map_iff in Hk as (y & <- & Hy). now apply Hx.
Qed.

(** Sorted lists with the same elements list the keys in the same order. *)
Lemma sorted_keys_unique (l1 l2 : list A) :
  Sorted key_le l1 -> Sorted key_le l2 -> Permutation l1 l2 ->
  map key l1 = map key l2.
Proof.
  intros S1 S2 P.
  apply sorted_names_unique; try now apply sorted_map_key.
  now apply Permutation_map.
Qed.

(** With keys that differ pairwise, they are the same list. *)
Lemma same_keys_unique (l1 : list A) :
  forall l2,
    map key l1 = map key l2 -> Permutation l1 l2 -> NoDup (map key l1) ->
    l1 = l2.
Proof.
  induction l1 as [|a t1 IH]; intros l2 K P N.
  - symmetry. now apply Permutation_nil.
  - destruct l2 as [|b t2]; [discriminate|].
    simpl in K. injection K as Kab Kt.
    inversion N as [|? ? Hnotin Nt]; subst.
    assert (Hin : In a (b :: t2)) by (apply (Permutation_in a P); now left).
    destruct Hin as [-> | Hin].
    + f_equal. apply IH; try assumption. now apply Permutation_cons_inv in P.
    + exfalso. apply Hnotin. rewrite Kt. now apply in_map.
Qed.
End Keyed.

End SortFacts.

(** A sort that meets the contract: the library's merge sort, on the order
    of [Less]. *)
Module ClassNameOrder <: Orders.TotalLeBool.
Definition t : Type := ServerSideObject.
Definition leb (a b : t) : bool := negb (Less b a).
Theorem leb_total : forall a b, leb a b = true \/ leb b a = true.
Proof.
  intros a b. unfold leb, Less, String.ltb.
  rewrite (String.compare_antisym (ClassName a) (ClassName b)).
  destruct (String.compare (ClassName b) (ClassName a)); simpl; auto.
Qed.
End ClassNameOrder.

Module ClassNameSort := Mergesort.Sort ClassNameOrder.

Lemma merge_sort_contract : sort_contract ClassNameSort.sort.
Proof.
  intros l. split; [apply ClassNameSort.Permuted_sort|].
  pose proof (ClassNameSort.Sorted_sort l) as H.
  induction H as [|a l' Hl IH Ha]; constructor; [exact IH|].
  destruct Ha as [|b l'' Hab]; constructor.
  unfold ascending. unfold is_true, ClassNameOrder.leb in Hab.
  now apply negb_true_iff in Hab.
Qed.

(** ** Facts about the stub writer *)

Module WriterFacts.
Import Writer StringFacts.

Definition join_all (l : list string) : string := fold_right append EmptyString l.

(** The content of a stub file in closed form: package statement, class
    header, constructor, the method stubs in order, closing brace. *)
Definition stub_text (sso : ServerSideObject) : string :=
  ("package " ++ PackageLine sso ++ ";" ++ nl ++ nl)
  ++ ("public class " ++ ClassName sso ++ " {" ++ nl ++ nl)
  ++ ("    public " ++ ClassName sso ++ "() {}" ++ nl ++ nl)
  ++ join_all (map methodStub (DeclaredMethods sso))
  ++ ("}" ++ nl).

Lemma join_all_app (l1 l2 : list string) :
  join_all (l1 ++ l2) = join_all l1 ++ join_all l2.
Proof.
  induction l1 as [|x l1 IH]; simpl; [reflexivity|].
  now rewrite IH, append_assoc.
Qed.

Lemma write_methods_ok (fails : oracle) (path : string)
  (methods : list PublicMethod) :
  forall f f' r,
    write_methods fails path methods f = (inl r, f') ->
    bytes f' = bytes f ++ join_all (map methodStub methods).
Proof.
  induction methods as [|m ms IH]; intros f f' r; simpl.
  - unfold ret. intros [= _ <-]. now rewrite append_empty_r.
  - unfold bind, WriteString, syscall.
    destruct (fails (calls f)) as [[err n]|]; [discriminate|].
    intros H. apply IH in H. simpl in H. now rewrite H, append_assoc.
Qed.

(** A run of the writer that reports no error leaves [stub_text] in the
    file, whatever the file held before. *)
Lemma WriteSimplifiedSSO_ok (fails : oracle) (outputDir : string)
  (sso : ServerSideObject) (f f' : file) (r : unit) :
  WriteSimplifiedSSO fails outputDir sso f = (inl r, f') ->
  bytes f' = stub_text sso.
Proof.
  unfold WriteSimplifiedSSO, bind, MkdirAll, Create, WriteString, syscall, ret.
  cbn [calls bytes].
  repeat (match goal with
          | |- context [match fails ?n with _ => _ end] =>
              destruct (fails n) as [[? ?]|]; [discriminate|]
          end; cbn [calls bytes]).
  destruct (write_methods _ _ _ _) as [[u|e] g] eqn:Hw; [|discriminate].
  apply write_methods_ok in Hw. cbn [calls bytes] in Hw.
  destruct (fails (calls g)) as [[? ?]|]; [discriminate|].
  intros [= _ <-]. cbn [bytes]. rewrite Hw.
  unfold stub_text. rewrite !append_assoc. reflexivity.
Qed.

Lemma syscall_never (effect : string -> string) (failed : nat -> string -> string)
  (f : file) :
  syscall never effect failed f
  = (inl tt, {| calls := S (calls f); bytes := effect (bytes f) |}).
Proof. reflexivity. Qed.

Lemma write_methods_never (path : string) (methods : list PublicMethod) :
  forall f, fst (write_methods never path methods f) = inl tt.
Proof.
  induction methods as [|m ms IH]; intros f; simpl; [reflexivity|].
  unfold bind, WriteString, syscall, never. apply IH.
Qed.

(** When no system call fails the writer reports no error. *)
Lemma WriteSimplifiedSSO_never (outputDir : string) (sso : ServerSideObject)
  (f : file) :
  fst (WriteSimplifiedSSO never outputDir sso f) = inl tt.
Proof.
  unfold WriteSimplifiedSSO, bind, MkdirAll, Create, WriteString, ret.
  rewrite !syscall_never.
  match goal with
  | |- context [write_methods never ?b ?c ?d] =>
      pose proof (write_methods_never b c d) as H;
      destruct (write_methods never b c d) as [[[]|e] g]
  end; [now rewrite syscall_never | discriminate].
Qed.

Lemma stub_stub_text (sso : ServerSideObject) : stub sso = stub_text sso.
Proof.
  unfold stub.
  pose proof (WriteSimplifiedSSO_never "out" sso fresh) as H.
  destruct (WriteSimplifiedSSO never "out" sso fresh) as [r f'] eqn:Hrun.
  simpl in H. subst r. simpl. eapply WriteSimplifiedSSO_ok, Hrun.
Qed.

End WriterFacts.

(** ** Sample inputs *)

Definition java_Counter : string :=
  "public class Counter extends ServerSideObject {
       public int getX() { return x; }
       public boolean isY() { return y; }
       public void reset() { x = 0; }
   }".

Definition method_getLastError : PublicMethod :=
  {| AccessModifier := "public"; ReturnType := "String";
     MethodName := "getLastError"; Parameters_ := [] |}.

Definition method_getX : PublicMethod :=
  {| AccessModifier := "public"; ReturnType := "int";
     MethodName := "getX"; Parameters_ := [] |}.

Definition method_isY : PublicMethod :=
  {| AccessModifier := "public"; ReturnType := "boolean";
     MethodName := "isY"; Parameters_ := [] |}.

Definition method_reset : PublicMethod :=
  {| AccessModifier := "public"; ReturnType := "void";
     MethodName := "reset"; Parameters_ := [] |}.

Definition method_describe : PublicMethod :=
  {| AccessModifier := "public"; ReturnType := "String";
     MethodName := "describe";
     Parameters_ := [ {| Type_ := "int"; Name := "depth" |};
                      {| Type_ := "String"; Name := "prefix" |} ] |}.

Definition unit_Counter : ServerSideObject :=
  {| FilePath := "src/Counter.java";
     ClassName := "Counter";
     PackageLine := "";
     DeclaredMethods := [method_getX; method_isY; method_getLastError];
     DeclaredFields := [] |}.

Definition unit_Foo : ServerSideObject :=
  {| FilePath := "src/Foo.java";
     ClassName := "Foo";
     PackageLine := "com.example";
     DeclaredMethods := [method_getX; method_isY; method_describe; method_getLastError];
     DeclaredFields := [ {| FieldType := "int"; FieldName := "count" |} ] |}.

(** A traversal that meets [Foo.java] after [Counter.java] and one that
    meets it before. *)
Definition visits_sample : list visit :=
  [ VisitDir "src" "src";
    VisitFile "src/Counter.java" "Counter.java" (Some java_Counter);
    VisitFile "src/notes.txt" "notes.txt" (Some "public class X extends ServerSideObject {}");
    VisitFile "src/Foo.java" "Foo.java" (Some java_Foo) ].

Definition visits_sample' : list visit :=
  [ VisitFile "src/Foo.java" "Foo.java" (Some java_Foo);
    VisitDir "src" "src";
    VisitFile "src/notes.txt" "notes.txt" (Some "public class X extends ServerSideObject {}");
    VisitFile "src/Counter.java" "Counter.java" (Some java_Counter) ].

Lemma scan_Counter :
  ScanForSSOs_file "src/Counter.java" "Counter.java" java_Counter = Some unit_Counter.
Proof. vm_compute. reflexivity. Qed.

Lemma scan_Foo : ScanForSSOs_file "src/Foo.java" "Foo.java" java_Foo = Some unit_Foo.
Proof. vm_compute. reflexivity. Qed.

Lemma scan_sample :
  ScanForSSOs ClassNameSort.sort visits_sample = ([unit_Counter; unit_Foo], None).
Proof. vm_compute. reflexivity. Qed.

Lemma scan_sample' :
  ScanForSSOs ClassNameSort.sort visits_sample' = ([unit_Counter; unit_Foo], None).
Proof. vm_compute. reflexivity. Qed.

(** ** The claims *)

(** C1. The round trip of the default literals, evaluated on a class with
    the methods [public int getX()], [public boolean isY()] and
    [public void reset()]: the stubs of [getX] and [isY] return [0] and
    [false], the literals of the table. The writer gives a void method an
    empty body without a return statement, yet [void] is not a key of the
    table, so the return type gate of the scanner drops [reset]: the unit
    and the stub file have no [reset]. *)
Theorem void_method_dropped_by_scan :
  ScanForSSOs_file "src/Counter.java" "Counter.java" java_Counter = Some unit_Counter
  /\ Writer.methodStub method_getX
     = "    public int getX() {" ++ nl ++ "        return 0;" ++ nl ++ "    }" ++ nl ++ nl
  /\ Writer.methodStub method_isY
     = "    public boolean isY() {" ++ nl ++ "        return false;" ++ nl ++ "    }" ++ nl ++ nl
  /\ Writer.methodStub method_reset
     = "    public void reset() {" ++ nl ++ "    }" ++ nl ++ nl
  /\ allowedTypes "void" = None
  /\ (forall acc whole name params,
         ScanForSSOs_method acc [whole; "void"; name; params] = acc)
  /\ ~ In method_reset (DeclaredMethods unit_Counter)
  /\ Strings.Index (Writer.stub unit_Counter) "reset" = None.
Proof.
  split; [exact scan_Counter|].
  repeat split; try (vm_compute; reflexivity).
  intros [H | [H | [H | []]]]; discriminate.
Qed.

(** C2, the input that separates the loop from the specification: in the
    piece [final int] one token is left after the modifier, so the
    specification drops the piece; the loop never skips one of the last two
    tokens and returns the parameter of type [final] and name [int], as the
    earlier revision of the function does. *)
Lemma extractParameters_final_int :
  extractParameters "final int" = [ {| Type_ := "final"; Name := "int" |} ]
  /\ ParameterFacts.spec_extractParameters "final int" = []
  /\ Earlier.extractParameters "final int" = [ {| Type_ := "final"; Name := "int" |} ].
Proof. repeat split; vm_compute; reflexivity. Qed.

(** C2, as amended. The parameter list is split on commas and each piece is
    tokenized on white space; a leading token that is [final] or starts with
    [@] is skipped only while more than two tokens of the piece are left;
    the two tokens after the skipped ones are the type and the name. A piece
    of fewer than two tokens is dropped, a piece of two or more tokens gives
    exactly one parameter, and whenever two tokens are left after all the
    leading modifiers the result is the one the specification describes. *)
Theorem extractParameters_amended (paramString : string) :
  let amended pair := ParameterFacts.parameter_of
                        (ParameterFacts.skip_leading (ParameterFacts.tokens pair)) in
  let claimed pair := ParameterFacts.parameter_of
                        (ParameterFacts.skip_all (ParameterFacts.tokens pair)) in
  extractParameters paramString = flat_map amended (Strings.Split paramString ",")
  /\ (forall pair,
         List.length (amended pair)
         = if Nat.leb 2 (List.length (ParameterFacts.tokens pair)) then 1 else 0)
  /\ (forall pair,
         List.length (ParameterFacts.skip_all (ParameterFacts.tokens pair)) < 2
         \/ amended pair = claimed pair).
Proof.
  intros amended claimed. split; [|split].
  - unfold extractParameters.
    destruct (String.eqb_spec paramString "") as [->|_]; [reflexivity|].
    now rewrite ParameterFacts.fold_pairs.
  - intros pair. unfold amended.
    destruct (Nat.leb_spec 2 (List.length (ParameterFacts.tokens pair))) as [H|H].
    + apply ParameterFacts.skip_leading_length in H.
      destruct (ParameterFacts.skip_leading _) as [|a [|b more]]; simpl in *; lia.
    + rewrite ParameterFacts.skip_leading_short by exact H.
      destruct (ParameterFacts.tokens pair) as [|a [|b more]]; simpl in *; lia.
  - intros pair. unfold amended, claimed.
    destruct (Nat.ltb_spec (List.length (ParameterFacts.skip_all (ParameterFacts.tokens pair))) 2)
      as [H|H]; [now left | right].
    now rewrite ParameterFacts.skip_leading_skip_all.
Qed.

(** Every unit returned by a scan was built from a file by
    [ScanForSSOs_file]: sorting only reorders the units. *)
Lemma ScanForSSOs_origin (sort_Sort : ServerSideObjectList -> ServerSideObjectList)
  (visits : list visit) (sso : ServerSideObject) :
  sort_contract sort_Sort ->
  In sso (fst (ScanForSSOs sort_Sort visits)) ->
  exists path name text, ScanForSSOs_file path name text = Some sso.
Proof.
  intros Hsort. unfold ScanForSSOs.
  destruct (Walk visits []) as [matchingFiles err] eqn:Hw. simpl.
  intros Hin.
  apply (Permutation_in sso (Permutation_sym (proj1 (Hsort matchingFiles)))) in Hin.
  replace matchingFiles with (fst (Walk visits [])) in Hin by now rewrite Hw.
  apply ScannerFacts.Walk_origin in Hin as [[] | H]. exact H.
Qed.

(** Every method of a unit passed both gates or is a superclass method, and
    so has a return type and parameter types that are keys of the table. *)
Lemma ScanForSSOs_file_valid (path name content : string) (sso : ServerSideObject)
  (m : PublicMethod) :
  ScanForSSOs_file path name content = Some sso ->
  In m (DeclaredMethods sso) ->
  ScannerFacts.allowed (ReturnType m)
  /\ Forall (fun p => ScannerFacts.allowed (Type_ p)) (Parameters_ m).
Proof.
  intros Hscan Hin.
  apply ScannerFacts.ScanForSSOs_file_methods in Hscan as (classContent & Hm & _).
  rewrite Hm in Hin. apply in_app_iff in Hin as [Hin | Hin].
  - eapply ScannerFacts.declaredMethods_of_valid, Hin.
  - now apply ScannerFacts.SuperclassMethods_valid.
Qed.

(** C3. In every unit a scan returns, every method has a return type that
    is [void] or a key of the allowed-type table (the scan in fact admits
    the keys of the table only); a match whose return type is not a key of
    the table leaves the method list as it was, so no record is built for
    it and none reaches the stub writer. *)
Theorem scanned_return_types_allowed
  (sort_Sort : ServerSideObjectList -> ServerSideObjectList)
  (visits : list visit) (sso : ServerSideObject) (m : PublicMethod) :
  sort_contract sort_Sort ->
  In sso (fst (ScanForSSOs sort_Sort visits)) ->
  In m (DeclaredMethods sso) ->
  (ReturnType m = "void" \/ exists literal, allowedTypes (ReturnType m) = Some literal)
  /\ (forall declaredMethods match_,
         allowedTypes (nth 1 match_ EmptyString) = None ->
         ScanForSSOs_method declaredMethods match_ = declaredMethods).
Proof.
  intros Hsort Hsso Hm. split.
  - right.
    destruct (ScanForSSOs_origin _ _ _ Hsort Hsso) as (path & name & text & Hscan).
    destruct (ScanForSSOs_file_valid _ _ _ _ _ Hscan Hm) as [Hr _].
    unfold ScannerFacts.allowed in Hr.
    destruct (allowedTypes (ReturnType m)) as [literal|]; [now exists literal | contradiction].
  - intros declaredMethods match_ Hnone.
    unfold ScanForSSOs_method. rewrite Hnone.
    now destruct (Nat.leb 4 (List.length match_)).
Qed.

Lemma scanned_return_types_allowed_witness :
  (ReturnType method_isY = "void"
   \/ exists literal, allowedTypes (ReturnType method_isY) = Some literal)
  /\ (forall declaredMethods match_,
         allowedTypes (nth 1 match_ EmptyString) = None ->
         ScanForSSOs_method declaredMethods match_ = declaredMethods).
Proof.
  apply (scanned_return_types_allowed ClassNameSort.sort visits_sample unit_Foo method_isY).
  - exact merge_sort_contract.
  - rewrite scan_sample. simpl. auto.
  - simpl. auto.
Defined.






Definition class_pre : string :=
  "class Foo extends ServerSideObject { public int getX() { return x; } ".
Definition class_post : string := " public boolean isY() { return y; } }".


(** The sample file has a nested private class with a method [secret] and a
    public field [count]; the stub has neither. *)
Lemma stub_Foo_has_no_secret :
  Strings.Index java_Foo "public int secret()" <> None
  /\ Strings.Index (Writer.stub unit_Foo) "secret" = None
  /\ Strings.Index (Writer.stub unit_Foo) "count" = None.
Proof. split; [vm_compute; discriminate | split; vm_compute; reflexivity]. Qed.

Definition match_getX : list string := ["public int getX()"; "int"; "getX"; ""].
Definition match_lookup : list string :=
  ["public int lookup(Foo other)"; "int"; "lookup"; "Foo other"].
Definition match_isY : list string := ["public boolean isY()"; "boolean"; "isY"; ""].

Definition match_copy : list string :=
  ["public Foo copy(int depth)"; "Foo"; "copy"; "int depth"].

(** A class with a method that has a parameter of type [Foo] and two
    siblings whose parameter types are all keys of the table. *)
Definition class_siblings : string :=
  "class Foo extends ServerSideObject { public int lookup(Foo other) { return 1; } "
  ++ "public Foo copy(int depth) { return this; } public int getX() { return x; } }".

(** C5, the input that separates the scanner from the claim. The method
    [lookup] has a parameter of a type outside the table and is left out.
    Its sibling [copy] has one parameter, of type [int], so all its
    parameter types are in the table; it is left out as well, by the gate
    on the return type, which the scanner applies before it looks at the
    parameters. Of the three methods the unit keeps [getX] only. *)
Lemma valid_sibling_dropped :
  Regexp.FindAllStringSubmatch Patterns.methodPattern 3
    (removePrivateClasses class_siblings)
  = [match_lookup; match_copy; match_getX]
  /\ (exists p, In p (extractParameters (nth 3 match_lookup EmptyString))
                /\ allowedTypes (Type_ p) = None)
  /\ extractParameters (nth 3 match_copy EmptyString)
     = [ {| Type_ := "int"; Name := "depth" |} ]
  /\ areParametersValid (extractParameters (nth 3 match_copy EmptyString)) = true
  /\ declaredMethods_of class_siblings = [method_getX]
  /\ ~ In (ScannerFacts.method_record match_copy) (declaredMethods_of class_siblings).
Proof.
  split; [vm_compute; reflexivity|].
  split; [exists {| Type_ := "Foo"; Name := "other" |}; split; vm_compute; auto|].
  split; [vm_compute; reflexivity|].
  split; [vm_compute; reflexivity|].
  split; [vm_compute; reflexivity|].
  vm_compute. intros [H | []]. discriminate H.
Qed.

(** C5, as amended. A method match one of whose parameters has a type that
    is not a key of the table adds nothing: the method list is the one
    built without that match, so the method is left out whole. A sibling is
    kept when it passes both gates of the scanner: its return type and all
    its parameter types are keys of the table; each such sibling has its
    record in the list. In every unit built from a file, all parameter
    types of all methods are keys of the table. *)
Theorem invalid_parameter_excludes_method
  (before after : list (list string)) (match_ : list string) :
  (exists p, In p (extractParameters (nth 3 match_ EmptyString))
             /\ allowedTypes (Type_ p) = None) ->
  fold_left ScanForSSOs_method (before ++ match_ :: after) []
  = fold_left ScanForSSOs_method (before ++ after) []
  /\ (forall sibling,
         In sibling (before ++ after) ->
         4 <= List.length sibling ->
         ScannerFacts.allowed (nth 1 sibling EmptyString) ->
         Forall (fun p => ScannerFacts.allowed (Type_ p))
           (extractParameters (nth 3 sibling EmptyString)) ->
         In (ScannerFacts.method_record sibling)
           (fold_left ScanForSSOs_method (before ++ match_ :: after) []))
  /\ (forall path name content sso m p,
         ScanForSSOs_file path name content = Some sso ->
         In m (DeclaredMethods sso) -> In p (Parameters_ m) ->
         ScannerFacts.allowed (Type_ p)).
Proof.
  intros (p & Hp & Hnone).
  assert (Hfail : ScannerFacts.passes match_ = false).
  { destruct (ScannerFacts.passes match_) eqn:Hpass; [|reflexivity].
    apply ScannerFacts.passes_parameters in Hpass.
    rewrite Forall_forall in Hpass. now destruct (Hpass p Hp). }
  assert (Heq : fold_left ScanForSSOs_method (before ++ match_ :: after) []
                = fold_left ScanForSSOs_method (before ++ after) []).
  { rewrite !ScannerFacts.fold_methods, !filter_app. simpl. now rewrite Hfail. }
  split; [exact Heq | split].
  - intros sibling Hin Hlen Hret Hpars.
    rewrite Heq, ScannerFacts.fold_methods. simpl.
    apply in_map, filter_In. split; [exact Hin|].
    unfold ScannerFacts.passes.
    apply ScannerFacts.areParametersValid_Forall in Hpars. rewrite Hpars.
    apply Nat.leb_le in Hlen. rewrite Hlen.
    unfold ScannerFacts.allowed in Hret.
    now destruct (allowedTypes (nth 1 sibling "")).
  - intros path name content sso m q Hscan Hm Hq.
    destruct (ScanForSSOs_file_valid _ _ _ _ _ Hscan Hm) as [_ Hall].
    rewrite Forall_forall in Hall. now apply Hall.
Qed.

Lemma invalid_parameter_excludes_method_witness :
  fold_left ScanForSSOs_method ([match_getX] ++ match_lookup :: [match_isY]) []
  = fold_left ScanForSSOs_method ([match_getX] ++ [match_isY]) []
  /\ In (ScannerFacts.method_record match_isY)
       (fold_left ScanForSSOs_method ([match_getX] ++ match_lookup :: [match_isY]) []).
Proof.
  destruct (invalid_parameter_excludes_method [match_getX] [match_isY] match_lookup)
    as (Heq & Hsiblings & _).
  - exists {| Type_ := "Foo"; Name := "other" |}. split; vm_compute; auto.
  - split; [exact Heq|].
    apply Hsiblings.
    + simpl. auto.
    + simpl. lia.
    + discriminate.
    + vm_compute. constructor.
Defined.

(** C6. In every unit a scan returns, whatever the files hold, the method
    list ends with the superclass methods: [getLastError], returning
    [String] and without parameters, is in the list, and the stub file ends
    with its stub, whose body is [return null;], before the closing brace of
    the class. *)
Theorem superclass_methods_appended
  (sort_Sort : ServerSideObjectList -> ServerSideObjectList)
  (visits : list visit) (sso : ServerSideObject) :
  sort_contract sort_Sort ->
  In sso (fst (ScanForSSOs sort_Sort visits)) ->
  (exists own, DeclaredMethods sso = (own ++ SuperclassMethods)%list)
  /\ In method_getLastError (DeclaredMethods sso)
  /\ (exists head,
         Writer.stub sso
         = head ++ "    public String getLastError() {" ++ nl
                ++ "        return null;" ++ nl
                ++ "    }" ++ nl ++ nl
                ++ "}" ++ nl).
Proof.
  intros Hsort Hsso.
  destruct (ScanForSSOs_origin _ _ _ Hsort Hsso) as (path & name & text & Hscan).
  apply ScannerFacts.ScanForSSOs_file_methods in Hscan as (classContent & Hm & _).
  split; [now exists (declaredMethods_of classContent)|].
  split; [rewrite Hm; apply in_app_iff; right; simpl; auto|].
  rewrite WriterFacts.stub_stub_text. unfold WriterFacts.stub_text.
  rewrite Hm, map_app, WriterFacts.join_all_app.
  assert (Hsuper : WriterFacts.join_all (map Writer.methodStub SuperclassMethods)
                   = "    public String getLastError() {" ++ nl
                       ++ "        return null;" ++ nl ++ "    }" ++ nl ++ nl)
    by (vm_compute; reflexivity).
  rewrite Hsuper.
  exists (("package " ++ PackageLine sso ++ ";" ++ nl ++ nl)
            ++ ("public class " ++ ClassName sso ++ " {" ++ nl ++ nl)
            ++ ("    public " ++ ClassName sso ++ "() {}" ++ nl ++ nl)
            ++ WriterFacts.join_all (map Writer.methodStub (declaredMethods_of classContent))).
  rewrite !StringFacts.append_assoc. reflexivity.
Qed.

Lemma superclass_methods_appended_witness :
  (exists own, DeclaredMethods unit_Counter = (own ++ SuperclassMethods)%list)
  /\ In method_getLastError (DeclaredMethods unit_Counter)
  /\ (exists head,
         Writer.stub unit_Counter
         = head ++ "    public String getLastError() {" ++ nl
                ++ "        return null;" ++ nl
                ++ "    }" ++ nl ++ nl
                ++ "}" ++ nl).
Proof.
  apply (superclass_methods_appended ClassNameSort.sort visits_sample).
  - exact merge_sort_contract.
  - rewrite scan_sample. simpl. auto.
Defined.

(** The lexicographic order of class names on units. *)
Definition class_name_le (a b : ServerSideObject) : Prop :=
  String.leb (ClassName a) (ClassName b) = true.

Lemma sorted_by_class_name (l : ServerSideObjectList) :
  Sorted ascending l -> StronglySorted class_name_le l.
Proof.
  intros H.
  apply (Sorted_StronglySorted (SortFacts.key_le_trans ClassName)) in H.
  induction H as [|a l Hl IH Ha]; constructor; [exact IH|].
  eapply Forall_impl; [|exact Ha].
  intros b Hab. now apply SortFacts.name_le_leb.
Qed.

(** Two files of the same name in two directories, and the two orders in
    which a traversal can meet them. *)
Definition java_Beta_a : string :=
  "public class Beta extends ServerSideObject { public int getX() { return x; } }".
Definition java_Beta_c : string :=
  "public class Beta extends ServerSideObject { public boolean isY() { return y; } }".

Definition visits_Beta : list visit :=
  [ VisitFile "a/Beta.java" "Beta.java" (Some java_Beta_a);
    VisitFile "c/Beta.java" "Beta.java" (Some java_Beta_c) ].

Definition visits_Beta' : list visit :=
  [ VisitFile "c/Beta.java" "Beta.java" (Some java_Beta_c);
    VisitFile "a/Beta.java" "Beta.java" (Some java_Beta_a) ].

(** C7, the input that separates the scan from the claim. The class name of
    a unit is the name of its file, so two files [Beta.java] give two units
    that [Less] does not tell apart. The two traversals visit the same
    files without an error, the sort meets the contract of [sort.Sort], and
    the two lists returned are sorted by class name; yet they are not the
    same list: each has the two units in the order of its traversal, and
    the stubs would be written in that order. *)
Lemma same_class_name_keeps_traversal_order :
  sort_contract ClassNameSort.sort
  /\ Permutation visits_Beta visits_Beta'
  /\ snd (ScanForSSOs ClassNameSort.sort visits_Beta) = None
  /\ snd (ScanForSSOs ClassNameSort.sort visits_Beta') = None
  /\ map ClassName (fst (ScanForSSOs ClassNameSort.sort visits_Beta)) = ["Beta"; "Beta"]
  /\ map FilePath (fst (ScanForSSOs ClassNameSort.sort visits_Beta))
     = ["a/Beta.java"; "c/Beta.java"]
  /\ map FilePath (fst (ScanForSSOs ClassNameSort.sort visits_Beta'))
     = ["c/Beta.java"; "a/Beta.java"]
  /\ fst (ScanForSSOs ClassNameSort.sort visits_Beta)
     <> fst (ScanForSSOs ClassNameSort.sort visits_Beta')
  /\ map Writer.stub (fst (ScanForSSOs ClassNameSort.sort visits_Beta))
     <> map Writer.stub (fst (ScanForSSOs ClassNameSort.sort visits_Beta')).
Proof.
  split; [exact merge_sort_contract|].
  split; [apply perm_swap|].
  repeat (split; [vm_compute; reflexivity|]).
  split; vm_compute; discriminate.
Qed.

(** C7, as amended. The list a scan returns holds the units the traversal
    collected, sorted by class name in the lexicographic order of the
    bytes, and the scan returns it sorted before any unit is handed to the
    stub writer. Two traversals that visit the same files without an error
    return the units of these files with the class names in the same
    order, whatever the order of the visits and whichever sort meets the
    contract of [sort.Sort]; when no two units share a class name the two
    lists of units are the same list. *)
Theorem scan_sorted_by_class_name
  (sort_Sort : ServerSideObjectList -> ServerSideObjectList) (visits : list visit) :
  sort_contract sort_Sort ->
  StronglySorted class_name_le (fst (ScanForSSOs sort_Sort visits))
  /\ Permutation (fst (Walk visits [])) (fst (ScanForSSOs sort_Sort visits))
  /\ snd (ScanForSSOs sort_Sort visits) = snd (Walk visits [])
  /\ (forall sort_Sort' visits',
         sort_contract sort_Sort' ->
         Permutation visits visits' ->
         snd (Walk visits []) = None ->
         Permutation (flat_map ScannerFacts.visit_units visits)
           (fst (ScanForSSOs sort_Sort' visits'))
         /\ snd (ScanForSSOs sort_Sort' visits') = None
         /\ map ClassName (fst (ScanForSSOs sort_Sort visits))
            = map ClassName (fst (ScanForSSOs sort_Sort' visits'))
         /\ (NoDup (map ClassName (fst (Walk visits []))) ->
             fst (ScanForSSOs sort_Sort visits) = fst (ScanForSSOs sort_Sort' visits'))).
Proof.
  intros Hsort. split; [|split; [|split]].
  - unfold ScanForSSOs. destruct (Walk visits []) as [matchingFiles err]. simpl.
    apply sorted_by_class_name, Hsort.
  - unfold ScanForSSOs. destruct (Walk visits []) as [matchingFiles err]. simpl.
    apply Hsort.
  - unfold ScanForSSOs. now destruct (Walk visits []) as [matchingFiles err].
  - intros sort_Sort' visits' Hsort' Hperm Hok.
    pose proof (ScannerFacts.Walk_no_error _ _ Hok) as Hall.
    assert (Hall' : Forall (fun v => ScannerFacts.visit_error v = None) visits')
      by (eapply Permutation_Forall; eassumption).
    unfold ScanForSSOs.
    rewrite (ScannerFacts.Walk_complete visits [] Hall).
    rewrite (ScannerFacts.Walk_complete visits' [] Hall').
    cbn [app fst snd].
    set (units := flat_map ScannerFacts.visit_units visits).
    set (units' := flat_map ScannerFacts.visit_units visits').
    assert (Hunits : Permutation units units')
      by (apply Permutation_flat_map; exact Hperm).
    destruct (Hsort units) as [P1 S1]. destruct (Hsort' units') as [P2 S2].
    assert (P : Permutation (sort_Sort units) (sort_Sort' units')).
    { eapply Permutation_trans; [apply Permutation_sym, P1|].
      eapply Permutation_trans; [exact Hunits | exact P2]. }
    assert (K : map ClassName (sort_Sort units) = map ClassName (sort_Sort' units'))
      by (apply SortFacts.sorted_keys_unique; assumption).
    split; [eapply Permutation_trans; [exact Hunits | exact P2]|].
    split; [reflexivity|].
    split; [exact K|].
    intros Hnodup. apply (SortFacts.same_keys_unique ClassName); try assumption.
    eapply Permutation_NoDup; [|exact Hnodup].
    apply Permutation_map. exact P1.
Qed.

Lemma visits_sample_permuted : Permutation visits_sample visits_sample'.
Proof.
  unfold visits_sample, visits_sample'.
  apply (Permutation_cons_app [_] [_; _]). simpl.
  apply (Permutation_cons_app [_; _] []). simpl.
  apply perm_swap.
Qed.

Lemma scan_sorted_by_class_name_witness :
  StronglySorted class_name_le (fst (ScanForSSOs ClassNameSort.sort visits_sample))
  /\ Permutation [unit_Counter; unit_Foo]
       (fst (ScanForSSOs ClassNameSort.sort visits_sample'))
  /\ fst (ScanForSSOs ClassNameSort.sort visits_sample)
     = fst (ScanForSSOs ClassNameSort.sort visits_sample').
Proof.
  destruct (scan_sorted_by_class_name ClassNameSort.sort visits_sample merge_sort_contract)
    as (Hsorted & _ & _ & Hsame).
  split; [exact Hsorted|].
  destruct (Hsame ClassNameSort.sort visits_sample' merge_sort_contract
              visits_sample_permuted) as (Hunits & _ & _ & Heq).
  - vm_compute. reflexivity.
  - split; [exact Hunits|].
    apply Heq. vm_compute.
    repeat constructor; simpl; intuition discriminate.
Defined.

(** C8. On every input the loop of the stripper ends within
    [len(input)+1] turns, and with any larger number of turns allowed it
    returns the same text. The text returned is reached from the input by
    turns that each take one declaration out. The loop ends there because
    no [private class ] is left, or because brace matching from the first
    one left runs out of text: no opening brace follows it, or the counter
    reaches the end of the text with a count that is not zero. No slice of
    a turn is out of range, so no turn raises an error. *)
Theorem removePrivateClasses_terminates (input : string) :
  exists out,
    removePrivateClasses_loop (S (String.length input)) input = Some out
    /\ removePrivateClasses input = out
    /\ (forall fuel, String.length input < fuel ->
                     removePrivateClasses_loop fuel input = Some out)
    /\ Stripper.removes input out
    /\ String.length out <= String.length input
    /\ (Strings.Index out "private class " = None
        \/ exists startIdx,
             Strings.Index out "private class " = Some startIdx
             /\ (Strings.Index (Strings.drop startIdx out) "{" = None
                 \/ exists braceIdx0 count,
                      Strings.Index (Strings.drop startIdx out) "{" = Some braceIdx0
                      /\ match_brace (Strings.drop (braceIdx0 + startIdx + 1) out)
                           (braceIdx0 + startIdx + 1) 1
                         = (String.length out, S count)))
    /\ (forall text startIdx braceIdx0 endIdx count,
           Strings.Index text "private class " = Some startIdx ->
           Strings.Index (Strings.drop startIdx text) "{" = Some braceIdx0 ->
           match_brace (Strings.drop (braceIdx0 + startIdx + 1) text)
             (braceIdx0 + startIdx + 1) 1 = (endIdx, count) ->
           startIdx <= braceIdx0 + startIdx
           /\ braceIdx0 + startIdx + 1 <= endIdx
           /\ endIdx <= String.length text).
Proof.
  exists (removePrivateClasses input).
  pose proof (Stripper.removePrivateClasses_loop_total input) as Hrun.
  destruct (Stripper.loop_sound _ _ _ Hrun) as [Hremoves Hbreak].
  split; [exact Hrun|]. split; [reflexivity|].
  split; [intros fuel Hfuel; apply (Stripper.loop_more_fuel _ _ _ _ Hrun); lia|].
  split; [exact Hremoves|].
  split.
  { clear Hrun Hbreak. induction Hremoves as [|a b c Hturn _ IH]; [lia|].
    apply Stripper.turn_shorter in Hturn. lia. }
  split.
  - set (out := removePrivateClasses input) in *. clearbody out.
    unfold removePrivateClasses_turn in Hbreak.
    destruct (Strings.Index out "private class ") as [startIdx|] eqn:Hs; [|now left].
    right. exists startIdx. split; [reflexivity|].
    destruct (Strings.Index (Strings.drop startIdx out) "{") as [b|] eqn:Hb; [|now left].
    right.
    destruct (match_brace _ _ _) as [endIdx count] eqn:Hm.
    destruct count as [|count]; [discriminate|].
    exists b, count. split; [reflexivity|].
    pose proof Hm as Hbounds.
    apply Stripper.match_brace_bounds in Hbounds as (_ & Hend & _).
    specialize (Hend ltac:(discriminate)).
    apply StringFacts.Index_Some in Hs as [_ Hs].
    apply StringFacts.Index_Some in Hb as [_ Hb].
    rewrite StringFacts.length_drop in Hend, Hb. simpl in Hb, Hs.
    rewrite Hm. f_equal. lia.
  - intros text startIdx b endIdx count Hs Hb Hm.
    apply Stripper.match_brace_bounds in Hm as (Hbounds & _).
    apply StringFacts.Index_Some in Hs as [_ Hs].
    apply StringFacts.Index_Some in Hb as [_ Hb].
    rewrite StringFacts.length_drop in Hbounds, Hb. simpl in Hb, Hs. lia.
Qed.

(** C9. The stub writer reads the class name, the package name and the
    method list of a unit and nothing else: two units that agree on these
    three, whatever their fields and file paths, make the writer do the
    same system calls with the same bytes and the same outcome, so the stub
    file of a unit has no trace of the fields the scanner put into it. *)
Theorem stub_ignores_fields (fails : Writer.oracle) (outputDir : string)
  (sso1 sso2 : ServerSideObject) (f : Writer.file) :
  ClassName sso1 = ClassName sso2 ->
  PackageLine sso1 = PackageLine sso2 ->
  DeclaredMethods sso1 = DeclaredMethods sso2 ->
  Writer.WriteSimplifiedSSO fails outputDir sso1 f
  = Writer.WriteSimplifiedSSO fails outputDir sso2 f
  /\ Writer.stub sso1 = Writer.stub sso2.
Proof.
  intros Hclass Hpackage Hmethods.
  unfold Writer.stub, Writer.WriteSimplifiedSSO.
  rewrite Hclass, Hpackage, Hmethods. split; reflexivity.
Qed.

(** The unit of [Foo.java] with other fields and another path. *)
Definition unit_Foo_other_fields : ServerSideObject :=
  {| FilePath := "elsewhere/Foo.java";
     ClassName := "Foo";
     PackageLine := "com.example";
     DeclaredMethods := [method_getX; method_isY; method_describe; method_getLastError];
     DeclaredFields := [ {| FieldType := "String"; FieldName := "label" |};
                         {| FieldType := "long"; FieldName := "total" |} ] |}.

Lemma stub_ignores_fields_witness :
  DeclaredFields unit_Foo <> DeclaredFields unit_Foo_other_fields
  /\ Writer.WriteSimplifiedSSO Writer.never "out" unit_Foo Writer.fresh
     = Writer.WriteSimplifiedSSO Writer.never "out" unit_Foo_other_fields Writer.fresh
  /\ Writer.stub unit_Foo = Writer.stub unit_Foo_other_fields.
Proof.
  split; [discriminate|].
  apply (stub_ignores_fields Writer.never "out" unit_Foo unit_Foo_other_fields);
    reflexivity.
Defined.

(** The text of a file up to its first line feed. *)
Definition first_line (text : string) : string :=
  match Strings.Index text nl with
  | Some i => Strings.take i text
  | None => text
  end.

(** A text without the word [package ] has no match of the package
    pattern. *)
Lemma no_package_keyword (text : string) :
  Strings.Index text "package " = None ->
  Regexp.FindStringSubmatch Patterns.packagePattern 1 text = None.
Proof.
  intros Hnone. unfold Regexp.FindStringSubmatch.
  assert (H : forall s pos,
             (forall j, j <= String.length s ->
                        Strings.HasPrefix (Strings.drop j s) "package " = false) ->
             Regexp.search Patterns.packagePattern pos s = None).
  { induction s as [|c s IH]; intros pos Hs.
    - reflexivity.
    - cbn [Regexp.search Patterns.packagePattern Patterns.cat Regexp.run].
      pose proof (Hs 0 (Nat.le_0_l _)) as H0. cbn [Strings.drop] in H0. rewrite H0.
      apply IH. intros j Hj. apply (Hs (S j)). simpl. lia. }
  rewrite H; [reflexivity|].
  intros j Hj. now apply StringFacts.Index_None.
Qed.

(** C10. A file that qualifies and whose normalized text has no match of
    the package pattern gives a unit with the empty package name; the
    writer emits the package statement all the same, and the first line of
    the stub file is [package ;]. *)
Theorem missing_package_statement (path name content : string)
  (sso : ServerSideObject) :
  Regexp.FindStringSubmatch Patterns.packagePattern 1 (normalize content) = None ->
  ScanForSSOs_file path name content = Some sso ->
  PackageLine sso = EmptyString
  /\ (exists rest, Writer.stub sso = "package ;" ++ nl ++ rest)
  /\ first_line (Writer.stub sso) = "package ;".
Proof.
  intros Hnone Hscan.
  assert (Hpackage : PackageLine sso = EmptyString).
  { unfold ScanForSSOs_file in Hscan. rewrite Hnone in Hscan.
    destruct (Regexp.MatchString _ _); [|discriminate].
    destruct (Strings.Index _ _) as [classStart|]; [|discriminate].
    destruct (Strings.LastIndex _ _) as [classEnd|]; [|discriminate].
    destruct (Nat.leb classEnd classStart); [discriminate|].
    now injection Hscan as <-. }
  split; [exact Hpackage|].
  rewrite WriterFacts.stub_stub_text. unfold WriterFacts.stub_text.
  rewrite Hpackage.
  match goal with
  | |- context [("public class " ++ ?a) ++ ?b] => set (rest := ("public class " ++ a) ++ b)
  end.
  split; [exists (nl ++ rest); reflexivity|].
  reflexivity.
Qed.

Lemma missing_package_statement_witness :
  PackageLine unit_Counter = EmptyString
  /\ (exists rest, Writer.stub unit_Counter = "package ;" ++ nl ++ rest)
  /\ first_line (Writer.stub unit_Counter) = "package ;".
Proof.
  apply (missing_package_statement "src/Counter.java" "Counter.java" java_Counter).
  - vm_compute. reflexivity.
  - exact scan_Counter.
Defined.

(** * Further properties of the code *)

(** ** Tokens and the text normalizer *)

Module FieldsFacts.
Import Strings StringFacts.

(** Every byte of [s] satisfies [f]. *)
Fixpoint every (f : ascii -> bool) (s : string) : bool :=
  match s with
  | EmptyString => true
  | String c t => f c && every f t
  end.

Definition not_space (c : ascii) : bool := negb (isSpace c).

(** A token: a text that is not empty and has no white space. *)
Definition token (t : string) : Prop := t <> EmptyString /\ every not_space t = true.

Lemma every_append (f : ascii -> bool) (a b : string) :
  every f (a ++ b) = every f a && every f b.
Proof.
  induction a as [|c a IH]; simpl; [reflexivity|].
  now rewrite IH, andb_assoc.
Qed.

Lemma every_impl (f g : ascii -> bool) (s : string) :
  (forall c, f c = true -> g c = true) -> every f s = true -> every g s = true.
Proof.
  intros Hfg. induction s as [|c s IH]; simpl; [reflexivity|].
  intros H. apply andb_true_iff in H as [Hc Hs].
  now rewrite (Hfg c Hc), IH.
Qed.

Lemma snoc_not_empty (s : string) (c : ascii) : snoc s c <> EmptyString.
Proof. now destruct s. Qed.

Lemma flush_tokens (cur : string) :
  every not_space cur = true -> Forall token (flush cur).
Proof.
  intros H. destruct cur as [|c cur]; simpl; constructor; [|constructor].
  split; [discriminate | exact H].
Qed.

Lemma fields_from_tokens (s : string) :
  forall cur, every not_space cur = true -> Forall token (fields_from s cur).
Proof.
  induction s as [|c s IH]; intros cur Hcur; cbn [fields_from].
  - now apply flush_tokens.
  - destruct (isSpace c) eqn:Hc.
    + apply Forall_app. split; [now apply flush_tokens | now apply IH].
    + apply IH. unfold snoc. rewrite every_append, Hcur. simpl.
      unfold not_space. now rewrite Hc.
Qed.

(** The fields of a text are tokens. *)
Lemma Fields_tokens (s : string) : Forall token (Fields s).
Proof. now apply fields_from_tokens. Qed.

(** Reading a run of bytes that are not white space extends the field
    being read. *)
Lemma fields_from_run (tok : string) :
  forall rest cur,
    every not_space tok = true ->
    fields_from (tok ++ rest) cur = fields_from rest (cur ++ tok).
Proof.
  induction tok as [|c tok IH]; intros rest cur H; simpl.
  - now rewrite append_empty_r.
  - simpl in H. apply andb_true_iff in H as [Hc Htok].
    unfold not_space in Hc. apply negb_true_iff in Hc. rewrite Hc.
    rewrite IH by exact Htok. unfold snoc. now rewrite append_assoc.
Qed.

(** Tokens joined by single spaces are read back as they are. *)
Lemma Fields_Join (l : list string) :
  Forall token l -> Fields (Join l " ") = l.
Proof.
  unfold Fields, Join. induction 1 as [|x xs [Hne Hx] Hxs IH]; [reflexivity|].
  destruct xs as [|y ys].
  - cbn [String.concat]. rewrite <- (append_empty_r x) at 1.
    rewrite fields_from_run by exact Hx. simpl. now destruct x.
  - change (String.concat " " (x :: y :: ys)) with (x ++ String " "%char (String.concat " " (y :: ys))).
    rewrite fields_from_run by exact Hx. cbn [fields_from append].
    change (isSpace " ") with true. cbn iota. rewrite IH.
    now destruct x.
Qed.

(** No two spaces in a row in tokens joined by single spaces. *)
Lemma Index_run (tok rest : string) :
  every not_space tok = true ->
  Index rest "  " = None -> Index (tok ++ rest) "  " = None.
Proof.
  intros Htok Hrest. induction tok as [|c tok IH]; [exact Hrest|].
  cbn [append every] in *.
  apply andb_true_iff in Htok as [Hc Htok].
  rewrite Index_cons. cbn [HasPrefix].
  destruct (Ascii.eqb_spec " " c) as [<-|_]; [discriminate|].
  cbn [andb]. now rewrite IH.
Qed.

Lemma Join_single_spaces (l : list string) :
  Forall token l -> Index (Join l " ") "  " = None.
Proof.
  unfold Join. induction 1 as [|x xs [Hne Hx] Hxs IH]; [reflexivity|].
  destruct xs as [|y ys].
  - cbn [String.concat]. rewrite <- (append_empty_r x). now apply Index_run.
  - change (String.concat " " (x :: y :: ys)) with (x ++ String " "%char (String.concat " " (y :: ys))).
    apply Index_run; [exact Hx|].
    inversion Hxs as [|? ? [Hy0 Hy] _]; subst.
    destruct y as [|c y]; [contradiction|].
    destruct ys as [|z zs].
    + cbn [String.concat] in *. rewrite Index_cons.
      simpl in Hy. apply andb_true_iff in Hy as [Hc _].
      cbn [HasPrefix]. change (Ascii.eqb " " " ") with true.
      destruct (Ascii.eqb_spec " " c) as [<-|_]; [discriminate|].
      cbn [andb]. now rewrite IH.
    + change (String.concat " " (String c y :: z :: zs))
        with (String c (y ++ String " "%char (String.concat " " (z :: zs)))) in *.
      rewrite Index_cons.
      simpl in Hy. apply andb_true_iff in Hy as [Hc _].
      cbn [HasPrefix]. change (Ascii.eqb " " " ") with true.
      destruct (Ascii.eqb_spec " " c) as [<-|_]; [discriminate|].
      cbn [andb]. now rewrite IH.
Qed.

(** A byte below [utf8.RuneSelf]. On a text of such bytes
    [strings.Fields] and [strings.TrimSpace] take their ASCII path, which
    splits and trims at the bytes of [asciiSpace]: the path [Strings.Fields]
    and [Strings.TrimSpace] follow. *)
Definition ascii_byte (c : ascii) : bool := Nat.ltb (nat_of_ascii c) 128.

Lemma fields_from_every (f : ascii -> bool) (s : string) :
  forall cur,
    every f s = true -> every f cur = true ->
    Forall (fun t => every f t = true) (fields_from s cur).
Proof.
  induction s as [|c s IH]; intros cur Hs Hcur; cbn [fields_from every] in *.
  - destruct cur; simpl; constructor; [exact Hcur | constructor].
  - apply andb_true_iff in Hs as [Hc Hs]. destruct (isSpace c).
    + apply Forall_app. split; [|now apply IH].
      destruct cur; simpl; constructor; [exact Hcur | constructor].
    + apply IH; [exact Hs|]. unfold snoc. rewrite every_append, Hcur. simpl.
      now rewrite Hc.
Qed.

Lemma every_concat (f : ascii -> bool) (sep : string) (l : list string) :
  every f sep = true ->
  Forall (fun t => every f t = true) l ->
  every f (String.concat sep l) = true.
Proof.
  intros Hsep. induction 1 as [|x xs Hx Hxs IH]; [reflexivity|].
  destruct xs as [|y ys]; [exact Hx|].
  change (String.concat sep (x :: y :: ys))
    with (x ++ sep ++ String.concat sep (y :: ys)).
  now rewrite !every_append, Hx, Hsep, IH.
Qed.

(** The normalized text of an ASCII text is an ASCII text. *)
Lemma normalize_ascii (content : string) :
  every ascii_byte content = true -> every ascii_byte (normalize content) = true.
Proof.
  intros H. unfold normalize, Join.
  apply every_concat; [reflexivity|].
  now apply fields_from_every.
Qed.

End FieldsFacts.

(** X1. The normalizer keeps the tokens of an ASCII text and nothing else:
    the fields of the normalized text are the fields of the text,
    normalizing twice is normalizing once, the normalized text has no two
    spaces in a row, and it is an ASCII text again. *)
Theorem normalize_keeps_tokens (content : string) :
  FieldsFacts.every FieldsFacts.ascii_byte content = true ->
  Strings.Fields (normalize content) = Strings.Fields content
  /\ normalize (normalize content) = normalize content
  /\ Strings.Index (normalize content) "  " = None
  /\ Forall FieldsFacts.token (Strings.Fields content)
  /\ FieldsFacts.every FieldsFacts.ascii_byte (normalize content) = true.
Proof.
  intros Hascii.
  pose proof (FieldsFacts.Fields_tokens content) as Htok.
  assert (H : Strings.Fields (normalize content) = Strings.Fields content)
    by (apply FieldsFacts.Fields_Join, Htok).
  split; [exact H|]. split; [unfold normalize at 1; now rewrite H|].
  split; [now apply FieldsFacts.Join_single_spaces|].
  split; [exact Htok | now apply FieldsFacts.normalize_ascii].
Qed.

Lemma normalize_keeps_tokens_witness :
  Strings.Fields (normalize java_Counter) = Strings.Fields java_Counter
  /\ normalize (normalize java_Counter) = normalize java_Counter
  /\ Strings.Index (normalize java_Counter) "  " = None
  /\ Forall FieldsFacts.token (Strings.Fields java_Counter)
  /\ FieldsFacts.every FieldsFacts.ascii_byte (normalize java_Counter) = true.
Proof.
  apply (normalize_keeps_tokens java_Counter).
  vm_compute. reflexivity.
Defined.

(** ** Parameters: what is extracted, and the way back from the stub *)

Module ParameterRoundTrip.
Import Strings StringFacts FieldsFacts.

Lemma reverse_snoc (s : string) (c : ascii) : reverse (snoc s c) = String c (reverse s).
Proof.
  unfold snoc. induction s as [|a s IH]; [reflexivity|].
  cbn [append reverse]. now rewrite IH.
Qed.

Lemma reverse_involutive (s : string) : reverse (reverse s) = s.
Proof.
  induction s as [|a s IH]; [reflexivity|].
  cbn [reverse]. now rewrite reverse_snoc, IH.
Qed.

Lemma reverse_append (a b : string) : reverse (a ++ b) = reverse b ++ reverse a.
Proof.
  induction a as [|c a IH]; cbn [append reverse].
  - now rewrite append_empty_r.
  - rewrite IH. unfold snoc. now rewrite append_assoc.
Qed.

Lemma every_reverse (f : ascii -> bool) (s : string) :
  every f (reverse s) = every f s.
Proof.
  induction s as [|c s IH]; [reflexivity|].
  cbn [reverse every]. unfold snoc. rewrite every_append, IH. simpl.
  now rewrite andb_true_r, andb_comm.
Qed.

(** What [trimLeft] cuts off is white space. *)
Lemma trimLeft_split (s : string) :
  exists sp, every isSpace sp = true /\ s = sp ++ trimLeft s.
Proof.
  induction s as [|c s (sp & Hsp & IH)]; [now exists EmptyString|].
  cbn [trimLeft]. destruct (isSpace c) eqn:Hc.
  - exists (String c sp). cbn [every append]. rewrite Hc, Hsp. split; [reflexivity|].
    now rewrite <- IH.
  - now exists EmptyString.
Qed.

Lemma fields_from_spaces (sp : string) :
  forall cur, every isSpace sp = true -> fields_from sp cur = flush cur.
Proof.
  induction sp as [|c sp IH]; intros cur H; [reflexivity|].
  cbn [fields_from every] in *. apply andb_true_iff in H as [Hc Hsp].
  rewrite Hc, (IH EmptyString Hsp). simpl. now rewrite app_nil_r.
Qed.

Lemma fields_from_trailing (a sp : string) :
  forall cur, every isSpace sp = true ->
              fields_from (a ++ sp) cur = fields_from a cur.
Proof.
  induction a as [|c a IH]; intros cur H; cbn [append fields_from].
  - now apply fields_from_spaces.
  - destruct (isSpace c); now rewrite IH.
Qed.

Lemma fields_from_leading (sp a : string) :
  every isSpace sp = true -> fields_from (sp ++ a) EmptyString = fields_from a EmptyString.
Proof.
  induction sp as [|c sp IH]; intros H; [reflexivity|].
  cbn [append fields_from every] in *. apply andb_true_iff in H as [Hc Hsp].
  rewrite Hc. simpl. now apply IH.
Qed.

(** Trimming a text does not change its fields: the call of
    [strings.TrimSpace] before [strings.Fields] has no effect. *)
Lemma Fields_TrimSpace (s : string) : Fields (TrimSpace s) = Fields s.
Proof.
  unfold Fields, TrimSpace.
  destruct (trimLeft_split s) as (sp1 & Hsp1 & H1).
  destruct (trimLeft_split (reverse (trimLeft s))) as (sp2 & Hsp2 & H2).
  set (core := reverse (trimLeft (reverse (trimLeft s)))) in *.
  assert (Hmid : trimLeft s = core ++ reverse sp2).
  { rewrite <- (reverse_involutive (trimLeft s)). rewrite H2 at 1.
    now rewrite reverse_append. }
  rewrite H1 at 1. rewrite fields_from_leading by exact Hsp1.
  rewrite Hmid. rewrite fields_from_trailing; [reflexivity|].
  now rewrite every_reverse.
Qed.

(** The tokens the loop keeps are tokens of the piece. *)
Lemma skip_leading_incl (parts : list string) (x : string) :
  In x (ParameterFacts.skip_leading parts) -> In x parts.
Proof.
  induction parts as [|tok rest IH]; [auto|].
  cbn [ParameterFacts.skip_leading].
  destruct rest as [|a [|b rest]]; auto.
  destruct (is_modifier tok); [|auto].
  intros H. right. now apply IH.
Qed.

Lemma extractParameters_flat_map (paramString : string) :
  extractParameters paramString
  = flat_map (fun pair => ParameterFacts.parameter_of
                            (ParameterFacts.skip_leading (ParameterFacts.tokens pair)))
      (Split paramString ",").
Proof.
  unfold extractParameters.
  destruct (String.eqb_spec paramString "") as [->|_]; [reflexivity|].
  now rewrite ParameterFacts.fold_pairs.
Qed.

Definition no_comma (s : string) : bool :=
  every (fun c => negb (Ascii.eqb c ","%char)) s.

Lemma split_from_run (piece : string) :
  forall rest cur,
    no_comma piece = true ->
    split_from (piece ++ rest) "," 0 cur = split_from rest "," 0 (cur ++ piece).
Proof.
  unfold no_comma.
  induction piece as [|c piece IH]; intros rest cur H; cbn [append].
  - now rewrite append_empty_r.
  - cbn [every] in H. apply andb_true_iff in H as [Hc Hp].
    cbn [split_from]. rewrite HasPrefix_char.
    rewrite Ascii.eqb_sym. apply negb_true_iff in Hc. rewrite Hc.
    rewrite IH by exact Hp. unfold snoc. now rewrite append_assoc.
Qed.

(** Splitting texts without commas that were joined by a comma and a
    space: the first text, then each other text after a space. *)
Lemma split_from_joined (xs : list string) :
  forall x cur,
    Forall (fun s => no_comma s = true) (x :: xs) ->
    split_from (String.concat ", " (x :: xs)) "," 0 cur
    = (cur ++ x) :: map (fun s => " " ++ s) xs.
Proof.
  induction xs as [|y ys IH]; intros x cur H.
  - cbn [String.concat map]. rewrite <- (append_empty_r x) at 1.
    inversion H; subst. now rewrite split_from_run.
  - change (String.concat ", " (x :: y :: ys))
      with (x ++ String ","%char (String " "%char (String.concat ", " (y :: ys)))).
    inversion H as [|? ? Hx Hrest]; subst.
    rewrite split_from_run by exact Hx.
    cbn [split_from]. rewrite HasPrefix_char. change (Ascii.eqb "," ",") with true.
    cbn iota. cbn [String.length Nat.sub].
    rewrite HasPrefix_char. change (Ascii.eqb "," " ") with false. cbn iota.
    rewrite (IH y (snoc "" " ") Hrest). reflexivity.
Qed.

(** The text of one parameter in a stub. *)
Definition render (p : Parameter_) : string := Type_ p ++ " " ++ Name p.

(** The loop of the writer over the parameters, in closed form. *)
Lemma signature_parameters_later (parameters : list Parameter_) :
  forall i sig,
    Writer.signature_parameters (S i) parameters sig
    = sig ++ WriterFacts.join_all (map (fun p => ", " ++ render p) parameters).
Proof.
  induction parameters as [|p ps IH]; intros i sig; cbn [Writer.signature_parameters map].
  - simpl. now rewrite append_empty_r.
  - change (Nat.ltb 0 (S i)) with true. cbn iota. rewrite IH.
    unfold render. cbn [WriterFacts.join_all fold_right].
    now rewrite !append_assoc.
Qed.

Lemma signature_parameters_joined (parameters : list Parameter_) (sig : string) :
  Writer.signature_parameters 0 parameters sig
  = sig ++ String.concat ", " (map render parameters).
Proof.
  destruct parameters as [|p ps]; cbn [Writer.signature_parameters map].
  - simpl. now rewrite append_empty_r.
  - change (Nat.ltb 0 0) with false. cbn iota.
    rewrite signature_parameters_later.
    fold (render p). rewrite append_assoc. f_equal.
    revert p. induction ps as [|q qs IH]; intros p.
    + cbn [map WriterFacts.join_all fold_right String.concat]. apply append_empty_r.
    + cbn [map WriterFacts.join_all fold_right].
      change (String.concat ", " (render p :: render q :: map render qs))
        with (render p ++ ", " ++ String.concat ", " (render q :: map render qs)).
      f_equal. rewrite append_assoc. f_equal. apply (IH q).
Qed.

(** The tokens of a rendered parameter, with or without a space before it. *)
Lemma tokens_render (sp : string) (p : Parameter_) :
  every isSpace sp = true ->
  token (Type_ p) -> token (Name p) ->
  ParameterFacts.tokens (sp ++ render p) = [Type_ p; Name p].
Proof.
  intros Hsp [Ht0 Ht] [Hn0 Hn].
  unfold ParameterFacts.tokens. rewrite Fields_TrimSpace. unfold Fields.
  rewrite fields_from_leading by exact Hsp.
  unfold render. rewrite fields_from_run by exact Ht.
  cbn [append fields_from]. change (isSpace " ") with true. cbn iota.
  rewrite <- (append_empty_r (Name p)) at 1.
  rewrite fields_from_run by exact Hn.
  cbn [fields_from append].
  destruct (Type_ p); [contradiction|]. destruct (Name p); [contradiction|].
  reflexivity.
Qed.

End ParameterRoundTrip.

Lemma extracted_are_tokens (paramString : string) :
  Forall (fun p => FieldsFacts.token (Type_ p) /\ FieldsFacts.token (Name p))
    (extractParameters paramString)
  /\ List.length (extractParameters paramString)
     <= List.length (Strings.Split paramString ",").
Proof.
  rewrite ParameterRoundTrip.extractParameters_flat_map.
  induction (Strings.Split paramString ",") as [|pair pairs [IH1 IH2]];
    [split; [constructor | simpl; lia]|].
  cbn [flat_map].
  pose proof (FieldsFacts.Fields_tokens (Strings.TrimSpace pair)) as Htok.
  fold (ParameterFacts.tokens pair) in Htok.
  rewrite Forall_forall in Htok.
  pose proof (ParameterRoundTrip.skip_leading_incl (ParameterFacts.tokens pair)) as Hincl.
  destruct (ParameterFacts.skip_leading (ParameterFacts.tokens pair))
    as [|type [|name more]]; cbn [ParameterFacts.parameter_of app];
    try (split; [exact IH1 | simpl; lia]).
  split; [|simpl in *; lia].
  constructor; [|exact IH1]. simpl.
  split; apply Htok, Hincl; simpl; auto.
Qed.

(** X2. Every parameter the scanner extracts has a type and a name that are
    tokens: not empty and free of white space. There are at most as many
    parameters as pieces between commas. *)
Theorem extractParameters_tokens (paramString : string) :
  Forall (fun p => FieldsFacts.token (Type_ p) /\ FieldsFacts.token (Name p))
    (extractParameters paramString)
  /\ List.length (extractParameters paramString)
     <= List.length (Strings.Split paramString ",").
Proof. exact (extracted_are_tokens paramString). Qed.

Lemma rendered_read_back (parameters : list Parameter_) :
  Forall (fun p => FieldsFacts.token (Type_ p) /\ FieldsFacts.token (Name p)
                   /\ ParameterRoundTrip.no_comma (Type_ p) = true
                   /\ ParameterRoundTrip.no_comma (Name p) = true) parameters ->
  extractParameters (Writer.signature_parameters 0 parameters EmptyString) = parameters.
Proof.
  intros Hall.
  rewrite ParameterRoundTrip.signature_parameters_joined. cbn [append].
  rewrite ParameterRoundTrip.extractParameters_flat_map.
  destruct parameters as [|p ps]; [reflexivity|].
  unfold Strings.Split. cbn [map].
  rewrite ParameterRoundTrip.split_from_joined.
  - cbn [append flat_map].
    inversion Hall as [|? ? (Ht & Hn & _) Hrest]; subst.
    pose proof (ParameterRoundTrip.tokens_render EmptyString p eq_refl Ht Hn) as Hp.
    cbn [append] in Hp. rewrite Hp.
    cbn [ParameterFacts.skip_leading ParameterFacts.parameter_of app].
    destruct p as [type name]. cbn [Type_ Name]. f_equal.
    clear Hall Ht Hn Hp. induction Hrest as [|q qs (Ht & Hn & _) _ IH]; [reflexivity|].
    cbn [map flat_map].
    pose proof (ParameterRoundTrip.tokens_render " " q eq_refl Ht Hn) as Hq.
    cbn [append] in Hq. rewrite Hq.
    cbn [ParameterFacts.skip_leading ParameterFacts.parameter_of app].
    destruct q as [qtype qname]. cbn [Type_ Name]. now rewrite IH.
  - apply Forall_forall. intros s Hs.
    change (ParameterRoundTrip.render p :: map ParameterRoundTrip.render ps)
      with (map ParameterRoundTrip.render (p :: ps)) in Hs.
    apply in_map_iff in Hs as (q & <- & Hq).
    rewrite Forall_forall in Hall. destruct (Hall q Hq) as (_ & _ & Hct & Hcn).
    unfold ParameterRoundTrip.render, ParameterRoundTrip.no_comma in *.
    rewrite !FieldsFacts.every_append, Hct, Hcn. reflexivity.
Qed.

(** The parameter list the writer prints for ASCII types and names is an
    ASCII text. *)
Lemma rendered_ascii (parameters : list Parameter_) :
  Forall (fun p => FieldsFacts.every FieldsFacts.ascii_byte (Type_ p) = true
                   /\ FieldsFacts.every FieldsFacts.ascii_byte (Name p) = true)
    parameters ->
  FieldsFacts.every FieldsFacts.ascii_byte
    (Writer.signature_parameters 0 parameters EmptyString) = true.
Proof.
  intros Hall.
  rewrite ParameterRoundTrip.signature_parameters_joined. cbn [append].
  apply FieldsFacts.every_concat; [reflexivity|].
  apply Forall_forall. intros t Ht.
  apply in_map_iff in Ht as (p & <- & Hp).
  rewrite Forall_forall in Hall. destruct (Hall p Hp) as [Htype Hname].
  unfold ParameterRoundTrip.render.
  now rewrite !FieldsFacts.every_append, Htype, Hname.
Qed.

(** X3. The way back from the stub: when the types and the names of a list
    of parameters are ASCII tokens without a comma, the parameter list the
    writer puts between the parentheses of a stub is an ASCII text, and the
    scanner reads it back as the same parameters, in the same order. *)
Theorem extractParameters_of_rendered (parameters : list Parameter_) :
  Forall (fun p => FieldsFacts.token (Type_ p) /\ FieldsFacts.token (Name p)
                   /\ ParameterRoundTrip.no_comma (Type_ p) = true
                   /\ ParameterRoundTrip.no_comma (Name p) = true
                   /\ FieldsFacts.every FieldsFacts.ascii_byte (Type_ p) = true
                   /\ FieldsFacts.every FieldsFacts.ascii_byte (Name p) = true)
    parameters ->
  extractParameters (Writer.signature_parameters 0 parameters EmptyString) = parameters
  /\ FieldsFacts.every FieldsFacts.ascii_byte
       (Writer.signature_parameters 0 parameters EmptyString) = true.
Proof.
  intros Hall. split.
  - apply rendered_read_back. eapply Forall_impl; [|exact Hall].
    intros p (Ht & Hn & Hct & Hcn & _). auto.
  - apply rendered_ascii. eapply Forall_impl; [|exact Hall].
    intros p (_ & _ & _ & _ & Hat & Han). auto.
Qed.

Lemma extractParameters_of_rendered_witness :
  extractParameters
    (Writer.signature_parameters 0 (Parameters_ method_describe) EmptyString)
  = Parameters_ method_describe
  /\ FieldsFacts.every FieldsFacts.ascii_byte
       (Writer.signature_parameters 0 (Parameters_ method_describe) EmptyString) = true.
Proof.
  apply extractParameters_of_rendered.
  repeat constructor; discriminate.
Defined.

(** X4. The stub of every method of a unit built from a file, in closed
    form: the signature with the parameters in order, separated by a comma
    and a space, and a body that returns the default literal of the return
    type. For such units the writer never takes the branch for [void] nor
    the fallback [null;] for a type outside the table. *)
Theorem scanned_method_stub (path name content : string) (sso : ServerSideObject)
  (m : PublicMethod) :
  ScanForSSOs_file path name content = Some sso ->
  In m (DeclaredMethods sso) ->
  exists literal,
    allowedTypes (ReturnType m) = Some literal
    /\ Writer.methodStub m
       = "    public " ++ ReturnType m ++ " " ++ MethodName m ++ "("
           ++ String.concat ", " (map ParameterRoundTrip.render (Parameters_ m))
           ++ ") {" ++ nl
           ++ "        return " ++ literal ++ ";" ++ nl
           ++ "    }" ++ nl ++ nl.
Proof.
  intros Hscan Hm.
  destruct (ScanForSSOs_file_valid _ _ _ _ _ Hscan Hm) as [Hret _].
  unfold ScannerFacts.allowed in Hret.
  destruct (allowedTypes (ReturnType m)) as [literal|] eqn:Hlit; [|contradiction].
  exists literal. split; [reflexivity|].
  unfold Writer.methodStub.
  rewrite ParameterRoundTrip.signature_parameters_joined, Hlit.
  destruct (String.eqb_spec (ReturnType m) "void") as [Hvoid|_].
  - rewrite Hvoid in Hlit. discriminate.
  - cbn [negb]. rewrite !StringFacts.append_assoc. reflexivity.
Qed.

Lemma scanned_method_stub_witness :
  exists literal,
    allowedTypes (ReturnType method_describe) = Some literal
    /\ Writer.methodStub method_describe
       = "    public " ++ ReturnType method_describe ++ " "
           ++ MethodName method_describe ++ "("
           ++ String.concat ", "
                (map ParameterRoundTrip.render (Parameters_ method_describe))
           ++ ") {" ++ nl
           ++ "        return " ++ literal ++ ";" ++ nl
           ++ "    }" ++ nl ++ nl.
Proof.
  apply (scanned_method_stub "src/Foo.java" "Foo.java" java_Foo unit_Foo).
  - exact scan_Foo.
  - simpl. auto.
Defined.

(** X5. Stripping is idempotent: the text the stripper returns is returned
    unchanged when it is stripped again; so is every text without
    [private class ]. *)
Theorem removePrivateClasses_idempotent (input : string) :
  removePrivateClasses (removePrivateClasses input) = removePrivateClasses input
  /\ (Strings.Index input "private class " = None ->
      removePrivateClasses input = input).
Proof.
  split.
  - pose proof (Stripper.removePrivateClasses_loop_total input) as Hrun.
    apply Stripper.loop_sound in Hrun as [_ Hbreak].
    rewrite (Stripper.removePrivateClasses_unfold (removePrivateClasses input)).
    now rewrite Hbreak.
  - intros Hnone. rewrite Stripper.removePrivateClasses_unfold.
    unfold removePrivateClasses_turn. now rewrite Hnone.
Qed.

(** The visits that can change the result of a scan: errors and files whose
    name ends in [.java]. *)
Definition relevant (v : visit) : bool :=
  match v with
  | VisitError _ => true
  | VisitDir _ _ => false
  | VisitFile _ name _ => Strings.HasSuffix name ".java"
  end.

Lemma Walk_relevant (visits : list visit) :
  forall acc, Walk (filter relevant visits) acc = Walk visits acc.
Proof.
  induction visits as [|v rest IH]; intros acc; [reflexivity|].
  cbn [filter]. destruct (relevant v) eqn:Hv.
  - cbn [Walk]. destruct (ScanForSSOs_visit acc v) as [acc' [e|]]; [reflexivity | apply IH].
  - rewrite IH. cbn [Walk].
    destruct v as [p|p n|p n c]; cbn [relevant] in Hv; try discriminate;
      cbn [ScanForSSOs_visit]; [reflexivity|].
    now rewrite Hv.
Qed.

(** X6. Directories and files whose name does not end in [.java] are inert:
    a scan returns the same units and the same error when they are left out
    of the traversal, even when such a file cannot be read. *)
Theorem scan_ignores_other_files
  (sort_Sort : ServerSideObjectList -> ServerSideObjectList) (visits : list visit) :
  ScanForSSOs sort_Sort (filter relevant visits) = ScanForSSOs sort_Sort visits
  /\ (forall path name content,
         Strings.HasSuffix name ".java" = false ->
         ScanForSSOs sort_Sort (visits ++ [VisitFile path name content])
         = ScanForSSOs sort_Sort visits).
Proof.
  split.
  - unfold ScanForSSOs. now rewrite Walk_relevant.
  - intros path name content Hname. unfold ScanForSSOs.
    rewrite <- (Walk_relevant (visits ++ _)), filter_app. cbn [filter relevant].
    rewrite Hname, app_nil_r, Walk_relevant. reflexivity.
Qed.

(** A visit at which the walk function returns an error: an error reported
    by the walk itself, or a [.java] file that cannot be opened or read. *)
Definition fails_at (v : visit) (path : string) : Prop :=
  v = VisitError path
  \/ exists name, v = VisitFile path name None /\ Strings.HasSuffix name ".java" = true.

(** X7. The first error ends the scan: the visits after it are not looked
    at, and the scan returns that error together with the units collected
    before it, sorted. *)
Theorem scan_stops_at_first_error
  (sort_Sort : ServerSideObjectList -> ServerSideObjectList)
  (before after : list visit) (v : visit) (path : string) :
  snd (Walk before []) = None ->
  fails_at v path ->
  ScanForSSOs sort_Sort (before ++ v :: after)
  = (sort_Sort (fst (Walk before [])), Some (PathError path)).
Proof.
  intros Hok Hfail.
  assert (Hv : forall acc, ScanForSSOs_visit acc v = (acc, Some (PathError path))).
  { intros acc. destruct Hfail as [-> | (name & -> & Hname)]; cbn [ScanForSSOs_visit];
      [reflexivity | now rewrite Hname]. }
  assert (Hwalk : forall visits acc,
             snd (Walk visits acc) = None ->
             Walk (visits ++ v :: after) acc
             = (fst (Walk visits acc), Some (PathError path))).
  { induction visits as [|w rest IH]; intros acc H.
    - cbn [app Walk fst]. now rewrite Hv.
    - cbn [app Walk] in *. destruct (ScanForSSOs_visit acc w) as [acc' [e|]].
      + discriminate.
      + now apply IH. }
  unfold ScanForSSOs. now rewrite (Hwalk before [] Hok).
Qed.

Lemma scan_stops_at_first_error_witness :
  ScanForSSOs ClassNameSort.sort
    (visits_sample ++ VisitFile "src/Bad.java" "Bad.java" None
       :: [VisitFile "src/Foo2.java" "Foo.java" (Some java_Foo)])
  = ([unit_Counter; unit_Foo], Some (PathError "src/Bad.java")).
Proof.
  rewrite (scan_stops_at_first_error ClassNameSort.sort visits_sample _ _ "src/Bad.java").
  - vm_compute. reflexivity.
  - vm_compute. reflexivity.
  - right. exists "Bad.java". split; reflexivity.
Defined.

(** [filepath.Ext] of a name that ends in [.java]. *)
Lemma Ext_java (base : string) : Filepath.Ext (base ++ ".java") = ".java".
Proof.
  assert (Hext : forall a, Filepath.ext_from (a ++ ".java") = Some ".java").
  { induction a as [|c a IH]; [reflexivity|].
    cbn [append Filepath.ext_from]. now rewrite IH. }
  assert (Hlast : exists x, Filepath.last_element (base ++ ".java") = x ++ ".java").
  { induction base as [|c t IH]; [now exists EmptyString|].
    cbn [append Filepath.last_element].
    destruct (Strings.Index (t ++ ".java") "/"); [exact IH|].
    destruct (Ascii.eqb c "/"); [now exists t | now exists (String c t)]. }
  destruct Hlast as [x Hx]. unfold Filepath.Ext. now rewrite Hx, Hext.
Qed.

(** A unit built from a file whose name ends in [.java]. *)
Lemma file_unit_named (path name text : string) (sso : ServerSideObject) :
  Strings.HasSuffix name ".java" = true ->
  ScanForSSOs_file path name text = Some sso ->
  name = ClassName sso ++ ".java"
  /\ FilePath sso = path
  /\ Strings.Index (normalize text)
       ("class " ++ ClassName sso ++ " extends ServerSideObject") <> None.
Proof.
  intros Hname Hscan.
  assert (Hsplit : name = Strings.take (String.length name - 5) name ++ ".java").
  { unfold Strings.HasSuffix in Hname. apply andb_true_iff in Hname as [_ Hdrop].
    apply String.eqb_eq in Hdrop. simpl in Hdrop.
    rewrite <- Hdrop. symmetry. apply StringFacts.take_drop. }
  set (base := Strings.take (String.length name - 5) name) in *.
  unfold ScanForSSOs_file in Hscan. rewrite Hsplit in Hscan.
  rewrite Ext_java, StringFacts.length_append in Hscan.
  replace (String.length base + String.length ".java" - String.length ".java")
    with (String.length base) in Hscan by (simpl; lia).
  rewrite StringFacts.take_append in Hscan.
  destruct (Regexp.MatchString _ _); [|discriminate].
  destruct (Strings.Index _ _) as [classStart|] eqn:Hstart; [|discriminate].
  destruct (Strings.LastIndex _ _) as [classEnd|]; [|discriminate].
  destruct (Nat.leb classEnd classStart); [discriminate|].
  injection Hscan as <-. cbn [ClassName FilePath].
  split; [exact Hsplit|]. split; [reflexivity|]. now rewrite Hstart.
Qed.

(** X8. The file name wins: a unit built from a [.java] file has the file
    name without [.java] as its class name and the path of the file as its
    file path, whatever class the text declares; and the normalized text
    then has [class <ClassName> extends ServerSideObject] in it. *)
Theorem unit_named_after_file (acc : ServerSideObjectList) (path name text : string)
  (sso : ServerSideObject) :
  ScanForSSOs_visit acc (VisitFile path name (Some text)) = ((acc ++ [sso])%list, None) ->
  name = ClassName sso ++ ".java"
  /\ FilePath sso = path
  /\ Strings.Index (normalize text)
       ("class " ++ ClassName sso ++ " extends ServerSideObject") <> None.
Proof.
  cbn [ScanForSSOs_visit].
  destruct (Strings.HasSuffix name ".java") eqn:Hname;
    [|intros [= H]; apply (f_equal (@List.length _)) in H;
      rewrite length_app in H; simpl in H; lia].
  destruct (ScanForSSOs_file path name text) as [sso'|] eqn:Hscan;
    [|intros [= H]; apply (f_equal (@List.length _)) in H;
      rewrite length_app in H; simpl in H; lia].
  intros [= H]. apply app_inv_head in H. injection H as ->.
  now apply file_unit_named.
Qed.

Lemma unit_named_after_file_witness :
  "Foo.java" = ClassName unit_Foo ++ ".java"
  /\ FilePath unit_Foo = "src/Foo.java"
  /\ Strings.Index (normalize java_Foo)
       ("class " ++ ClassName unit_Foo ++ " extends ServerSideObject") <> None.
Proof.
  apply (unit_named_after_file [] "src/Foo.java" "Foo.java" java_Foo unit_Foo).
  vm_compute. reflexivity.
Defined.

(** ** What a pattern matches *)

Module RegexpSem.
Import Regexp StringFacts FieldsFacts.

(** [sem r w c c']: the text [w] is matched by [r], and the captures go from
    [c] to [c']. *)
Inductive sem : regex -> string -> captures -> captures -> Prop :=
| sem_Eps (c : captures) : sem Eps EmptyString c c
| sem_Class (f : ascii -> bool) (a : ascii) (c : captures) :
    f a = true -> sem (Class f) (String a EmptyString) c c
| sem_Lit (l : string) (c : captures) : sem (Lit l) l c c
| sem_Cat (r1 r2 : regex) (w1 w2 : string) (c c1 c2 : captures) :
    sem r1 w1 c c1 -> sem r2 w2 c1 c2 -> sem (Cat r1 r2) (w1 ++ w2) c c2
| sem_Alt_left (r1 r2 : regex) (w : string) (c c' : captures) :
    sem r1 w c c' -> sem (Alt r1 r2) w c c'
| sem_Alt_right (r1 r2 : regex) (w : string) (c c' : captures) :
    sem r2 w c c' -> sem (Alt r1 r2) w c c'
| sem_Star_stop (r : regex) (c : captures) : sem (Star r) EmptyString c c
| sem_Star_turn (r : regex) (w1 w2 : string) (c c1 c2 : captures) :
    sem r w1 c c1 -> sem (Star r) w2 c1 c2 -> sem (Star r) (w1 ++ w2) c c2
| sem_Group (n : nat) (r : regex) (w : string) (c c' : captures) :
    sem r w c c' -> sem (Group n r) w c ((n, w) :: c').

(** The matcher is sound: what it consumes is matched by the pattern, and
    the captures it hands on are those of that match. *)
Lemma run_sound {A : Type} (r : regex) :
  forall pos s c (k : @cont A) res,
    run r pos s c k = Some res ->
    exists w s' c',
      s = w ++ s' /\ sem r w c c' /\ k (pos + String.length w) s' c' = Some res.
Proof.
  induction r as [|f|l|r1 IH1 r2 IH2|r1 IH1 r2 IH2|r1 IH1|g r1 IH1];
    intros pos s c k res H; cbn [run] in H.
  - exists EmptyString, s, c. simpl. rewrite Nat.add_0_r.
    repeat split; [constructor | exact H].
  - destruct s as [|a t]; [discriminate|].
    destruct (f a) eqn:Hf; [|discriminate].
    exists (String a EmptyString), t, c. simpl. rewrite Nat.add_1_r.
    repeat split; [now constructor | exact H].
  - destruct (Strings.HasPrefix s l) eqn:Hp; [|discriminate].
    exists l, (Strings.drop (String.length l) s), c.
    repeat split; [now apply HasPrefix_inv | constructor | exact H].
  - apply IH1 in H as (w1 & s1 & c1 & -> & Hs1 & H).
    apply IH2 in H as (w2 & s2 & c2 & -> & Hs2 & H).
    exists (w1 ++ w2), s2, c2. rewrite append_assoc, length_append, Nat.add_assoc.
    repeat split; [econstructor; eassumption | exact H].
  - unfold orelse in H. destruct (run r1 pos s c k) eqn:H1.
    + injection H as <-. apply IH1 in H1 as (w & s' & c' & -> & Hs & H1).
      exists w, s', c'. repeat split; [now apply sem_Alt_left | exact H1].
    + apply IH2 in H as (w & s' & c' & -> & Hs & H).
      exists w, s', c'. repeat split; [now apply sem_Alt_right | exact H].
  - revert H. generalize (String.length s). intros fuel.
    revert pos s c. induction fuel as [|fuel IHf]; intros pos s c H;
      cbn [star_loop] in H.
    + exists EmptyString, s, c. simpl. rewrite Nat.add_0_r.
      repeat split; [constructor | exact H].
    + unfold orelse in H.
      match type of H with
      | match ?x with _ => _ end = _ => destruct x eqn:Hx
      end.
      * injection H as <-.
        apply IH1 in Hx as (w1 & s1 & c1 & -> & Hs1 & Hx).
        destruct (Nat.ltb pos (pos + String.length w1)); [|discriminate].
        apply IHf in Hx as (w2 & s2 & c2 & -> & Hs2 & Hx).
        exists (w1 ++ w2), s2, c2.
        rewrite append_assoc, length_append, Nat.add_assoc.
        repeat split; [econstructor; eassumption | exact Hx].
      * exists EmptyString, s, c. simpl. rewrite Nat.add_0_r.
        repeat split; [constructor | exact H].
  - apply IH1 in H as (w & s' & c' & -> & Hs & H).
    exists w, s', ((g, w) :: c').
    replace (pos + String.length w - pos) with (String.length w) in H by lia.
    rewrite take_append in H.
    repeat split; [now constructor | exact H].
Qed.

(** A match found by the search is a piece of the text that the pattern
    matches; its offsets are those of the piece. *)
Lemma search_sound (r : regex) (s : string) :
  forall pos b e c,
    search r pos s = Some (b, e, c) ->
    exists pre w post,
      s = pre ++ w ++ post /\ sem r w [] c
      /\ b = pos + String.length pre /\ e = b + String.length w.
Proof.
  induction s as [|a t IH]; intros pos b e c H; cbn [search] in H.
  - destruct (run r pos "" [] _) as [m|] eqn:Hr; [|discriminate].
    injection H as ->.
    apply run_sound in Hr as (w & s' & c' & Hs & Hsem & Hr).
    injection Hr as <- <- <-.
    exists EmptyString, w, s'. simpl. rewrite Nat.add_0_r. auto.
  - destruct (run r pos (String a t) [] _) as [m|] eqn:Hr.
    + injection H as ->.
      apply run_sound in Hr as (w & s' & c' & Hs & Hsem & Hr).
      injection Hr as <- <- <-.
      exists EmptyString, w, s'. simpl. rewrite Nat.add_0_r. auto.
    + apply IH in H as (pre & w & post & -> & Hsem & -> & ->).
      exists (String a pre), w, post. simpl.
      repeat split; [exact Hsem | lia].
Qed.

(** The search finds a match when the matcher succeeds at some offset. *)
Lemma search_complete (r : regex) (pre : string) :
  forall pos rest,
    run r (pos + String.length pre) rest [] (fun e _ c => Some (pos + String.length pre, e, c))
    <> None ->
    search r pos (pre ++ rest) <> None.
Proof.
  induction pre as [|a pre IH]; intros pos rest H.
  - simpl in *. rewrite Nat.add_0_r in H.
    destruct rest; cbn [search];
      match goal with
      | |- context [run r pos ?s [] ?k] => destruct (run r pos s [] k); congruence
      end.
  - cbn [append search].
    match goal with
    | |- context [run r pos ?s [] ?k] => destruct (run r pos s [] k); [discriminate|]
    end.
    apply IH. cbn [String.length] in H.
    now replace (S pos + String.length pre) with (pos + S (String.length pre)) by lia.
Qed.

(** The submatches of a match found in [text] from offset [pos] on. *)
Lemma submatches_sound (r : regex) (ngroups : nat) (text : string) (pos b e : nat)
  (c : captures) :
  search r pos (Strings.drop pos text) = Some (b, e, c) ->
  exists pre w post,
    text = pre ++ w ++ post /\ sem r w [] c
    /\ submatches text ngroups (b, e, c) = w :: map (capture c) (seq 1 ngroups).
Proof.
  intros H. apply search_sound in H as (pre & w & post & Hs & Hsem & -> & ->).
  exists (Strings.take pos text ++ pre), w, post.
  split; [rewrite append_assoc, <- Hs; symmetry; apply take_drop|].
  split; [exact Hsem|].
  cbn [submatches]. f_equal. unfold Strings.slice.
  rewrite drop_plus, Hs, drop_append.
  replace (pos + String.length pre + String.length w - (pos + String.length pre))
    with (String.length w) by lia.
  apply take_append.
Qed.

Lemma all_from_sound (r : regex) (ngroups : nat) (text : string) (fuel : nat) :
  forall pos prevEnd m,
    In m (all_from fuel r ngroups text pos prevEnd) ->
    exists pre w post c,
      text = pre ++ w ++ post /\ sem r w [] c
      /\ m = w :: map (capture c) (seq 1 ngroups).
Proof.
  induction fuel as [|fuel IH]; intros pos prevEnd m; cbn [all_from]; [contradiction|].
  destruct (Nat.ltb (String.length text) pos); [contradiction|].
  destruct (search r pos (Strings.drop pos text)) as [[[b e] c]|] eqn:Hs; [|contradiction].
  destruct (submatches_sound r ngroups text pos b e c Hs) as (pre & w & post & Ht & Hsem & Hm).
  assert (Hhere : forall m', m' = submatches text ngroups (b, e, c) ->
            exists pre w post c,
              text = pre ++ w ++ post /\ sem r w [] c
              /\ m' = w :: map (capture c) (seq 1 ngroups)).
  { intros m' ->. exists pre, w, post, c. auto. }
  destruct (Nat.eqb e pos).
  - destruct prevEnd as [p|]; [destruct (Nat.eqb b p)|]; simpl;
      intros H; try (destruct H as [<- | H]; [now apply Hhere|]); eapply IH, H.
  - simpl. intros [<- | H]; [now apply Hhere | eapply IH, H].
Qed.

(** What a starred class matches: bytes of the class, captures unchanged. *)
Lemma sem_Star_Class (f : ascii -> bool) (w : string) (c c' : captures) :
  sem (Star (Class f)) w c c' -> every f w = true /\ c' = c.
Proof.
  intros H. remember (Star (Class f)) as r eqn:Hr.
  induction H as [| | | | | |r0 c0|r0 w1 w2 c0 c1 c2 H1 _ H2 IH2|]; try discriminate.
  - split; reflexivity.
  - injection Hr as ->. destruct (IH2 eq_refl) as [Hw2 ->].
    inversion H1; subst. simpl. rewrite Hw2.
    split; [now rewrite andb_true_r | reflexivity].
Qed.

Lemma sem_Plus_Class (f : ascii -> bool) (w : string) (c c' : captures) :
  sem (Plus (Class f)) w c c' ->
  w <> EmptyString /\ every f w = true /\ c' = c.
Proof.
  unfold Plus. intros H. inversion H as [| | |r1 r2 w1 w2 c0 c1 c2 H1 H2| | | | |]; subst.
  inversion H1; subst. apply sem_Star_Class in H2 as [Hw2 ->].
  simpl. rewrite Hw2. repeat split; [discriminate | now rewrite andb_true_r].
Qed.

Lemma run_Cat {A : Type} (r1 r2 : regex) (pos : nat) (s : string) (c : captures)
  (k : @cont A) :
  run (Cat r1 r2) pos s c k = run r1 pos s c (fun pos' s' c' => run r2 pos' s' c' k).
Proof. reflexivity. Qed.

Lemma run_Lit_append {A : Type} (l s : string) (pos : nat) (c : captures)
  (k : @cont A) :
  run (Lit l) pos (l ++ s) c k = k (pos + String.length l) s c.
Proof. cbn [run]. now rewrite HasPrefix_append, drop_append. Qed.

Lemma run_Star {A : Type} (r : regex) (pos : nat) (s : string) (c : captures)
  (k : @cont A) :
  run (Star r) pos s c k = star_loop (run r) k (String.length s) pos s c.
Proof. reflexivity. Qed.

Lemma run_Class_cons {A : Type} (f : ascii -> bool) (pos : nat) (a : ascii)
  (t : string) (c : captures) (k : @cont A) :
  run (Class f) pos (String a t) c k = if f a then k (S pos) t c else None.
Proof. reflexivity. Qed.

(** The greedy loop over a class succeeds on a run of bytes of the class
    when the continuation succeeds after the run. *)
Lemma star_loop_Class_complete {A : Type} (f : ascii -> bool) (k : @cont A)
  (w : string) :
  forall fuel pos rest c,
    every f w = true -> String.length w <= fuel ->
    k (pos + String.length w) rest c <> None ->
    star_loop (run (Class f)) k fuel pos (w ++ rest) c <> None.
Proof.
  induction w as [|a w IH]; intros fuel pos rest c Hw Hfuel Hk.
  - simpl in Hk. rewrite Nat.add_0_r in Hk. cbn [append].
    destruct fuel; cbn [star_loop]; [exact Hk|].
    unfold orelse. destruct (run (Class f) pos rest c _); [discriminate | exact Hk].
  - destruct fuel as [|fuel]; [simpl in Hfuel; lia|].
    cbn [every] in Hw. apply andb_true_iff in Hw as [Ha Hw].
    cbn [append star_loop]. rewrite run_Class_cons, Ha.
    destruct (Nat.ltb_spec pos (S pos)) as [_|]; [|lia].
    unfold orelse.
    destruct (star_loop (run (Class f)) k fuel (S pos) (w ++ rest) c) eqn:Hloop;
      [discriminate|].
    exfalso. revert Hloop. apply IH; [exact Hw | simpl in Hfuel; lia|].
    cbn [String.length] in Hk.
    now replace (S pos + String.length w) with (pos + S (String.length w)) by lia.
Qed.

End RegexpSem.

Module PatternFacts.
Import Regexp RegexpSem StringFacts FieldsFacts.

Lemma sem_Cat_inv (r1 r2 : regex) (w : string) (c c2 : captures) :
  sem (Cat r1 r2) w c c2 ->
  exists w1 w2 c1, w = w1 ++ w2 /\ sem r1 w1 c c1 /\ sem r2 w2 c1 c2.
Proof. intros H. inversion H; subst. eauto 7. Qed.

Lemma sem_Lit_inv (l w : string) (c c' : captures) :
  sem (Lit l) w c c' -> w = l /\ c' = c.
Proof. intros H. inversion H; subst. auto. Qed.

Lemma sem_Group_inv (n : nat) (r : regex) (w : string) (c c' : captures) :
  sem (Group n r) w c c' -> exists c1, sem r w c c1 /\ c' = (n, w) :: c1.
Proof. intros H. inversion H; subst. eauto. Qed.

(** A pattern without groups. *)
Fixpoint groupless (r : regex) : bool :=
  match r with
  | Eps | Class _ | Lit _ => true
  | Cat r1 r2 | Alt r1 r2 => groupless r1 && groupless r2
  | Star r1 => groupless r1
  | Group _ _ => false
  end.

Lemma sem_groupless (r : regex) (w : string) (c c' : captures) :
  sem r w c c' -> groupless r = true -> c' = c.
Proof.
  induction 1 as [| | |r1 r2 w1 w2 c c1 c2 _ IH1 _ IH2|r1 r2 w c c' _ IH
                 |r1 r2 w c c' _ IH| |r w1 w2 c c1 c2 _ IH1 _ IH2|];
    cbn [groupless]; intros Hg; try reflexivity; try discriminate.
  - apply andb_true_iff in Hg as [H1 H2]. now rewrite (IH2 H2), (IH1 H1).
  - apply andb_true_iff in Hg as [H1 _]. auto.
  - apply andb_true_iff in Hg as [_ H2]. auto.
  - now rewrite (IH2 Hg), (IH1 Hg).
Qed.

(** The character classes of the patterns. *)
Definition identifier_char (c : ascii) : bool :=
  Patterns.alnum c || Patterns.one_of "_$" c.
Definition package_char (c : ascii) : bool :=
  Patterns.alnum c || Patterns.one_of "_." c.
Definition return_type_char (c : ascii) : bool :=
  Patterns.alnum c || Patterns.one_of "_$<>[]" c.
Definition field_type_char (c : ascii) : bool :=
  Patterns.alnum c || Patterns.one_of "_$[]" c.
Definition not_paren (c : ascii) : bool := negb (Ascii.eqb c ")"%char).

(** The class of [Patterns.space]: tab, line feed, form feed, carriage
    return, space. *)
Definition space_char (c : ascii) : bool :=
  match nat_of_ascii c with
  | 9 | 10 | 12 | 13 | 32 => true
  | _ => false
  end.

(** What the class pattern matches. *)
Lemma sem_classPattern (w : string) (c : captures) :
  sem Patterns.classPattern w [] c ->
  exists id, w = "public class " ++ id ++ " extends ServerSideObject"
             /\ id <> EmptyString /\ every identifier_char id = true.
Proof.
  unfold Patterns.classPattern. cbn [Patterns.cat]. intros H.
  apply sem_Cat_inv in H as (w1 & ? & c1 & -> & H1 & H).
  apply sem_Cat_inv in H as (id & w3 & c2 & -> & H2 & H3).
  apply sem_Lit_inv in H1 as [-> ->]. apply sem_Lit_inv in H3 as [-> _].
  apply sem_Plus_Class in H2 as (Hne & Hid & _).
  exists id. auto.
Qed.

(** What the package pattern matches, and what it captures. *)
Lemma sem_packagePattern (w : string) (c : captures) :
  sem Patterns.packagePattern w [] c ->
  exists id, w = "package " ++ id ++ ";" /\ c = [(1, id)]
             /\ id <> EmptyString /\ every package_char id = true.
Proof.
  unfold Patterns.packagePattern. cbn [Patterns.cat]. intros H.
  apply sem_Cat_inv in H as (w1 & ? & c1 & -> & H1 & H).
  apply sem_Cat_inv in H as (id & w3 & c2 & -> & H2 & H3).
  apply sem_Lit_inv in H1 as [-> ->]. apply sem_Lit_inv in H3 as [-> ->].
  apply sem_Group_inv in H2 as (c3 & H2 & ->).
  apply sem_Plus_Class in H2 as (Hne & Hid & ->).
  exists id. auto.
Qed.

(** What the method pattern matches, and what it captures. *)
Lemma sem_methodPattern (w : string) (c : captures) :
  sem Patterns.methodPattern w [] c ->
  exists sp1 type sp2 name sp3 params,
    w = "public" ++ sp1 ++ type ++ sp2 ++ name ++ sp3 ++ "(" ++ params ++ ")"
    /\ c = [(3, params); (2, name); (1, type)]
    /\ type <> EmptyString /\ every return_type_char type = true
    /\ name <> EmptyString /\ every identifier_char name = true
    /\ every not_paren params = true
    /\ sp1 <> EmptyString /\ every space_char sp1 = true
    /\ sp2 <> EmptyString /\ every space_char sp2 = true
    /\ every space_char sp3 = true.
Proof.
  unfold Patterns.methodPattern, Patterns.space. cbn [Patterns.cat]. intros H.
  apply sem_Cat_inv in H as (w0 & ? & c0 & -> & H0 & H).
  apply sem_Lit_inv in H0 as [-> ->].
  apply sem_Cat_inv in H as (sp1 & ? & c1 & -> & H1 & H).
  apply sem_Plus_Class in H1 as (Hs1 & Hsp1 & ->).
  apply sem_Cat_inv in H as (type & ? & c2 & -> & H2 & H).
  apply sem_Group_inv in H2 as (c2' & H2 & ->).
  apply sem_Plus_Class in H2 as (Hty0 & Hty & ->).
  apply sem_Cat_inv in H as (sp2 & ? & c3 & -> & H3 & H).
  apply sem_Plus_Class in H3 as (Hs2 & Hsp2 & ->).
  apply sem_Cat_inv in H as (name & ? & c4 & -> & H4 & H).
  apply sem_Group_inv in H4 as (c4' & H4 & ->).
  apply sem_Plus_Class in H4 as (Hnm0 & Hnm & ->).
  apply sem_Cat_inv in H as (sp3 & ? & c5 & -> & H5 & H).
  apply sem_Star_Class in H5 as [Hsp3 ->].
  apply sem_Cat_inv in H as (w6 & ? & c6 & -> & H6 & H).
  apply sem_Lit_inv in H6 as [-> ->].
  apply sem_Cat_inv in H as (params & w7 & c7 & -> & H7 & H8).
  apply sem_Group_inv in H7 as (c7' & H7 & ->).
  apply sem_Star_Class in H7 as [Hps ->].
  apply sem_Lit_inv in H8 as [-> ->].
  exists sp1, type, sp2, name, sp3, params. repeat split; auto.
Qed.

(** What the field pattern captures. *)
Lemma sem_publicFieldPattern (w : string) (c : captures) :
  sem Patterns.publicFieldPattern w [] c ->
  exists type name,
    c = [(2, name); (1, type)]
    /\ type <> EmptyString /\ every field_type_char type = true
    /\ name <> EmptyString /\ every identifier_char name = true.
Proof.
  unfold Patterns.publicFieldPattern. cbn [Patterns.cat]. intros H.
  apply sem_Cat_inv in H as (w0 & ? & c0 & -> & H0 & H).
  apply sem_Lit_inv in H0 as [-> ->].
  apply sem_Cat_inv in H as (mods & ? & c1 & -> & H1 & H).
  apply sem_groupless in H1 as ->; [|reflexivity].
  apply sem_Cat_inv in H as (sp1 & ? & c2 & -> & H2 & H).
  apply sem_groupless in H2 as ->; [|reflexivity].
  apply sem_Cat_inv in H as (type & ? & c3 & -> & H3 & H).
  apply sem_Group_inv in H3 as (c3' & H3 & ->).
  apply sem_Plus_Class in H3 as (Hty0 & Hty & ->).
  apply sem_Cat_inv in H as (sp2 & ? & c4 & -> & H4 & H).
  apply sem_groupless in H4 as ->; [|reflexivity].
  apply sem_Cat_inv in H as (name & ? & c5 & -> & H5 & H).
  apply sem_Group_inv in H5 as (c5' & H5 & ->).
  apply sem_Plus_Class in H5 as (Hnm0 & Hnm & ->).
  apply sem_groupless in H as ->; [|reflexivity].
  exists type, name. repeat split; auto.
Qed.

(** The first occurrence of a byte after a text that does not have it. *)
Lemma Index_byte (ch : ascii) (a rest : string) :
  every (fun c => negb (Ascii.eqb c ch)) a = true ->
  Strings.Index (a ++ String ch rest) (String ch EmptyString) = Some (String.length a).
Proof.
  induction a as [|c a IH]; intros H.
  - cbn [append]. rewrite Index_cons, HasPrefix_char. now rewrite Ascii.eqb_refl.
  - cbn [append every String.length] in *. apply andb_true_iff in H as [Hc Ha].
    rewrite Index_cons, HasPrefix_char, Ascii.eqb_sym.
    apply negb_true_iff in Hc. rewrite Hc. now rewrite IH.
Qed.

End PatternFacts.

(** X9. Which texts qualify: the class pattern matches a text exactly when
    the text has [public class <id> extends ServerSideObject] in it, for an
    identifier [<id>] that is not empty and is made of letters, digits,
    [_] and [$]; a file whose normalized text has no such declaration gives
    no unit. *)
Theorem qualifying_text (text : string) :
  (Regexp.MatchString Patterns.classPattern text = true <->
   exists pre id post,
     text = pre ++ "public class " ++ id ++ " extends ServerSideObject" ++ post
     /\ id <> EmptyString
     /\ FieldsFacts.every PatternFacts.identifier_char id = true)
  /\ (forall path name content,
         normalize content = text ->
         Regexp.MatchString Patterns.classPattern text = false ->
         ScanForSSOs_file path name content = None).
Proof.
  split; [split|].
  - unfold Regexp.MatchString.
    destruct (Regexp.search Patterns.classPattern 0 text) as [[[b e] c]|] eqn:Hs;
      [|discriminate].
    intros _. apply RegexpSem.search_sound in Hs as (pre & w & post & -> & Hsem & _).
    apply PatternFacts.sem_classPattern in Hsem as (id & -> & Hne & Hid).
    exists pre, id, post. rewrite !StringFacts.append_assoc. auto.
  - intros (pre & id & post & -> & Hne & Hid).
    unfold Regexp.MatchString.
    pose proof (RegexpSem.search_complete Patterns.classPattern pre 0
                  ("public class " ++ id ++ " extends ServerSideObject" ++ post)) as H.
    destruct (Regexp.search Patterns.classPattern 0 _); [reflexivity|].
    exfalso. apply H; [|reflexivity]. clear H.
    unfold Patterns.classPattern. cbn [Patterns.cat].
    change (fun c : ascii => Patterns.alnum c || Patterns.one_of "_$" c)
      with PatternFacts.identifier_char.
    set (tail := " extends ServerSideObject" ++ post).
    rewrite RegexpSem.run_Cat, RegexpSem.run_Lit_append. cbv beta.
    rewrite RegexpSem.run_Cat. unfold Regexp.Plus. rewrite RegexpSem.run_Cat.
    destruct id as [|a id]; [contradiction|].
    cbn [FieldsFacts.every] in Hid. apply andb_true_iff in Hid as [Ha Hid].
    cbn [append]. rewrite RegexpSem.run_Class_cons, Ha, RegexpSem.run_Star.
    apply RegexpSem.star_loop_Class_complete.
    + exact Hid.
    + rewrite StringFacts.length_append. lia.
    + unfold tail. now rewrite RegexpSem.run_Lit_append.
  - intros path name content <- Hno. unfold ScanForSSOs_file. now rewrite Hno.
Qed.

(** X10. The package name of a unit comes from the text: it is empty, or it
    is a run of letters, digits, [_] and [.] and the normalized text has
    [package <name>;] in it. In both cases the first line of the stub file
    is [package <name>;]. *)
Theorem package_line_from_text (path name content : string) (sso : ServerSideObject) :
  ScanForSSOs_file path name content = Some sso ->
  (PackageLine sso = EmptyString
   \/ exists pre post,
        normalize content = pre ++ "package " ++ PackageLine sso ++ ";" ++ post)
  /\ FieldsFacts.every PatternFacts.package_char (PackageLine sso) = true
  /\ first_line (Writer.stub sso) = "package " ++ PackageLine sso ++ ";".
Proof.
  intros Hscan.
  assert (Hpkg : (PackageLine sso = EmptyString
                  \/ exists pre post,
                       normalize content
                       = pre ++ "package " ++ PackageLine sso ++ ";" ++ post)
                 /\ FieldsFacts.every PatternFacts.package_char (PackageLine sso) = true).
  { unfold ScanForSSOs_file in Hscan.
    destruct (Regexp.MatchString _ _); [|discriminate].
    destruct (Strings.Index _ _) as [classStart|]; [|discriminate].
    destruct (Strings.LastIndex _ _) as [classEnd|]; [|discriminate].
    destruct (Nat.leb classEnd classStart); [discriminate|].
    injection Hscan as <-. cbn [PackageLine].
    unfold Regexp.FindStringSubmatch.
    destruct (Regexp.search Patterns.packagePattern 0 (normalize content))
      as [[[b e] c]|] eqn:Hs; cbn [option_map]; [|split; [now left | reflexivity]].
    destruct (RegexpSem.submatches_sound Patterns.packagePattern 1 (normalize content)
                0 b e c Hs) as (pre & w & post & Htext & Hsem & ->).
    apply PatternFacts.sem_packagePattern in Hsem as (id & -> & -> & Hne & Hid).
    cbn. split; [right; exists pre, post|exact Hid].
    rewrite Htext, !StringFacts.append_assoc. reflexivity. }
  split; [exact (proj1 Hpkg)|]. split; [exact (proj2 Hpkg)|].
  rewrite WriterFacts.stub_stub_text. unfold WriterFacts.stub_text, first_line.
  match goal with
  | |- context [("public class " ++ ?a) ++ ?b] => set (rest := ("public class " ++ a) ++ b)
  end.
  replace (("package " ++ PackageLine sso ++ ";" ++ nl ++ nl) ++ rest)
    with (("package " ++ PackageLine sso ++ ";") ++ String "010"%char (nl ++ rest))
    by (rewrite !StringFacts.append_assoc; reflexivity).
  rewrite PatternFacts.Index_byte.
  - apply StringFacts.take_append.
  - rewrite !FieldsFacts.every_append.
    rewrite (FieldsFacts.every_impl PatternFacts.package_char _ (PackageLine sso));
      [reflexivity | | exact (proj2 Hpkg)].
    intros c Hc. destruct (Ascii.eqb_spec c "010"%char) as [->|]; [discriminate | reflexivity].
Qed.

Lemma package_line_from_text_witness :
  (PackageLine unit_Foo = EmptyString
   \/ exists pre post,
        normalize java_Foo = pre ++ "package " ++ PackageLine unit_Foo ++ ";" ++ post)
  /\ FieldsFacts.every PatternFacts.package_char (PackageLine unit_Foo) = true
  /\ first_line (Writer.stub unit_Foo) = "package " ++ PackageLine unit_Foo ++ ";".
Proof.
  apply (package_line_from_text "src/Foo.java" "Foo.java" java_Foo unit_Foo).
  exact scan_Foo.
Defined.

(** ** What the scanner extracts from a class text *)

Module ExtractionFacts.
Import Strings StringFacts FieldsFacts ParameterRoundTrip.

(** The pieces between commas have no comma. *)
Lemma split_from_no_comma (s : string) :
  forall cur,
    no_comma cur = true ->
    Forall (fun piece => no_comma piece = true) (split_from s "," 0 cur).
Proof.
  unfold no_comma.
  induction s as [|c s IH]; intros cur Hcur; cbn [split_from].
  - constructor; [exact Hcur | constructor].
  - rewrite HasPrefix_char. destruct (Ascii.eqb_spec "," c) as [<-|Hc].
    + cbn [String.length Nat.sub]. constructor; [exact Hcur | now apply IH].
    + apply IH. unfold snoc. rewrite every_append, Hcur. simpl.
      destruct (Ascii.eqb_spec c ","); [congruence | reflexivity].
Qed.

(** The tokens of a piece without a comma have no comma. *)
Lemma tokens_no_comma (pair : string) :
  no_comma pair = true ->
  Forall (fun t => no_comma t = true) (ParameterFacts.tokens pair).
Proof.
  intros H. unfold ParameterFacts.tokens. rewrite Fields_TrimSpace.
  now apply fields_from_every.
Qed.

(** The types and the names the scanner extracts can be written into a
    stub and read back: they are tokens and have no comma. *)
Lemma extracted_well_formed (paramString : string) :
  Forall (fun p => token (Type_ p) /\ token (Name p)
                   /\ no_comma (Type_ p) = true /\ no_comma (Name p) = true)
    (extractParameters paramString).
Proof.
  rewrite extractParameters_flat_map.
  pose proof (split_from_no_comma paramString EmptyString eq_refl) as Hpieces.
  fold (Split paramString ",") in Hpieces.
  induction Hpieces as [|pair pairs Hpair _ IH]; [constructor|].
  cbn [flat_map]. apply Forall_app. split; [|exact IH].
  pose proof (Fields_tokens (TrimSpace pair)) as Htok.
  fold (ParameterFacts.tokens pair) in Htok.
  pose proof (tokens_no_comma pair Hpair) as Hcomma.
  rewrite Forall_forall in Htok, Hcomma.
  pose proof (skip_leading_incl (ParameterFacts.tokens pair)) as Hincl.
  destruct (ParameterFacts.skip_leading (ParameterFacts.tokens pair))
    as [|type [|name more]]; cbn [ParameterFacts.parameter_of]; try constructor;
    [|constructor].
  simpl. repeat split;
    first [apply Htok, Hincl | apply Hcomma, Hincl]; simpl; auto.
Qed.

(** The method matches that pass the gates, as records. *)
Lemma declaredMethods_of_matches (classContent : string) (m : PublicMethod) :
  In m (declaredMethods_of classContent) ->
  exists match_,
    In match_ (Regexp.FindAllStringSubmatch Patterns.methodPattern 3
                 (removePrivateClasses classContent))
    /\ m = ScannerFacts.method_record match_.
Proof.
  unfold declaredMethods_of. rewrite ScannerFacts.fold_methods. simpl.
  rewrite in_map_iff. intros (match_ & <- & Hin).
  apply filter_In in Hin as [Hin _]. eauto.
Qed.

(** The loop over the field matches keeps every match. *)
Lemma fold_fields (matches : list (list string)) :
  forall acc,
    Forall (fun m => List.length m = 3) matches ->
    fold_left ScanForSSOs_field matches acc
    = (acc ++ map (fun m => {| FieldType := nth 1 m EmptyString;
                               FieldName := nth 2 m EmptyString |}) matches)%list.
Proof.
  induction matches as [|m ms IH]; intros acc H; cbn [fold_left map].
  - now rewrite app_nil_r.
  - inversion H as [|? ? Hm Hms]; subst. rewrite (IH _ Hms).
    unfold ScanForSSOs_field. rewrite Hm. cbn [Nat.leb].
    now rewrite <- app_assoc.
Qed.

End ExtractionFacts.

(** X11. Every method read from a class text stands in the stripped text:
    the text has [public], white space, the return type, white space, the
    method name, white space or nothing, then [(<params>)]. The two runs of
    white space around the return type are not empty, and all three are
    made of tabs, line feeds, form feeds, carriage returns and spaces. The
    return type is not empty and made of letters, digits, [_], [$], [<],
    [>], [[] and []]; the method name is an identifier that is not empty;
    the parameters are those extracted from [<params>], and [<params>] has
    no closing parenthesis. *)
Theorem extracted_method_occurs (classContent : string) (m : PublicMethod) :
  In m (declaredMethods_of classContent) ->
  exists pre sp1 sp2 sp3 params post,
    removePrivateClasses classContent
    = pre ++ "public" ++ sp1 ++ ReturnType m ++ sp2 ++ MethodName m ++ sp3
          ++ "(" ++ params ++ ")" ++ post
    /\ sp1 <> EmptyString
    /\ FieldsFacts.every PatternFacts.space_char sp1 = true
    /\ sp2 <> EmptyString
    /\ FieldsFacts.every PatternFacts.space_char sp2 = true
    /\ FieldsFacts.every PatternFacts.space_char sp3 = true
    /\ ReturnType m <> EmptyString
    /\ FieldsFacts.every PatternFacts.return_type_char (ReturnType m) = true
    /\ Parameters_ m = extractParameters params
    /\ AccessModifier m = "public"
    /\ MethodName m <> EmptyString
    /\ FieldsFacts.every PatternFacts.identifier_char (MethodName m) = true
    /\ FieldsFacts.every PatternFacts.not_paren params = true.
Proof.
  intros Hm.
  apply ExtractionFacts.declaredMethods_of_matches in Hm as (match_ & Hin & ->).
  apply RegexpSem.all_from_sound in Hin as (pre & w & post & c & Htext & Hsem & ->).
  apply PatternFacts.sem_methodPattern in Hsem
    as (sp1 & type & sp2 & name & sp3 & params & -> & -> & Ht0 & Ht & Hn0 & Hn & Hp
        & Hs1 & Hsp1 & Hs2 & Hsp2 & Hsp3).
  exists pre, sp1, sp2, sp3, params, post.
  cbn. rewrite Htext, !StringFacts.append_assoc. auto 15.
Qed.

Lemma extracted_method_occurs_witness :
  exists pre sp1 sp2 sp3 params post,
    removePrivateClasses (class_pre ++ class_post)
    = pre ++ "public" ++ sp1 ++ ReturnType method_isY ++ sp2 ++ MethodName method_isY
          ++ sp3 ++ "(" ++ params ++ ")" ++ post
    /\ sp1 <> EmptyString
    /\ FieldsFacts.every PatternFacts.space_char sp1 = true
    /\ sp2 <> EmptyString
    /\ FieldsFacts.every PatternFacts.space_char sp2 = true
    /\ FieldsFacts.every PatternFacts.space_char sp3 = true
    /\ ReturnType method_isY <> EmptyString
    /\ FieldsFacts.every PatternFacts.return_type_char (ReturnType method_isY) = true
    /\ Parameters_ method_isY = extractParameters params
    /\ AccessModifier method_isY = "public"
    /\ MethodName method_isY <> EmptyString
    /\ FieldsFacts.every PatternFacts.identifier_char (MethodName method_isY) = true
    /\ FieldsFacts.every PatternFacts.not_paren params = true.
Proof.
  apply (extracted_method_occurs (class_pre ++ class_post) method_isY).
  vm_compute. auto.
Defined.

(** X12. Fields are not filtered: every match of the field pattern in the
    stripped class text gives one field, whatever its type, and the length
    test of the loop never rejects a match. The type of a field is a run of
    letters, digits, [_], [$], [[] and []] that is not empty, its name an
    identifier that is not empty. *)
Theorem fields_not_filtered (classContent : string) :
  declaredFields_of classContent
  = map (fun m => {| FieldType := nth 1 m EmptyString;
                     FieldName := nth 2 m EmptyString |})
      (Regexp.FindAllStringSubmatch Patterns.publicFieldPattern 2
         (removePrivateClasses classContent))
  /\ Forall (fun f => FieldType f <> EmptyString
                      /\ FieldsFacts.every PatternFacts.field_type_char (FieldType f) = true
                      /\ FieldName f <> EmptyString
                      /\ FieldsFacts.every PatternFacts.identifier_char (FieldName f) = true)
       (declaredFields_of classContent).
Proof.
  assert (Heq : declaredFields_of classContent
                = map (fun m => {| FieldType := nth 1 m EmptyString;
                                   FieldName := nth 2 m EmptyString |})
                    (Regexp.FindAllStringSubmatch Patterns.publicFieldPattern 2
                       (removePrivateClasses classContent))).
  { unfold declaredFields_of. rewrite ExtractionFacts.fold_fields; [reflexivity|].
    apply Forall_forall. intros m Hm. eapply RegexpFacts.all_from_length, Hm. }
  split; [exact Heq|]. rewrite Heq.
  apply Forall_forall. intros f Hf.
  apply in_map_iff in Hf as (m & <- & Hm).
  apply RegexpSem.all_from_sound in Hm as (pre & w & post & c & _ & Hsem & ->).
  apply PatternFacts.sem_publicFieldPattern in Hsem
    as (type & name & -> & Ht0 & Ht & Hn0 & Hn).
  cbn. auto.
Qed.

(** X13. The parameters of every method of a unit built from a file
    survive the way through the stub: the scanner reads the parameter list
    that the writer prints for the method back as the parameters of the
    method. *)
Theorem scanned_parameters_round_trip (path name content : string)
  (sso : ServerSideObject) (m : PublicMethod) :
  ScanForSSOs_file path name content = Some sso ->
  In m (DeclaredMethods sso) ->
  extractParameters (Writer.signature_parameters 0 (Parameters_ m) EmptyString)
  = Parameters_ m.
Proof.
  intros Hscan Hm.
  apply ScannerFacts.ScanForSSOs_file_methods in Hscan as (classContent & Hmethods & _).
  rewrite Hmethods in Hm. apply in_app_iff in Hm as [Hm | [<- | []]]; [|reflexivity].
  apply ExtractionFacts.declaredMethods_of_matches in Hm as (match_ & _ & ->).
  cbn [ScannerFacts.method_record Parameters_].
  apply rendered_read_back, ExtractionFacts.extracted_well_formed.
Qed.

Lemma scanned_parameters_round_trip_witness :
  extractParameters
    (Writer.signature_parameters 0 (Parameters_ method_describe) EmptyString)
  = Parameters_ method_describe.
Proof.
  apply (scanned_parameters_round_trip "src/Foo.java" "Foo.java" java_Foo unit_Foo).
  - exact scan_Foo.
  - simpl. auto.
Defined.

(** ** The writer when a system call fails *)

Module WriterFailure.
Import Writer WriterFacts StringFacts.

Lemma write_methods_calls (fails : oracle) (path : string)
  (methods : list PublicMethod) :
  forall f f' r,
    write_methods fails path methods f = (inl r, f') ->
    calls f' = calls f + List.length methods.
Proof.
  induction methods as [|m ms IH]; intros f f' r; cbn [write_methods].
  - unfold ret. intros [= _ <-]. simpl. lia.
  - unfold bind, WriteString, syscall.
    destruct (fails (calls f)) as [[err n]|]; [discriminate|].
    intros H. apply IH in H. cbn [calls] in H. simpl. lia.
Qed.

(** The writes of a run, in order: the three header writes, one write per
    method, the closing brace. *)
Definition chunks (sso : ServerSideObject) : list string :=
  app [ "package " ++ PackageLine sso ++ ";" ++ nl ++ nl;
        "public class " ++ ClassName sso ++ " {" ++ nl ++ nl;
        "    public " ++ ClassName sso ++ "() {}" ++ nl ++ nl ]
    (app (map methodStub (DeclaredMethods sso)) [ "}" ++ nl ]).

Lemma chunks_length (sso : ServerSideObject) :
  List.length (chunks sso) = 4 + List.length (DeclaredMethods sso).
Proof. unfold chunks. cbn [app List.length]. rewrite length_app, length_map. simpl. lia. Qed.

Fixpoint write_chunks (fails : oracle) (path : string) (l : list string)
  : io unit :=
  match l with
  | [] => ret tt
  | chunk :: rest => WriteString fails path chunk ;; write_chunks fails path rest
  end.

Lemma write_chunks_app (fails : oracle) (path : string) (a b : list string) :
  forall f,
    write_chunks fails path (a ++ b) f
    = match write_chunks fails path a f with
      | (inl _, f') => write_chunks fails path b f'
      | (inr e, f') => (inr e, f')
      end.
Proof.
  induction a as [|x a IH]; intros f; cbn [app write_chunks]; [reflexivity|].
  unfold bind. destruct (WriteString fails path x f) as [[u|e] f1]; [apply IH | reflexivity].
Qed.

Lemma write_methods_chunks (fails : oracle) (path : string)
  (methods : list PublicMethod) :
  forall f,
    write_methods fails path methods f
    = write_chunks fails path (map methodStub methods) f.
Proof.
  induction methods as [|m ms IH]; intros f; cbn [map write_methods write_chunks];
    [reflexivity|].
  unfold bind. destruct (WriteString fails path (methodStub m) f) as [[u|e] f1];
    [apply IH | reflexivity].
Qed.

(** The writer is: make the directory, create the file, write the chunks. *)
Lemma WriteSimplifiedSSO_chunks (fails : oracle) (outputDir : string)
  (sso : ServerSideObject) (f : file) :
  WriteSimplifiedSSO fails outputDir sso f
  = match MkdirAll fails outputDir f with
    | (inl _, f1) =>
        match Create fails (Filepath.Join outputDir (ClassName sso ++ ".java")) f1 with
        | (inl _, f2) =>
            write_chunks fails (Filepath.Join outputDir (ClassName sso ++ ".java"))
              (chunks sso) f2
        | (inr e, f2) => (inr e, f2)
        end
    | (inr e, f1) => (inr e, f1)
    end.
Proof.
  unfold WriteSimplifiedSSO, bind, chunks.
  destruct (MkdirAll fails outputDir f) as [[u|e] f1]; [|reflexivity].
  destruct (Create fails _ f1) as [[u2|e] f2]; [|reflexivity].
  cbn [app write_chunks]. unfold bind.
  destruct (WriteString fails _ _ f2) as [[u3|e] f3]; [|reflexivity].
  destruct (WriteString fails _ _ f3) as [[u4|e] f4]; [|reflexivity].
  destruct (WriteString fails _ _ f4) as [[u5|e] f5]; [|reflexivity].
  rewrite write_chunks_app, write_methods_chunks.
  destruct (write_chunks fails _ (map methodStub (DeclaredMethods sso)) f5)
    as [[u6|e] f6]; reflexivity.
Qed.

(** A sequence of writes goes through, or it stops at its first call that
    fails: the texts of the writes before it are in the file, whole, then
    the bytes that the failing write put there. *)
Lemma write_chunks_run (fails : oracle) (path : string) (l : list string) :
  forall f,
    ((forall i, i < List.length l -> fails (calls f + i) = None)
     /\ write_chunks fails path l f
        = (inl tt, {| calls := calls f + List.length l;
                      bytes := bytes f ++ join_all l |}))
    \/ (exists w e n,
          w < List.length l
          /\ (forall i, i < w -> fails (calls f + i) = None)
          /\ fails (calls f + w) = Some (e, n)
          /\ write_chunks fails path l f
             = (inr e, {| calls := calls f + w + 1;
                          bytes := bytes f ++ join_all (firstn w l)
                                     ++ Strings.take n (nth w l EmptyString) |})).
Proof.
  induction l as [|x l IH]; intros f; cbn [write_chunks].
  - left. split; [simpl; lia|].
    unfold ret. destruct f as [c b]. cbn [calls bytes join_all fold_right List.length].
    now rewrite Nat.add_0_r, append_empty_r.
  - unfold bind, WriteString, syscall.
    destruct (fails (calls f)) as [[e n]|] eqn:Hf.
    + right. exists 0, e, n. rewrite Nat.add_0_r.
      split; [simpl; lia|]. split; [intros i Hi; lia|]. split; [exact Hf|].
      cbn [firstn nth join_all fold_right append]. do 2 f_equal. lia.
    + destruct (IH {| calls := S (calls f); bytes := bytes f ++ x |})
        as [[Hall Hrun] | (w & e & n & Hw & Hbefore & Hfail & Hrun)];
        cbn [calls bytes] in *; rewrite Hrun.
      * left. split.
        -- intros [|i] Hi; [now rewrite Nat.add_0_r|].
           replace (calls f + S i) with (S (calls f) + i) by lia.
           apply Hall. simpl in Hi. lia.
        -- cbn [List.length join_all fold_right]. do 2 f_equal; [lia|].
           now rewrite append_assoc.
      * right. exists (S w), e, n.
        split; [simpl; lia|]. split; [|split].
        -- intros [|i] Hi; [now rewrite Nat.add_0_r|].
           replace (calls f + S i) with (S (calls f) + i) by lia.
           apply Hbefore. lia.
        -- replace (calls f + S w) with (S (calls f) + w) by lia. exact Hfail.
        -- cbn [firstn nth join_all fold_right]. do 2 f_equal; [lia|].
           now rewrite !append_assoc.
Qed.

Lemma stub_text_chunks (sso : ServerSideObject) :
  stub_text sso = join_all (chunks sso).
Proof.
  unfold stub_text, chunks. rewrite !join_all_app.
  cbn [join_all fold_right]. now rewrite !append_assoc, !append_empty_r.
Qed.

(** The texts of the first writes and a beginning of the next one are a
    beginning of the text of all the writes. *)
Lemma join_all_prefix (l : list string) :
  forall w n,
    join_all l
    = (join_all (firstn w l) ++ Strings.take n (nth w l EmptyString))
      ++ Strings.drop n (nth w l EmptyString) ++ join_all (skipn (S w) l).
Proof.
  induction l as [|x l IH]; intros w n.
  - destruct w, n; reflexivity.
  - destruct w as [|w]; cbn [firstn nth skipn join_all fold_right append].
    + change (fold_right append EmptyString l) with (join_all l).
      now rewrite <- append_assoc, take_drop.
    + change (fold_right append EmptyString l) with (join_all l).
      change (fold_right append EmptyString (firstn w l)) with (join_all (firstn w l)).
      rewrite (IH w n) at 1. now rewrite !append_assoc.
Qed.

(** The file after a run whose call number [k] (counted from zero: the
    directory, the file, then the writes) is the first one to fail: the
    failing call is the last one made; the bytes are untouched when the
    directory or the file could not be made; when write number [k - 2]
    fails, having put [n] bytes of its text into the file, the file holds
    the texts of the writes before it and these bytes. *)
Definition after_failure (sso : ServerSideObject) (f : file) (k n : nat) : file :=
  {| calls := calls f + k + 1;
     bytes := match k with
              | 0 | 1 => bytes f
              | S (S w) =>
                  join_all (firstn w (chunks sso))
                    ++ Strings.take n (nth w (chunks sso) EmptyString)
              end |}.

(** Every run of the writer: all its calls succeed and the file holds the
    stub text, or it stops at its first failing call. *)
Lemma WriteSimplifiedSSO_run (fails : oracle) (outputDir : string)
  (sso : ServerSideObject) (f : file) :
  ((forall i, i < 6 + List.length (DeclaredMethods sso) -> fails (calls f + i) = None)
   /\ WriteSimplifiedSSO fails outputDir sso f
      = (inl tt, {| calls := calls f + 6 + List.length (DeclaredMethods sso);
                    bytes := stub_text sso |}))
  \/ (exists k e n,
        k < 6 + List.length (DeclaredMethods sso)
        /\ (forall i, i < k -> fails (calls f + i) = None)
        /\ fails (calls f + k) = Some (e, n)
        /\ WriteSimplifiedSSO fails outputDir sso f = (inr e, after_failure sso f k n)).
Proof.
  rewrite WriteSimplifiedSSO_chunks. unfold MkdirAll, Create, syscall, after_failure.
  destruct (fails (calls f)) as [[e n]|] eqn:H0.
  { right. exists 0, e, n. rewrite Nat.add_0_r.
    split; [lia|]. split; [intros i Hi; lia|]. split; [exact H0|].
    do 2 f_equal. lia. }
  cbn [calls bytes].
  destruct (fails (S (calls f))) as [[e n]|] eqn:H1.
  { right. exists 1, e, n. replace (calls f + 1) with (S (calls f)) by lia.
    split; [lia|]. split; [|split; [exact H1|]].
    - intros [|i] Hi; [now rewrite Nat.add_0_r | lia].
    - do 2 f_equal. lia. }
  destruct (write_chunks_run fails (Filepath.Join outputDir (ClassName sso ++ ".java"))
              (chunks sso) {| calls := S (S (calls f)); bytes := EmptyString |})
    as [[Hall Hrun] | (w & e & n & Hw & Hbefore & Hfail & Hrun)];
    cbn [calls bytes append] in *; rewrite Hrun; rewrite chunks_length in *.
  - left. split.
    + intros [|[|i]] Hi; [now rewrite Nat.add_0_r | |].
      * now replace (calls f + 1) with (S (calls f)) by lia.
      * replace (calls f + S (S i)) with (S (S (calls f + i))) by lia.
        apply Hall. lia.
    + do 2 f_equal; [lia | symmetry; apply stub_text_chunks].
  - right. exists (S (S w)), e, n.
    split; [lia|]. split; [|split].
    + intros [|[|i]] Hi; [now rewrite Nat.add_0_r | |].
      * now replace (calls f + 1) with (S (calls f)) by lia.
      * replace (calls f + S (S i)) with (S (S (calls f + i))) by lia.
        apply Hbefore. lia.
    + replace (calls f + S (S w)) with (S (S (calls f + w))) by lia. exact Hfail.
    + do 2 f_equal. lia.
Qed.

End WriterFailure.

(** X14. A run of the writer that reports no error overwrites the file: the
    file then holds the stub text of the unit, whatever it held before, and
    the run made six system calls and one more per method. *)
Theorem write_overwrites_file (fails : Writer.oracle) (outputDir : string)
  (sso : ServerSideObject) (f f' : Writer.file) :
  Writer.WriteSimplifiedSSO fails outputDir sso f = (inl tt, f') ->
  Writer.bytes f' = WriterFacts.stub_text sso
  /\ Writer.calls f' = Writer.calls f + 6 + List.length (DeclaredMethods sso).
Proof.
  intros Hrun. split; [eapply WriterFacts.WriteSimplifiedSSO_ok, Hrun|].
  revert Hrun.
  unfold Writer.WriteSimplifiedSSO, Writer.bind, Writer.MkdirAll, Writer.Create,
    Writer.WriteString, Writer.syscall, Writer.ret.
  cbn [Writer.calls Writer.bytes].
  repeat (match goal with
          | |- context [match fails ?n with _ => _ end] =>
              destruct (fails n) as [[? ?]|]; [discriminate|]
          end; cbn [Writer.calls Writer.bytes]).
  destruct (Writer.write_methods _ _ _ _) as [[u|e] g] eqn:Hw; [|discriminate].
  apply WriterFailure.write_methods_calls in Hw. cbn [Writer.calls] in Hw.
  destruct (fails (Writer.calls g)) as [[? ?]|]; [discriminate|].
  intros [= <-]. cbn [Writer.calls]. lia.
Qed.

Lemma write_overwrites_file_witness :
  Writer.bytes (snd (Writer.WriteSimplifiedSSO Writer.never "out" unit_Counter
                       {| Writer.calls := 0; Writer.bytes := "old content" |}))
  = WriterFacts.stub_text unit_Counter.
Proof.
  apply (write_overwrites_file Writer.never "out" unit_Counter
           {| Writer.calls := 0; Writer.bytes := "old content" |}).
  vm_compute. reflexivity.
Defined.

(** X15. A run of the writer that reports an error stopped at the first
    system call that failed. The error is the one that call returned, and
    no call was made after it. When the failing call is the making of the
    directory or of the file, the bytes of the file are those it held
    before; when it is a write, the file holds the texts of the writes
    before it, whole and in order, then the bytes the failing write put
    there, which is a beginning of the stub text. Conversely a run whose
    first failing call is one of its six calls and one more per method
    reports that error and leaves that file. *)
Theorem write_failure_leaves_prefix (fails : Writer.oracle) (outputDir : string)
  (sso : ServerSideObject) (f : Writer.file) :
  (forall e f',
      Writer.WriteSimplifiedSSO fails outputDir sso f = (inr e, f') ->
      exists k n,
        k < 6 + List.length (DeclaredMethods sso)
        /\ (forall i, i < k -> fails (Writer.calls f + i) = None)
        /\ fails (Writer.calls f + k) = Some (e, n)
        /\ Writer.calls f' = Writer.calls f + k + 1
        /\ Writer.bytes f'
           = match k with
             | 0 | 1 => Writer.bytes f
             | S (S w) =>
                 WriterFacts.join_all (firstn w (WriterFailure.chunks sso))
                   ++ Strings.take n (nth w (WriterFailure.chunks sso) EmptyString)
             end
        /\ (2 <= k -> exists rest, WriterFacts.stub_text sso = Writer.bytes f' ++ rest))
  /\ (forall k e n,
         k < 6 + List.length (DeclaredMethods sso) ->
         (forall i, i < k -> fails (Writer.calls f + i) = None) ->
         fails (Writer.calls f + k) = Some (e, n) ->
         Writer.WriteSimplifiedSSO fails outputDir sso f
         = (inr e, WriterFailure.after_failure sso f k n)).
Proof.
  pose proof (WriterFailure.WriteSimplifiedSSO_run fails outputDir sso f) as Hcases.
  split.
  - intros e f' Hrun.
    destruct Hcases as [[_ Hok] | (k & e0 & n & Hk & Hbefore & Hfail & Herr)];
      [rewrite Hok in Hrun; discriminate|].
    rewrite Herr in Hrun. injection Hrun as <- <-.
    exists k, n. repeat split; try assumption.
    intros Hk2. destruct k as [|[|w]]; [lia | lia |].
    cbn [WriterFailure.after_failure Writer.bytes].
    rewrite WriterFailure.stub_text_chunks, (WriterFailure.join_all_prefix _ w n).
    eexists. reflexivity.
  - intros k e n Hk Hbefore Hfail.
    destruct Hcases as [[Hall _] | (k' & e' & n' & Hk' & Hbefore' & Hfail' & Herr)].
    + rewrite (Hall k Hk) in Hfail. discriminate.
    + destruct (Nat.lt_trichotomy k k') as [Hlt | [<- | Hgt]].
      * rewrite (Hbefore' k Hlt) in Hfail. discriminate.
      * rewrite Hfail in Hfail'. injection Hfail' as <- <-. exact Herr.
      * rewrite (Hbefore k' Hgt) in Hfail'. discriminate.
Qed.

(** The fifth system call, the write of the constructor, fails with seven
    of its bytes written. *)
Definition fails_fifth : Writer.oracle :=
  fun n => if Nat.eqb n 4 then Some (PathError "out/Counter.java", 7) else None.

Lemma write_failure_leaves_prefix_witness :
  Writer.WriteSimplifiedSSO fails_fifth "out" unit_Counter Writer.fresh
  = (inr (PathError "out/Counter.java"),
     {| Writer.calls := 5;
        Writer.bytes := "package ;" ++ nl ++ nl
                          ++ "public class Counter {" ++ nl ++ nl ++ "    pub" |}).
Proof.
  rewrite (proj2 (write_failure_leaves_prefix fails_fifth "out" unit_Counter Writer.fresh)
             4 (PathError "out/Counter.java") 7).
  - vm_compute. reflexivity.
  - simpl. lia.
  - intros [|[|[|[|i]]]] Hi; try reflexivity. lia.
  - reflexivity.
Defined.

(** ** The sort interface of [ServerSideObjectList] *)




Module SwapFacts.






End SwapFacts.

(** X16. [Less] is a strict order on class names, as [sort.Sort] needs: no
    unit is less than itself, [Less] never holds both ways, it is
    transitive, and two units are tied, neither less than the other,
    exactly when their class names are the same. *)
Theorem Less_strict_order (a b c : ServerSideObject) :
  Less a a = false
  /\ (Less a b = true -> Less b a = false)
  /\ (Less a b = true -> Less b c = true -> Less a c = true)
  /\ (Less a b = false /\ Less b a = false <-> ClassName a = ClassName b).
Proof.
  unfold Less, String.ltb.
  assert (Hlt : forall x y, String.compare x y = Lt <-> String_as_OT.lt x y)
    by (intros x y; apply String_as_OT.cmp_lt).
  assert (Hrefl : forall x, String.compare x x = Eq)
    by (intros x; apply (proj2 (String_as_OT.cmp_eq x x) eq_refl)).
  split; [now rewrite Hrefl|]. split; [|split; [|split]].
  - rewrite (String.compare_antisym (ClassName a) (ClassName b)).
    destruct (String.compare (ClassName b) (ClassName a)); simpl; congruence.
  - intros Hab Hbc.
    destruct (String.compare (ClassName a) (ClassName b)) eqn:H1; try discriminate.
    destruct (String.compare (ClassName b) (ClassName c)) eqn:H2; try discriminate.
    apply Hlt in H1, H2.
    pose proof (String_as_OT.lt_trans _ _ _ H1 H2) as H3.
    apply Hlt in H3. now rewrite H3.
  - intros [Hab Hba]. apply SortFacts.name_le_antisym; unfold SortFacts.name_le, String.ltb;
      assumption.
  - intros Heq. rewrite Heq. now rewrite Hrefl.
Qed.


(** ** The units of a scan and the files of the traversal *)

Module WalkFacts.

Lemma visit_units_file (v : visit) (sso : ServerSideObject) :
  In sso (ScannerFacts.visit_units v) <->
  exists path name text,
    v = VisitFile path name (Some text)
    /\ Strings.HasSuffix name ".java" = true
    /\ ScanForSSOs_file path name text = Some sso.
Proof.
  unfold ScannerFacts.visit_units. split.
  - destruct v as [p|p n|p n [text|]]; cbn [ScanForSSOs_visit fst]; try contradiction.
    + destruct (Strings.HasSuffix n ".java") eqn:Hn; cbn [fst]; [|contradiction].
      destruct (ScanForSSOs_file p n text) as [u|] eqn:Hu; cbn [fst]; [|contradiction].
      intros [<- | []]. exists p, n, text. auto.
    + destruct (Strings.HasSuffix n ".java"); contradiction.
  - intros (p & n & text & -> & Hn & Hu). cbn [ScanForSSOs_visit].
    rewrite Hn, Hu. simpl. auto.
Qed.

(** The units collected by a walk, with or without an error, come from
    visits of the walk. *)
Lemma Walk_units (visits : list visit) :
  forall acc sso,
    In sso (fst (Walk visits acc)) ->
    In sso acc \/ exists v, In v visits /\ In sso (ScannerFacts.visit_units v).
Proof.
  induction visits as [|v rest IH]; intros acc sso; cbn [Walk]; [now left|].
  rewrite ScannerFacts.ScanForSSOs_visit_app.
  destruct (ScannerFacts.visit_error v).
  - cbn [fst]. rewrite in_app_iff. intros [H | H]; [now left|].
    right. exists v. split; [now left | exact H].
  - intros H. apply IH in H as [H | (w & Hw & H)].
    + apply in_app_iff in H as [H | H]; [now left|].
      right. exists v. split; [now left | exact H].
    + right. exists w. split; [now right | exact H].
Qed.

End WalkFacts.

(** X18. The units of a scan are the units of the visited files: every unit
    returned was built from a readable file of the traversal whose name is
    the class name followed by [.java] and whose path is the file path of
    the unit; and when the traversal meets no error, every readable [.java]
    file of it that gives a unit has that unit in the list returned. *)
Theorem scan_units_of_files
  (sort_Sort : ServerSideObjectList -> ServerSideObjectList) (visits : list visit) :
  sort_contract sort_Sort ->
  (forall sso,
      In sso (fst (ScanForSSOs sort_Sort visits)) ->
      exists text,
        In (VisitFile (FilePath sso) (ClassName sso ++ ".java") (Some text)) visits
        /\ ScanForSSOs_file (FilePath sso) (ClassName sso ++ ".java") text = Some sso)
  /\ (snd (Walk visits []) = None ->
      forall path name text sso,
        In (VisitFile path name (Some text)) visits ->
        Strings.HasSuffix name ".java" = true ->
        ScanForSSOs_file path name text = Some sso ->
        In sso (fst (ScanForSSOs sort_Sort visits))).
Proof.
  intros Hsort. unfold ScanForSSOs.
  destruct (Walk visits []) as [matchingFiles err] eqn:Hwalk. cbn [fst snd].
  split.
  - intros sso Hin.
    apply (Permutation_in sso (Permutation_sym (proj1 (Hsort matchingFiles)))) in Hin.
    replace matchingFiles with (fst (Walk visits [])) in Hin by now rewrite Hwalk.
    apply WalkFacts.Walk_units in Hin as [[] | (v & Hv & Hin)].
    apply WalkFacts.visit_units_file in Hin as (p & n & text & -> & Hn & Hu).
    destruct (file_unit_named p n text sso Hn Hu) as (-> & <- & _).
    exists text. auto.
  - intros -> path name text sso Hv Hn Hu.
    apply (Permutation_in sso (proj1 (Hsort matchingFiles))).
    assert (Hok : snd (Walk visits []) = None) by now rewrite Hwalk.
    apply ScannerFacts.Walk_no_error in Hok.
    rewrite (ScannerFacts.Walk_complete visits [] Hok) in Hwalk.
    injection Hwalk as <-. cbn [app].
    apply in_flat_map. exists (VisitFile path name (Some text)).
    split; [exact Hv|]. apply WalkFacts.visit_units_file. eauto 6.
Qed.

Lemma scan_units_of_files_witness :
  exists text,
    In (VisitFile (FilePath unit_Foo) (ClassName unit_Foo ++ ".java") (Some text))
      visits_sample
    /\ ScanForSSOs_file (FilePath unit_Foo) (ClassName unit_Foo ++ ".java") text
       = Some unit_Foo.
Proof.
  destruct (scan_units_of_files ClassNameSort.sort visits_sample merge_sort_contract)
    as [Hfrom _].
  apply Hfrom. rewrite scan_sample. simpl. auto.
Defined.

(** ** The two revisions of the parameter extraction *)

Module RevisionFacts.

Definition earlier_piece (pair : string) : list Parameter_ :=
  if Nat.eqb (List.length (ParameterFacts.tokens pair)) 2
  then ParameterFacts.parameter_of (ParameterFacts.tokens pair)
  else [].

Lemma Earlier_pair_eq (acc : list Parameter_) (pair : string) :
  Earlier.extractParameters_pair acc pair = (acc ++ earlier_piece pair)%list.
Proof.
  unfold Earlier.extractParameters_pair, earlier_piece.
  fold (ParameterFacts.tokens pair).
  destruct (ParameterFacts.tokens pair) as [|a [|b [|c more]]]; cbn;
    rewrite ?app_nil_r; reflexivity.
Qed.

Lemma Earlier_fold (pairs : list string) :
  forall acc,
    fold_left Earlier.extractParameters_pair pairs acc
    = (acc ++ flat_map earlier_piece pairs)%list.
Proof.
  induction pairs as [|pair rest IH]; intros acc; cbn [fold_left flat_map].
  - now rewrite app_nil_r.
  - rewrite IH, Earlier_pair_eq. now rewrite <- app_assoc.
Qed.

Lemma Earlier_flat_map (paramString : string) :
  Earlier.extractParameters paramString
  = flat_map earlier_piece (Strings.Split paramString ",").
Proof.
  unfold Earlier.extractParameters.
  destruct (String.eqb_spec paramString "") as [->|_]; [reflexivity|].
  now rewrite Earlier_fold.
Qed.

(** On one piece: the earlier revision gives nothing or what the later one
    gives, and the same when the piece has at most two tokens. *)
Lemma earlier_piece_later (pair : string) :
  (earlier_piece pair = []
   \/ earlier_piece pair
      = ParameterFacts.parameter_of
          (ParameterFacts.skip_leading (ParameterFacts.tokens pair)))
  /\ (List.length (ParameterFacts.tokens pair) <= 2 ->
      earlier_piece pair
      = ParameterFacts.parameter_of
          (ParameterFacts.skip_leading (ParameterFacts.tokens pair))).
Proof.
  unfold earlier_piece.
  destruct (ParameterFacts.tokens pair) as [|a [|b [|c more]]]; cbn; auto.
  split; [now left | lia].
Qed.

End RevisionFacts.

(** X19. The two revisions of [extractParameters] agree on every parameter
    list whose pieces have at most two tokens each; on any parameter list
    the earlier revision, which takes the pieces of exactly two tokens,
    extracts no more parameters than the later one. *)
Theorem revisions_agree_without_modifiers (paramString : string) :
  (Forall (fun pair => List.length (ParameterFacts.tokens pair) <= 2)
     (Strings.Split paramString ",") ->
   Earlier.extractParameters paramString = extractParameters paramString)
  /\ List.length (Earlier.extractParameters paramString)
     <= List.length (extractParameters paramString).
Proof.
  rewrite RevisionFacts.Earlier_flat_map, ParameterRoundTrip.extractParameters_flat_map.
  induction (Strings.Split paramString ",") as [|pair pairs [IH1 IH2]];
    [split; [reflexivity | simpl; lia]|].
  cbn [flat_map]. destruct (RevisionFacts.earlier_piece_later pair) as [Hcase Hsame].
  split.
  - intros Hall. inversion Hall as [|? ? Hpair Hrest]; subst.
    now rewrite (Hsame Hpair), (IH1 Hrest).
  - rewrite !length_app. destruct Hcase as [-> | ->]; simpl; lia.
Qed.

(** ** Matches in the order of the text *)

Module OrderFacts.
Import Regexp RegexpSem StringFacts.

(** [tiles ws s]: the texts [ws] stand in [s] one after the other, in that
    order and without overlap, with any text before, between and after
    them. *)
Inductive tiles : list string -> string -> Prop :=
| tiles_none (s : string) : tiles [] s
| tiles_next (gap w : string) (ws : list string) (s : string) :
    tiles ws s -> tiles (w :: ws) (gap ++ w ++ s).

Lemma tiles_after (ws : list string) (s : string) :
  tiles ws s -> forall x, tiles ws (x ++ s).
Proof.
  destruct 1 as [s|gap w ws s H]; intros x; [constructor|].
  rewrite <- append_assoc. now constructor.
Qed.

(** The matched text of a list of submatches. *)
Definition whole (match_ : list string) : string := nth 0 match_ EmptyString.

Lemma search_piece (r : regex) (ngroups : nat) (text : string) (pos b e : nat)
  (c : captures) :
  search r pos (Strings.drop pos text) = Some (b, e, c) ->
  exists pre w post,
    Strings.drop pos text = pre ++ w ++ post
    /\ b = pos + String.length pre /\ e = b + String.length w
    /\ whole (submatches text ngroups (b, e, c)) = w.
Proof.
  intros H. apply search_sound in H as (pre & w & post & Hs & _ & -> & ->).
  exists pre, w, post. repeat split; [exact Hs|].
  cbn [submatches whole nth]. unfold Strings.slice.
  rewrite drop_plus, Hs, drop_append.
  replace (pos + String.length pre + String.length w - (pos + String.length pre))
    with (String.length w) by lia.
  apply take_append.
Qed.

Lemma length_zero_empty (s : string) : String.length s = 0 -> s = EmptyString.
Proof. now destruct s. Qed.

(** The matches delivered from offset [pos] on stand in the rest of the
    text in the order of the list. *)
Lemma all_from_tiles (r : regex) (ngroups : nat) (text : string) (fuel : nat) :
  forall pos prevEnd,
    tiles (map whole (all_from fuel r ngroups text pos prevEnd))
      (Strings.drop pos text).
Proof.
  induction fuel as [|fuel IH]; intros pos prevEnd; cbn [all_from]; [constructor|].
  destruct (Nat.ltb (String.length text) pos); [constructor|].
  destruct (search r pos (Strings.drop pos text)) as [[[b e] c]|] eqn:Hs; [|constructor].
  destruct (search_piece r ngroups text pos b e c Hs)
    as (pre & w & post & Hdrop & Hb & He & Hw).
  destruct (Nat.eqb_spec e pos) as [Hemp|Hne].
  - assert (Hpre : pre = EmptyString) by (apply length_zero_empty; lia).
    assert (Hwe : w = EmptyString) by (apply length_zero_empty; lia).
    rewrite Hwe in Hw. clear Hdrop Hb He Hpre Hwe.
    assert (Hrest : tiles (map whole (all_from fuel r ngroups text (S pos) (Some e)))
                      (Strings.drop pos text)).
    { rewrite <- (take_drop 1 (Strings.drop pos text)).
      apply tiles_after. rewrite <- drop_plus, Nat.add_1_r. apply IH. }
    assert (Hhere : tiles (map whole (submatches text ngroups (b, e, c)
                                        :: all_from fuel r ngroups text (S pos) (Some e)))
                      (Strings.drop pos text)).
    { cbn [map]. rewrite Hw.
      change (Strings.drop pos text) with ("" ++ "" ++ Strings.drop pos text).
      now constructor. }
    destruct prevEnd as [p|]; [destruct (Nat.eqb b p)|]; assumption.
  - cbn [map]. rewrite Hw, Hdrop. constructor.
    replace post with (Strings.drop e text); [apply IH|].
    rewrite He, Hb, <- Nat.add_assoc, drop_plus, Hdrop.
    rewrite <- append_assoc, <- length_append. apply drop_append.
Qed.

End OrderFacts.

(** X20. The methods of a class keep the order of the text: the method
    matches stand in the stripped class text one after the other, without
    overlap, and the method list holds the records of those matches that
    pass the gates, in that order; every match has its three groups, so the
    length test of the loop never rejects one. *)
Theorem methods_in_text_order (classContent : string) :
  let matches := Regexp.FindAllStringSubmatch Patterns.methodPattern 3
                   (removePrivateClasses classContent) in
  OrderFacts.tiles (map OrderFacts.whole matches) (removePrivateClasses classContent)
  /\ Forall (fun m => List.length m = 4) matches
  /\ declaredMethods_of classContent
     = map ScannerFacts.method_record
         (filter (fun m =>
                    match allowedTypes (nth 1 m EmptyString) with
                    | Some _ => areParametersValid (extractParameters (nth 3 m EmptyString))
                    | None => false
                    end) matches).
Proof.
  intros matches.
  assert (Hlen : Forall (fun m => List.length m = 4) matches)
    by (apply Forall_forall; intros m Hm; eapply RegexpFacts.all_from_length, Hm).
  split; [apply (OrderFacts.all_from_tiles _ _ _ _ 0 None)|].
  split; [exact Hlen|].
  unfold declaredMethods_of. fold matches.
  rewrite ScannerFacts.fold_methods. cbn [app]. f_equal.
  induction Hlen as [|m ms Hm _ IH]; [reflexivity|].
  cbn [filter]. rewrite IH. unfold ScannerFacts.passes at 1. rewrite Hm.
  cbn [Nat.leb andb].
  destruct (allowedTypes (nth 1 m "")); reflexivity.
Qed.

(** ** The name of the archive ([main]) *)

(** The archive name built from the [--compile] flag:
    [if !strings.HasSuffix(compiledJarName, ".jar") { compiledJarName += ".jar" }]. *)
Definition compiledJarName (compile : string) : string :=
  if negb (Strings.HasSuffix compile ".jar") then compile ++ ".jar" else compile.

Lemma HasSuffix_append (s p : string) : Strings.HasSuffix (s ++ p) p = true.
Proof.
  unfold Strings.HasSuffix. rewrite StringFacts.length_append.
  replace (String.length s + String.length p - String.length p)
    with (String.length s) by lia.
  rewrite StringFacts.drop_append, String.eqb_refl, andb_true_r.
  apply Nat.leb_le. lia.
Qed.

(** X21. The archive name always ends in [.jar], and the suffix is not
    added twice: a name that ends in [.jar] is kept, and building the name
    from a built name changes nothing. *)
Theorem compiledJarName_suffix (compile : string) :
  Strings.HasSuffix (compiledJarName compile) ".jar" = true
  /\ compiledJarName (compiledJarName compile) = compiledJarName compile
  /\ (compiledJarName compile = compile \/ compiledJarName compile = compile ++ ".jar").
Proof.
  assert (H : Strings.HasSuffix (compiledJarName compile) ".jar" = true).
  { unfold compiledJarName.
    destruct (Strings.HasSuffix compile ".jar") eqn:Hs; cbn [negb];
      [exact Hs | apply HasSuffix_append]. }
  split; [exact H|]. split.
  - unfold compiledJarName at 1. now rewrite H.
  - unfold compiledJarName. destruct (Strings.HasSuffix compile ".jar"); auto.
Qed.

(** ** The two revisions of the method pattern *)

Module EarlierPatterns.
Import Regexp.

(** The method pattern of the earlier revision ([utils/parsers.go]): single
    spaces, no space before the parenthesis. *)
Definition methodPattern_text : string :=
  "public ([a-zA-Z0-9_$<>\[\]]+) ([a-zA-Z0-9_$]+)\(([^)]*)\)".

Definition methodPattern : regex :=
  Patterns.cat
    [ Lit "public ";
      Group 1 (Plus (Class (fun c => Patterns.alnum c || Patterns.one_of "_$<>[]" c)));
      Lit " ";
      Group 2 (Plus (Class (fun c => Patterns.alnum c || Patterns.one_of "_$" c)));
      Lit "(";
      Group 3 (Star (Class (fun c => negb (Ascii.eqb c ")"%char))));
      Lit ")" ].

End EarlierPatterns.

Module PatternRevisionFacts.
Import Regexp RegexpSem PatternFacts StringFacts FieldsFacts.

Lemma sem_Star_Class_intro (f : ascii -> bool) (w : string) (c : captures) :
  every f w = true -> sem (Star (Class f)) w c c.
Proof.
  induction w as [|a w IH]; intros H; [constructor|].
  cbn [every] in H. apply andb_true_iff in H as [Ha Hw].
  change (String a w) with (String a EmptyString ++ w).
  econstructor; [now constructor | now apply IH].
Qed.

Lemma sem_Plus_Class_intro (f : ascii -> bool) (w : string) (c : captures) :
  w <> EmptyString -> every f w = true -> sem (Plus (Class f)) w c c.
Proof.
  destruct w as [|a w]; [contradiction|]. intros _ H.
  cbn [every] in H. apply andb_true_iff in H as [Ha Hw].
  change (String a w) with (String a EmptyString ++ w).
  unfold Plus. econstructor; [now constructor | now apply sem_Star_Class_intro].
Qed.

Lemma sem_one_space (c : captures) : sem (Plus Patterns.space) " " c c.
Proof. apply sem_Plus_Class_intro; [discriminate | reflexivity]. Qed.

End PatternRevisionFacts.

(** X22. The later method pattern allows what the earlier one allowed:
    every text matched by the method pattern of the earlier revision, with
    single spaces, is matched by the later pattern with the same return
    type, method name and parameter text in its groups. *)
Theorem later_methodPattern_includes_earlier (w : string) (c : Regexp.captures) :
  RegexpSem.sem EarlierPatterns.methodPattern w [] c ->
  RegexpSem.sem Patterns.methodPattern w [] c.
Proof.
  unfold EarlierPatterns.methodPattern, Patterns.methodPattern. cbn [Patterns.cat].
  intros H.
  apply PatternFacts.sem_Cat_inv in H as (w0 & t0 & c0 & -> & H0 & H).
  apply PatternFacts.sem_Lit_inv in H0 as [-> ->].
  apply PatternFacts.sem_Cat_inv in H as (type & t1 & c1 & -> & H1 & H).
  apply PatternFacts.sem_Cat_inv in H as (w2 & t2 & c2 & -> & H2 & H).
  apply PatternFacts.sem_Lit_inv in H2 as [-> ->].
  apply PatternFacts.sem_Cat_inv in H as (name & t3 & c3 & -> & H3 & H).
  apply PatternFacts.sem_Cat_inv in H as (w4 & t4 & c4 & -> & H4 & H).
  apply PatternFacts.sem_Lit_inv in H4 as [-> ->].
  change ("public " ++ type ++ " " ++ name ++ "(" ++ t4)
    with ("public" ++ " " ++ type ++ " " ++ name ++ "" ++ "(" ++ t4).
  econstructor; [constructor|].
  econstructor; [apply PatternRevisionFacts.sem_one_space|].
  econstructor; [exact H1|].
  econstructor; [apply PatternRevisionFacts.sem_one_space|].
  econstructor; [exact H3|].
  econstructor; [apply RegexpSem.sem_Star_stop|].
  econstructor; [constructor | exact H].
Qed.

Lemma later_methodPattern_includes_earlier_witness :
  RegexpSem.sem Patterns.methodPattern "public int getX()" []
    [(3, EmptyString); (2, "getX"); (1, "int")].
Proof.
  apply later_methodPattern_includes_earlier.
  unfold EarlierPatterns.methodPattern. cbn [Patterns.cat].
  change "public int getX()"
    with ("public " ++ "int" ++ " " ++ "getX" ++ "(" ++ "" ++ ")").
  econstructor; [constructor|].
  econstructor; [constructor; apply PatternRevisionFacts.sem_Plus_Class_intro;
                 [discriminate | reflexivity]|].
  econstructor; [constructor|].
  econstructor; [constructor; apply PatternRevisionFacts.sem_Plus_Class_intro;
                 [discriminate | reflexivity]|].
  econstructor; [constructor|].
  econstructor; [constructor; apply RegexpSem.sem_Star_stop | constructor].
Defined.
